(** * Pictionary room server: the room lifecycle and the round state machine

    A shallow embedding of [server/index.js]: the room registry, the round
    timers, the handlers of the socket events and the end-of-game evaluation,
    followed by the properties of the specification that concern them.

    Conventions of the embedding.
    - A JavaScript string is a [string], the bytes of its UTF-8 encoding;
      [trim], [toLowerCase] and the class [\s] are those of Unicode (the
      white space of ECMAScript, the case mappings of Unicode 14.0 with
      Final_Sigma).
    - A payload field that is missing, [undefined] or [null] is the empty
      string, which is what [String(x || "")] makes of it; an event may also
      come without its payload object, which the handlers cannot destructure.
    - Scores, rounds and indices are [nat]; [turnIndex] may be [NaN] (a
      remainder by zero), so it has its own type [num]; times are [Z].
    - [Date.now()] and [Math.random()] are inputs of the event that reads them.
    - Room objects live in a heap, addressed by [nat]: the registry [rooms],
      the interval timers and the pending timeouts all hold addresses, since
      the source lets a timer outlive the registry entry of its room.
    - The intervals of [setInterval] and the callbacks of [setTimeout] are
      part of the state; a tick of an interval and the run of a timeout are
      events of the loop like the socket events, so that every interleaving
      that the single thread of the server allows is a run of the model.
    - Which sockets are in which channel is the business of the transport:
      an emitted event is recorded with the channel it is addressed to. *)

From Stdlib Require Import ZArith Lia Ascii.
From stdpp Require Import base option list strings pretty sorting.

Open Scope string_scope.
Open Scope list_scope.
Open Scope nat_scope.

(** ** Strings *)

(** A JavaScript string is a sequence of UTF-16 code units; [trim], [\s] and
    [toLowerCase] read it as a sequence of Unicode code points, a surrogate
    that has no partner being a code point of its own. A string of the model
    is the UTF-8 encoding of that sequence (a lone surrogate in the three-byte
    form): equality and concatenation are those of the code. The functions
    below decode the bytes, work on the code points and encode the result. *)

Module Unicode.

Local Open Scope N_scope.

(** *** UTF-8 *)

Definition byte (c : ascii) : N := N_of_ascii c.

(** A continuation byte. *)
Definition cont (b : N) : bool := (128 <=? b) && (b <? 192).

(** A byte that is part of no encoded code point is kept as it is, as a
    value above the code points. *)
Definition stray (b : N) : N := 1114112 + b.

Definition two (b1 b2 : N) : N := (b1 - 192) * 64 + (b2 - 128).
Definition three (b1 b2 b3 : N) : N :=
  (b1 - 224) * 4096 + (b2 - 128) * 64 + (b3 - 128).
Definition four (b1 b2 b3 b4 : N) : N :=
  (b1 - 240) * 262144 + (b2 - 128) * 4096 + (b3 - 128) * 64 + (b4 - 128).

Definition is_two (b1 b2 : N) : bool :=
  (194 <=? b1) && (b1 <? 224) && cont b2.
Definition is_three (b1 b2 b3 : N) : bool :=
  (224 <=? b1) && (b1 <? 240) && cont b2 && cont b3 && (2048 <=? three b1 b2 b3).
Definition is_four (b1 b2 b3 b4 : N) : bool :=
  (240 <=? b1) && (b1 <? 245) && cont b2 && cont b3 && cont b4
  && (65536 <=? four b1 b2 b3 b4) && (four b1 b2 b3 b4 <? 1114112).

(** The code points of a string: the shortest form only. *)
Fixpoint codepoints (s : string) : list N :=
  match s with
  | EmptyString => []
  | String c1 s1 =>
      let b1 := byte c1 in
      if b1 <? 128 then b1 :: codepoints s1
      else
        match s1 with
        | String c2 s2 =>
            let b2 := byte c2 in
            if is_two b1 b2 then two b1 b2 :: codepoints s2
            else
              match s2 with
              | String c3 s3 =>
                  let b3 := byte c3 in
                  if is_three b1 b2 b3 then three b1 b2 b3 :: codepoints s3
                  else
                    match s3 with
                    | String c4 s4 =>
                        let b4 := byte c4 in
                        if is_four b1 b2 b3 b4
                        then four b1 b2 b3 b4 :: codepoints s4
                        else stray b1 :: codepoints s1
                    | EmptyString => stray b1 :: codepoints s1
                    end
              | EmptyString => stray b1 :: codepoints s1
              end
        | EmptyString => [stray b1]
        end
  end.

Definition bytes (l : list N) : string :=
  fold_right (fun b s => String (ascii_of_N b) s) EmptyString l.

Definition encode (c : N) : string :=
  if c <? 128 then bytes [c]
  else if c <? 2048 then bytes [192 + c / 64; 128 + c mod 64]
  else if c <? 65536
  then bytes [224 + c / 4096; 128 + (c / 64) mod 64; 128 + c mod 64]
  else if c <? 1114112
  then bytes [240 + c / 262144; 128 + (c / 4096) mod 64;
              128 + (c / 64) mod 64; 128 + c mod 64]
  else bytes [c - 1114112].

Fixpoint utf8 (l : list N) : string :=
  match l with
  | [] => EmptyString
  | c :: l' => encode c +:+ utf8 l'
  end.

(** *** White space *)

(** [WhiteSpace] and [LineTerminator] of ECMAScript, the characters that
    [trim] removes and [\s] matches: TAB, LF, VT, FF, CR, the space
    separators (Zs) U+0020, U+00A0, U+1680, U+2000 to U+200A, U+202F, U+205F
    and U+3000, the separators U+2028 and U+2029, and U+FEFF. *)
Definition is_space (c : N) : bool :=
  ((9 <=? c) && (c <=? 13)) || (c =? 32) || (c =? 160) || (c =? 5760)
  || ((8192 <=? c) && (c <=? 8202)) || (c =? 8232) || (c =? 8233)
  || (c =? 8239) || (c =? 8287) || (c =? 12288) || (c =? 65279).

(** *** Lower case *)

(** The lower-case mappings of one code point to one code point
    (UnicodeData.txt of Unicode 14.0), as [(first, last, step, image of
    first)]: the code points [first], [first + step], ... up to [last] map to
    the image of the first, moved as far. *)
Definition lower_ranges : list (N * N * N * N) :=
  [
   (65, 90, 1, 97); (192, 214, 1, 224); (216, 222, 1, 248); (256, 302, 2,
   257); (306, 310, 2, 307); (313, 327, 2, 314); (330, 374, 2, 331); (376,
   376, 1, 255); (377, 381, 2, 378); (385, 385, 1, 595); (386, 388, 2, 387);
   (390, 390, 1, 596); (391, 391, 1, 392); (393, 394, 1, 598); (395, 395, 1,
   396); (398, 398, 1, 477); (399, 399, 1, 601); (400, 400, 1, 603); (401,
   401, 1, 402); (403, 403, 1, 608); (404, 404, 1, 611); (406, 406, 1, 617);
   (407, 407, 1, 616); (408, 408, 1, 409); (412, 412, 1, 623); (413, 413, 1,
   626); (415, 415, 1, 629); (416, 420, 2, 417); (422, 422, 1, 640); (423,
   423, 1, 424); (425, 425, 1, 643); (428, 428, 1, 429); (430, 430, 1, 648);
   (431, 431, 1, 432); (433, 434, 1, 650); (435, 437, 2, 436); (439, 439, 1,
   658); (440, 440, 1, 441); (444, 444, 1, 445); (452, 452, 1, 454); (453,
   453, 1, 454); (455, 455, 1, 457); (456, 456, 1, 457); (458, 458, 1, 460);
   (459, 475, 2, 460); (478, 494, 2, 479); (497, 497, 1, 499); (498, 500, 2,
   499); (502, 502, 1, 405); (503, 503, 1, 447); (504, 542, 2, 505); (544,
   544, 1, 414); (546, 562, 2, 547); (570, 570, 1, 11365); (571, 571, 1, 572);
   (573, 573, 1, 410); (574, 574, 1, 11366); (577, 577, 1, 578); (579, 579, 1,
   384); (580, 580, 1, 649); (581, 581, 1, 652); (582, 590, 2, 583); (880,
   882, 2, 881); (886, 886, 1, 887); (895, 895, 1, 1011); (902, 902, 1, 940);
   (904, 906, 1, 941); (908, 908, 1, 972); (910, 911, 1, 973); (913, 929, 1,
   945); (931, 939, 1, 963); (975, 975, 1, 983); (984, 1006, 2, 985); (1012,
   1012, 1, 952); (1015, 1015, 1, 1016); (1017, 1017, 1, 1010); (1018, 1018,
   1, 1019); (1021, 1023, 1, 891); (1024, 1039, 1, 1104); (1040, 1071, 1,
   1072); (1120, 1152, 2, 1121); (1162, 1214, 2, 1163); (1216, 1216, 1, 1231);
   (1217, 1229, 2, 1218); (1232, 1326, 2, 1233); (1329, 1366, 1, 1377); (4256,
   4293, 1, 11520); (4295, 4295, 1, 11559); (4301, 4301, 1, 11565); (5024,
   5103, 1, 43888); (5104, 5109, 1, 5112); (7312, 7354, 1, 4304); (7357, 7359,
   1, 4349); (7680, 7828, 2, 7681); (7838, 7838, 1, 223); (7840, 7934, 2,
   7841); (7944, 7951, 1, 7936); (7960, 7965, 1, 7952); (7976, 7983, 1, 7968);
   (7992, 7999, 1, 7984); (8008, 8013, 1, 8000); (8025, 8031, 2, 8017); (8040,
   8047, 1, 8032); (8072, 8079, 1, 8064); (8088, 8095, 1, 8080); (8104, 8111,
   1, 8096); (8120, 8121, 1, 8112); (8122, 8123, 1, 8048); (8124, 8124, 1,
   8115); (8136, 8139, 1, 8050); (8140, 8140, 1, 8131); (8152, 8153, 1, 8144);
   (8154, 8155, 1, 8054); (8168, 8169, 1, 8160); (8170, 8171, 1, 8058); (8172,
   8172, 1, 8165); (8184, 8185, 1, 8056); (8186, 8187, 1, 8060); (8188, 8188,
   1, 8179); (8486, 8486, 1, 969); (8490, 8490, 1, 107); (8491, 8491, 1, 229);
   (8498, 8498, 1, 8526); (8544, 8559, 1, 8560); (8579, 8579, 1, 8580); (9398,
   9423, 1, 9424); (11264, 11311, 1, 11312); (11360, 11360, 1, 11361); (11362,
   11362, 1, 619); (11363, 11363, 1, 7549); (11364, 11364, 1, 637); (11367,
   11371, 2, 11368); (11373, 11373, 1, 593); (11374, 11374, 1, 625); (11375,
   11375, 1, 592); (11376, 11376, 1, 594); (11378, 11378, 1, 11379); (11381,
   11381, 1, 11382); (11390, 11391, 1, 575); (11392, 11490, 2, 11393); (11499,
   11501, 2, 11500); (11506, 11506, 1, 11507); (42560, 42604, 2, 42561);
   (42624, 42650, 2, 42625); (42786, 42798, 2, 42787); (42802, 42862, 2,
   42803); (42873, 42875, 2, 42874); (42877, 42877, 1, 7545); (42878, 42886,
   2, 42879); (42891, 42891, 1, 42892); (42893, 42893, 1, 613); (42896, 42898,
   2, 42897); (42902, 42920, 2, 42903); (42922, 42922, 1, 614); (42923, 42923,
   1, 604); (42924, 42924, 1, 609); (42925, 42925, 1, 620); (42926, 42926, 1,
   618); (42928, 42928, 1, 670); (42929, 42929, 1, 647); (42930, 42930, 1,
   669); (42931, 42931, 1, 43859); (42932, 42946, 2, 42933); (42948, 42948, 1,
   42900); (42949, 42949, 1, 642); (42950, 42950, 1, 7566); (42951, 42953, 2,
   42952); (42960, 42960, 1, 42961); (42966, 42968, 2, 42967); (42997, 42997,
   1, 42998); (65313, 65338, 1, 65345); (66560, 66599, 1, 66600); (66736,
   66771, 1, 66776); (66928, 66938, 1, 66967); (66940, 66954, 1, 66979);
   (66956, 66962, 1, 66995); (66964, 66965, 1, 67003); (68736, 68786, 1,
   68800); (71840, 71871, 1, 71872); (93760, 93791, 1, 93792); (125184,
   125217, 1, 125218)
  ].

Fixpoint spread (n : nat) (c step d : N) : list (N * N) :=
  match n with
  | O => []
  | S n' => (c, d) :: spread n' (c + step) step (d + step)
  end.

Definition expand (r : N * N * N * N) : list (N * N) :=
  let '(lo, hi, step, d) := r in
  spread (N.to_nat ((hi - lo) / step + 1)) lo step d.

(** The same, one entry for each code point. *)
Definition lower_table : list (N * N) :=
  Eval vm_compute in flat_map expand lower_ranges.

Fixpoint assoc (c : N) (t : list (N * N)) : option N :=
  match t with
  | [] => None
  | (k, d) :: t' => if c =? k then Some d else assoc c t'
  end.

(** The lower case of a code point, whatever is around it: U+0130 is the one
    code point with a longer image (SpecialCasing.txt). *)
Definition lowerOf (c : N) : list N :=
  if c =? 304 then [105; 775]
  else match assoc c lower_table with Some d => [d] | None => [c] end.

Fixpoint within (c : N) (rs : list (N * N)) : bool :=
  match rs with
  | [] => false
  | (lo, hi) :: rs' => ((lo <=? c) && (c <=? hi)) || within c rs'
  end.

(** The properties Case_Ignorable and Cased (DerivedCoreProperties.txt of
    Unicode 14.0), as ranges. *)
Definition case_ignorable_ranges : list (N * N) :=
  [
   (39, 39); (46, 46); (58, 58); (94, 94); (96, 96); (168, 168); (173, 173);
   (175, 175); (180, 180); (183, 184); (688, 879); (884, 885); (890, 890);
   (900, 901); (903, 903); (1155, 1161); (1369, 1369); (1375, 1375); (1425,
   1469); (1471, 1471); (1473, 1474); (1476, 1477); (1479, 1479); (1524,
   1524); (1536, 1541); (1552, 1562); (1564, 1564); (1600, 1600); (1611,
   1631); (1648, 1648); (1750, 1757); (1759, 1768); (1770, 1773); (1807,
   1807); (1809, 1809); (1840, 1866); (1958, 1968); (2027, 2037); (2042,
   2042); (2045, 2045); (2070, 2093); (2137, 2139); (2184, 2184); (2192,
   2193); (2200, 2207); (2249, 2306); (2362, 2362); (2364, 2364); (2369,
   2376); (2381, 2381); (2385, 2391); (2402, 2403); (2417, 2417); (2433,
   2433); (2492, 2492); (2497, 2500); (2509, 2509); (2530, 2531); (2558,
   2558); (2561, 2562); (2620, 2620); (2625, 2626); (2631, 2632); (2635,
   2637); (2641, 2641); (2672, 2673); (2677, 2677); (2689, 2690); (2748,
   2748); (2753, 2757); (2759, 2760); (2765, 2765); (2786, 2787); (2810,
   2815); (2817, 2817); (2876, 2876); (2879, 2879); (2881, 2884); (2893,
   2893); (2901, 2902); (2914, 2915); (2946, 2946); (3008, 3008); (3021,
   3021); (3072, 3072); (3076, 3076); (3132, 3132); (3134, 3136); (3142,
   3144); (3146, 3149); (3157, 3158); (3170, 3171); (3201, 3201); (3260,
   3260); (3263, 3263); (3270, 3270); (3276, 3277); (3298, 3299); (3328,
   3329); (3387, 3388); (3393, 3396); (3405, 3405); (3426, 3427); (3457,
   3457); (3530, 3530); (3538, 3540); (3542, 3542); (3633, 3633); (3636,
   3642); (3654, 3662); (3761, 3761); (3764, 3772); (3782, 3782); (3784,
   3789); (3864, 3865); (3893, 3893); (3895, 3895); (3897, 3897); (3953,
   3966); (3968, 3972); (3974, 3975); (3981, 3991); (3993, 4028); (4038,
   4038); (4141, 4144); (4146, 4151); (4153, 4154); (4157, 4158); (4184,
   4185); (4190, 4192); (4209, 4212); (4226, 4226); (4229, 4230); (4237,
   4237); (4253, 4253); (4348, 4348); (4957, 4959); (5906, 5908); (5938,
   5939); (5970, 5971); (6002, 6003); (6068, 6069); (6071, 6077); (6086,
   6086); (6089, 6099); (6103, 6103); (6109, 6109); (6155, 6159); (6211,
   6211); (6277, 6278); (6313, 6313); (6432, 6434); (6439, 6440); (6450,
   6450); (6457, 6459); (6679, 6680); (6683, 6683); (6742, 6742); (6744,
   6750); (6752, 6752); (6754, 6754); (6757, 6764); (6771, 6780); (6783,
   6783); (6823, 6823); (6832, 6862); (6912, 6915); (6964, 6964); (6966,
   6970); (6972, 6972); (6978, 6978); (7019, 7027); (7040, 7041); (7074,
   7077); (7080, 7081); (7083, 7085); (7142, 7142); (7144, 7145); (7149,
   7149); (7151, 7153); (7212, 7219); (7222, 7223); (7288, 7293); (7376,
   7378); (7380, 7392); (7394, 7400); (7405, 7405); (7412, 7412); (7416,
   7417); (7468, 7530); (7544, 7544); (7579, 7679); (8125, 8125); (8127,
   8129); (8141, 8143); (8157, 8159); (8173, 8175); (8189, 8190); (8203,
   8207); (8216, 8217); (8228, 8228); (8231, 8231); (8234, 8238); (8288,
   8292); (8294, 8303); (8305, 8305); (8319, 8319); (8336, 8348); (8400,
   8432); (11388, 11389); (11503, 11505); (11631, 11631); (11647, 11647);
   (11744, 11775); (11823, 11823); (12293, 12293); (12330, 12333); (12337,
   12341); (12347, 12347); (12441, 12446); (12540, 12542); (40981, 40981);
   (42232, 42237); (42508, 42508); (42607, 42610); (42612, 42621); (42623,
   42623); (42652, 42655); (42736, 42737); (42752, 42785); (42864, 42864);
   (42888, 42890); (42994, 42996); (43000, 43001); (43010, 43010); (43014,
   43014); (43019, 43019); (43045, 43046); (43052, 43052); (43204, 43205);
   (43232, 43249); (43263, 43263); (43302, 43309); (43335, 43345); (43392,
   43394); (43443, 43443); (43446, 43449); (43452, 43453); (43471, 43471);
   (43493, 43494); (43561, 43566); (43569, 43570); (43573, 43574); (43587,
   43587); (43596, 43596); (43632, 43632); (43644, 43644); (43696, 43696);
   (43698, 43700); (43703, 43704); (43710, 43711); (43713, 43713); (43741,
   43741); (43756, 43757); (43763, 43764); (43766, 43766); (43867, 43871);
   (43881, 43883); (44005, 44005); (44008, 44008); (44013, 44013); (64286,
   64286); (64434, 64450); (65024, 65039); (65043, 65043); (65056, 65071);
   (65106, 65106); (65109, 65109); (65279, 65279); (65287, 65287); (65294,
   65294); (65306, 65306); (65342, 65342); (65344, 65344); (65392, 65392);
   (65438, 65439); (65507, 65507); (65529, 65531); (66045, 66045); (66272,
   66272); (66422, 66426); (67456, 67461); (67463, 67504); (67506, 67514);
   (68097, 68099); (68101, 68102); (68108, 68111); (68152, 68154); (68159,
   68159); (68325, 68326); (68900, 68903); (69291, 69292); (69446, 69456);
   (69506, 69509); (69633, 69633); (69688, 69702); (69744, 69744); (69747,
   69748); (69759, 69761); (69811, 69814); (69817, 69818); (69821, 69821);
   (69826, 69826); (69837, 69837); (69888, 69890); (69927, 69931); (69933,
   69940); (70003, 70003); (70016, 70017); (70070, 70078); (70089, 70092);
   (70095, 70095); (70191, 70193); (70196, 70196); (70198, 70199); (70206,
   70206); (70367, 70367); (70371, 70378); (70400, 70401); (70459, 70460);
   (70464, 70464); (70502, 70508); (70512, 70516); (70712, 70719); (70722,
   70724); (70726, 70726); (70750, 70750); (70835, 70840); (70842, 70842);
   (70847, 70848); (70850, 70851); (71090, 71093); (71100, 71101); (71103,
   71104); (71132, 71133); (71219, 71226); (71229, 71229); (71231, 71232);
   (71339, 71339); (71341, 71341); (71344, 71349); (71351, 71351); (71453,
   71455); (71458, 71461); (71463, 71467); (71727, 71735); (71737, 71738);
   (71995, 71996); (71998, 71998); (72003, 72003); (72148, 72151); (72154,
   72155); (72160, 72160); (72193, 72202); (72243, 72248); (72251, 72254);
   (72263, 72263); (72273, 72278); (72281, 72283); (72330, 72342); (72344,
   72345); (72752, 72758); (72760, 72765); (72767, 72767); (72850, 72871);
   (72874, 72880); (72882, 72883); (72885, 72886); (73009, 73014); (73018,
   73018); (73020, 73021); (73023, 73029); (73031, 73031); (73104, 73105);
   (73109, 73109); (73111, 73111); (73459, 73460); (78896, 78904); (92912,
   92916); (92976, 92982); (92992, 92995); (94031, 94031); (94095, 94111);
   (94176, 94177); (94179, 94180); (110576, 110579); (110581, 110587);
   (110589, 110590); (113821, 113822); (113824, 113827); (118528, 118573);
   (118576, 118598); (119143, 119145); (119155, 119170); (119173, 119179);
   (119210, 119213); (119362, 119364); (121344, 121398); (121403, 121452);
   (121461, 121461); (121476, 121476); (121499, 121503); (121505, 121519);
   (122880, 122886); (122888, 122904); (122907, 122913); (122915, 122916);
   (122918, 122922); (123184, 123197); (123566, 123566); (123628, 123631);
   (125136, 125142); (125252, 125259); (127995, 127999); (917505, 917505);
   (917536, 917631); (917760, 917999)
  ].

Definition cased_ranges : list (N * N) :=
  [
   (65, 90); (97, 122); (170, 170); (181, 181); (186, 186); (192, 214); (216,
   246); (248, 442); (444, 447); (452, 659); (661, 696); (704, 705); (736,
   740); (837, 837); (880, 883); (886, 887); (890, 893); (895, 895); (902,
   902); (904, 906); (908, 908); (910, 929); (931, 1013); (1015, 1153); (1162,
   1327); (1329, 1366); (1376, 1416); (4256, 4293); (4295, 4295); (4301,
   4301); (4304, 4346); (4349, 4351); (5024, 5109); (5112, 5117); (7296,
   7304); (7312, 7354); (7357, 7359); (7424, 7615); (7680, 7957); (7960,
   7965); (7968, 8005); (8008, 8013); (8016, 8023); (8025, 8025); (8027,
   8027); (8029, 8029); (8031, 8061); (8064, 8116); (8118, 8124); (8126,
   8126); (8130, 8132); (8134, 8140); (8144, 8147); (8150, 8155); (8160,
   8172); (8178, 8180); (8182, 8188); (8305, 8305); (8319, 8319); (8336,
   8348); (8450, 8450); (8455, 8455); (8458, 8467); (8469, 8469); (8473,
   8477); (8484, 8484); (8486, 8486); (8488, 8488); (8490, 8493); (8495,
   8500); (8505, 8505); (8508, 8511); (8517, 8521); (8526, 8526); (8544,
   8575); (8579, 8580); (9398, 9449); (11264, 11492); (11499, 11502); (11506,
   11507); (11520, 11557); (11559, 11559); (11565, 11565); (42560, 42605);
   (42624, 42653); (42786, 42887); (42891, 42894); (42896, 42954); (42960,
   42961); (42963, 42963); (42965, 42969); (42997, 42998); (43000, 43002);
   (43824, 43866); (43868, 43880); (43888, 43967); (64256, 64262); (64275,
   64279); (65313, 65338); (65345, 65370); (66560, 66639); (66736, 66771);
   (66776, 66811); (66928, 66938); (66940, 66954); (66956, 66962); (66964,
   66965); (66967, 66977); (66979, 66993); (66995, 67001); (67003, 67004);
   (67456, 67456); (67459, 67461); (67463, 67504); (67506, 67514); (68736,
   68786); (68800, 68850); (71840, 71903); (93760, 93823); (119808, 119892);
   (119894, 119964); (119966, 119967); (119970, 119970); (119973, 119974);
   (119977, 119980); (119982, 119993); (119995, 119995); (119997, 120003);
   (120005, 120069); (120071, 120074); (120077, 120084); (120086, 120092);
   (120094, 120121); (120123, 120126); (120128, 120132); (120134, 120134);
   (120138, 120144); (120146, 120485); (120488, 120512); (120514, 120538);
   (120540, 120570); (120572, 120596); (120598, 120628); (120630, 120654);
   (120656, 120686); (120688, 120712); (120714, 120744); (120746, 120770);
   (120772, 120779); (122624, 122633); (122635, 122654); (125184, 125251);
   (127280, 127305); (127312, 127337); (127344, 127369)
  ].

Definition case_ignorable (c : N) : bool := within c case_ignorable_ranges.
Definition cased (c : N) : bool := within c cased_ranges.

(** Going away from a position: case-ignorable characters, then a cased
    letter. *)
Fixpoint meets_cased (l : list N) : bool :=
  match l with
  | [] => false
  | c :: l' => if case_ignorable c then meets_cased l' else cased c
  end.

(** Final_Sigma: U+03A3 becomes U+03C2 after a cased letter (and
    case-ignorable characters) and when no cased letter follows (after
    case-ignorable characters); [before] has the nearest character first. *)
Definition final_sigma (before after : list N) : bool :=
  meets_cased before && negb (meets_cased after).

Fixpoint lower (before l : list N) : list N :=
  match l with
  | [] => []
  | c :: l' =>
      (if c =? 931
       then (if final_sigma before l' then [962] else [963])
       else lowerOf c) ++ lower (c :: before) l'
  end.

(** *** The string functions, on code points *)

Fixpoint trimStart (l : list N) : list N :=
  match l with
  | c :: l' => if is_space c then trimStart l' else l
  | [] => []
  end.

Fixpoint trimEnd (l : list N) : list N :=
  match l with
  | [] => []
  | c :: l' =>
      match trimEnd l' with
      | [] => if is_space c then [] else [c]
      | t => c :: t
      end
  end.

(** [s.replace(/\s+/g, " ")]: [in_ws] tells that the run of white space the
    scan is in has already produced its blank. *)
Fixpoint collapse (in_ws : bool) (l : list N) : list N :=
  match l with
  | [] => []
  | c :: l' =>
      if is_space c
      then (if in_ws then collapse true l' else 32 :: collapse true l')
      else c :: collapse false l'
  end.

End Unicode.

Module Str.

Definition trim (s : string) : string :=
  Unicode.utf8 (Unicode.trimEnd (Unicode.trimStart (Unicode.codepoints s))).

Definition toLowerCase (s : string) : string :=
  Unicode.utf8 (Unicode.lower [] (Unicode.codepoints s)).

Definition collapse (in_ws : bool) (s : string) : string :=
  Unicode.utf8 (Unicode.collapse in_ws (Unicode.codepoints s)).

(** JavaScript truthiness of a string. *)
Definition truthy (s : string) : bool :=
  match s with EmptyString => false | _ => true end.

(** [a || b] on strings. *)
Definition or_else (a b : string) : string := if truthy a then a else b.

End Str.

(** [normalize]: [String(str || "").trim().toLowerCase().replace(/\s+/g, " ")]. *)
Definition normalize (str : string) : string :=
  Str.collapse false (Str.toLowerCase (Str.trim str)).

(** ** Numbers that may be [NaN] *)

Inductive num := Fin (n : nat) | NaN.

Module Num.

(** [x % n]. *)
Definition rem (x : num) (n : nat) : num :=
  match x, n with
  | Fin a, S _ => Fin (a mod n)
  | _, _ => NaN
  end.

(** [arr[x]]: [undefined] out of range and at [NaN]. *)
Definition index {A} (l : list A) (x : num) : option A :=
  match x with Fin i => l !! i | NaN => None end.

(** [x + 1]. *)
Definition succ (x : num) : num :=
  match x with Fin a => Fin (S a) | NaN => NaN end.

(** [i === x] for an integer [i]. *)
Definition eqb (i : nat) (x : num) : bool :=
  match x with Fin a => i =? a | NaN => false end.

(** [i < x]. *)
Definition ltb (i : nat) (x : num) : bool :=
  match x with Fin a => i <? a | NaN => false end.

(** [x >= n]. *)
Definition geb (x : num) (n : nat) : bool :=
  match x with Fin a => n <=? a | NaN => false end.

(** [Math.max(0, x - 1)]. *)
Definition pred0 (x : num) : num :=
  match x with Fin a => Fin (a - 1) | NaN => NaN end.

End Num.

(** ** The insertion-ordered [Map] of JavaScript, with string keys *)

Module JSMap.

Definition t (V : Type) := list (string * V).

Fixpoint get {V} (k : string) (m : t V) : option V :=
  match m with
  | [] => None
  | (k', v) :: m' => if String.eqb k k' then Some v else get k m'
  end.

(** [m.set(k, v)]: an existing key keeps its place. *)
Fixpoint set {V} (k : string) (v : V) (m : t V) : t V :=
  match m with
  | [] => [(k, v)]
  | (k', v') :: m' =>
      if String.eqb k k' then (k, v) :: m' else (k', v') :: set k v m'
  end.

Fixpoint delete {V} (k : string) (m : t V) : t V :=
  match m with
  | [] => []
  | (k', v') :: m' =>
      if String.eqb k k' then delete k m' else (k', v') :: delete k m'
  end.

Definition values {V} (m : t V) : list V := map snd m.
Definition keys {V} (m : t V) : list string := map fst m.

End JSMap.

(** ** Data model *)

Inductive Phase := lobby | drawing | intermission | gameover.

Definition Phase_eqb (a b : Phase) : bool :=
  match a, b with
  | lobby, lobby | drawing, drawing
  | intermission, intermission | gameover, gameover => true
  | _, _ => false
  end.

(** A player. [oid] stands for the identity of the JavaScript object: it is
    given at creation and never changes, while [id] (the socket id) is
    rewritten when the player reconnects. *)
Record Player := mkPlayer {
  oid : nat;
  id : string;
  name : string;
  score : nat;
  connected : bool;
  disconnectedAt : option Z;
}.

Record Room := mkRoom {
  rid : string;
  players : list Player;
  word : option string;
  round : nat;
  turnIndex : num;
  guessedThisRound : list string;
  phase : Phase;
  roundEndAt : option Z;
}.

Definition MAX_PLAYERS_PER_ROOM : nat := 8.
Definition ROUND_MS : Z := 60000.
Definition INTERMISSION_MS : Z := 3000.
Definition TICK_MS : Z := 1000.
Definition WINNING_SCORE : nat := 10.
Definition MAX_ROUNDS : nat := 6.

Definition prompts : list string :=
  ["Cat"; "House"; "Tree"; "Car"; "Sun"; "Dog"; "Boat"; "Phone"; "Book";
   "Computer"; "Mountain"; "Beach"; "Rocket"; "Pizza"].

(** [pickWord]: [rnd] is [Math.floor(Math.random() * prompts.length)]. *)
Definition pickWord (rnd : nat) : string :=
  nth (rnd mod length prompts) prompts "Cat".

(** Field updates of a room object. *)
Definition set_players (v : list Player) (r : Room) : Room :=
  mkRoom (rid r) v (word r) (round r) (turnIndex r) (guessedThisRound r) (phase r) (roundEndAt r).
Definition set_word (v : option string) (r : Room) : Room :=
  mkRoom (rid r) (players r) v (round r) (turnIndex r) (guessedThisRound r) (phase r) (roundEndAt r).
Definition set_round (v : nat) (r : Room) : Room :=
  mkRoom (rid r) (players r) (word r) v (turnIndex r) (guessedThisRound r) (phase r) (roundEndAt r).
Definition set_turnIndex (v : num) (r : Room) : Room :=
  mkRoom (rid r) (players r) (word r) (round r) v (guessedThisRound r) (phase r) (roundEndAt r).
Definition set_guessed (v : list string) (r : Room) : Room :=
  mkRoom (rid r) (players r) (word r) (round r) (turnIndex r) v (phase r) (roundEndAt r).
Definition set_phase (v : Phase) (r : Room) : Room :=
  mkRoom (rid r) (players r) (word r) (round r) (turnIndex r) (guessedThisRound r) v (roundEndAt r).
Definition set_roundEndAt (v : option Z) (r : Room) : Room :=
  mkRoom (rid r) (players r) (word r) (round r) (turnIndex r) (guessedThisRound r) (phase r) v.

(** Field updates of a player object. *)
Definition set_id (v : string) (p : Player) : Player :=
  mkPlayer (oid p) v (name p) (score p) (connected p) (disconnectedAt p).
Definition set_name (v : string) (p : Player) : Player :=
  mkPlayer (oid p) (id p) v (score p) (connected p) (disconnectedAt p).
Definition set_score (v : nat) (p : Player) : Player :=
  mkPlayer (oid p) (id p) (name p) v (connected p) (disconnectedAt p).
Definition set_connected (v : bool) (p : Player) : Player :=
  mkPlayer (oid p) (id p) (name p) (score p) v (disconnectedAt p).
Definition set_disconnectedAt (v : option Z) (p : Player) : Player :=
  mkPlayer (oid p) (id p) (name p) (score p) (connected p) v.

(** [Set.prototype.add] on an insertion-ordered set. *)
Definition set_add (x : string) (s : list string) : list string :=
  if existsb (String.eqb x) s then s else s ++ [x].

(** [arr.findIndex(f)], [None] standing for [-1]. *)
Fixpoint findIndex {A} (f : A -> bool) (l : list A) : option nat :=
  match l with
  | [] => None
  | x :: l' => if f x then Some 0 else option_map S (findIndex f l')
  end.

(** [arr.find(f)] followed by a write to the object found: the first element
    that satisfies [f] is updated in place. *)
Fixpoint update_first {A} (f : A -> bool) (g : A -> A) (l : list A) : list A :=
  match l with
  | [] => []
  | x :: l' => if f x then g x :: l' else x :: update_first f g l'
  end.

(** ** End-of-game evaluation *)

(** A call either returns or throws. *)
Inductive Outcome (A : Type) :=
| Returns (a : A)
| Throws (msg : string).
Arguments Returns {A} a.
Arguments Throws {A} msg.

Record GameEnd := mkGameEnd {
  ended : bool;
  winner : option Player;
  reason : option string;
}.

(** The callback of [reduce]: the later player replaces the current best only
    with a strictly higher score. *)
Definition higher (prev curr : Player) : Player :=
  if score prev <? score curr then curr else prev.

Definition tie_reason (top : Player) : string :=
  "Game ended after " +:+ pretty MAX_ROUNDS +:+ " rounds. It's a tie at "
    +:+ pretty (score top) +:+ " points!".

Definition cap_reason (top : Player) : string :=
  "Game ended after " +:+ pretty MAX_ROUNDS +:+ " rounds. "
    +:+ name top +:+ " wins with " +:+ pretty (score top) +:+ " points!".

Definition early_reason (w : Player) : string :=
  name w +:+ " reached " +:+ pretty WINNING_SCORE
    +:+ " points and wins the game early!".

(** [checkGameEnd]. [reduce] without an initial value throws a [TypeError] on
    an empty array. *)
Definition checkGameEnd (room : Room) : Outcome GameEnd :=
  if MAX_ROUNDS <=? round room then
    match players room with
    | [] => Throws "TypeError: Reduce of empty array with no initial value"
    | p0 :: ps =>
        let topPlayer := fold_left higher ps p0 in
        let tiedPlayers :=
          filter (fun p => score p = score topPlayer) (players room) in
        if 1 <? length tiedPlayers
        then Returns (mkGameEnd true (Some topPlayer) (Some (tie_reason topPlayer)))
        else Returns (mkGameEnd true (Some topPlayer) (Some (cap_reason topPlayer)))
    end
  else
    match find (fun p => WINNING_SCORE <=? score p) (players room) with
    | Some w => Returns (mkGameEnd true (Some w) (Some (early_reason w)))
    | None => Returns (mkGameEnd false None None)
    end.


(** ** What the server sends *)

(** Where an event goes: [io.to(channel)], [io.emit] (every socket),
    [socket.emit] (the socket of the handler alone) and [socket.to(channel)]
    (the channel but for the socket of the handler). A room's channel is named
    by the room id; every socket is alone in the channel named by its id. *)
Inductive Target :=
| IoTo (channel : string)
| IoAll
| SocketEmit (sid : string)
| SocketTo (sid channel : string).

Record PlayerInfo := mkInfo {
  pi_id : string;
  pi_name : string;
  pi_score : nat;
}.

(** [({ id: p.id, name: p.name, score: p.score })]. *)
Definition info (p : Player) : PlayerInfo :=
  mkInfo (id p) (name p) (score p).

Record PublicRoom := mkPublicRoom {
  pr_id : string;
  pr_count : nat;
  pr_capacity : nat;
}.

Record RoomStatePayload := mkRoomState {
  rs_roomId : string;
  rs_players : list PlayerInfo;
  rs_round : nat;
  rs_turnPlayerId : option string;
  rs_drawerId : option string;
  rs_phase : Phase;
  rs_timeLeft : option Z;
}.

Inductive Payload :=
| rooms_list (rs : list PublicRoom)
| room_state (p : RoomStatePayload)
| round_word (w : option string)
| round_clear (roomId : string)
| round_ended (roomId reason : string)
| score_update (roomId : string) (ps : list PlayerInfo)
| game_over (roomId : string) (w : option PlayerInfo) (why : option string)
    (finalScores : list PlayerInfo)
| chat_message (roomId fromName text : string) (system : bool)
| draw_stroke (roomId : string) (points : list (Z * Z))
| join_error (message : string) (roomId : option string) (capacity : option nat).

Record Emit := mkEmit { target : Target; payload : Payload }.

(** [arr.sort((a, b) => b.score - a.score)]: the sort of JavaScript is stable,
    so the result is that of the insertion sort that never moves an element
    past one of equal score. *)
Fixpoint insert_desc (x : PlayerInfo) (l : list PlayerInfo) : list PlayerInfo :=
  match l with
  | [] => [x]
  | y :: l' => if pi_score x <? pi_score y then y :: insert_desc x l' else x :: l
  end.

Definition sort_desc (l : list PlayerInfo) : list PlayerInfo :=
  foldr insert_desc [] l.

(** The payload of [room:state], as [broadcastRoomState] builds it. *)
Definition connectedPlayers (room : Room) : list Player :=
  filter (fun p => connected p = true) (players room).

Definition displayedDrawer (room : Room) : option Player :=
  let cs := connectedPlayers room in
  if 0 <? length cs then Num.index cs (Num.rem (turnIndex room) (length cs))
  else None.

Definition timeLeftMs (now : Z) (room : Room) : option Z :=
  match roundEndAt room with
  | Some t => if (t =? 0)%Z then None else Some (Z.max 0 (t - now))
  | None => None
  end.

(** [Math.ceil(ms / 1000)] for [ms >= 0]. *)
Definition ceil_seconds (ms : Z) : Z := ((ms + 999) / 1000)%Z.

Definition roomStatePayload (now : Z) (room : Room) : RoomStatePayload :=
  let drawer := displayedDrawer room in
  {| rs_roomId := rid room;
     rs_players := map info (connectedPlayers room);
     rs_round := round room;
     rs_turnPlayerId := option_map id drawer;
     rs_drawerId :=
       if negb (Phase_eqb (phase room) lobby) then option_map id drawer else None;
     rs_phase := phase room;
     rs_timeLeft := option_map ceil_seconds (timeLeftMs now room) |}.

(** The drawer that the handlers of [guess:submit], [draw:stroke],
    [round:clear], [room:close], [round:skip] and [disconnect] test the
    sender against: [room.players[room.turnIndex % room.players.length]]. *)
Definition currentDrawer (room : Room) : option Player :=
  Num.index (players room) (Num.rem (turnIndex room) (length (players room))).

(** ** The state of the server *)

(** What an interval timer runs when its deadline has passed. *)
Inductive TimerKind := RoundTimer | IntermissionTimer.

(** An interval of [startTimer]: the room object that its closure holds. *)
Record Timer := mkTimer { t_room : nat; t_kind : TimerKind }.

(** The pending callbacks of [setTimeout], with the time they are due at.
    [SendWord] holds the room object and the drawer object of [startRound]
    ([None] when [drawer] was [undefined]); of the drawer it keeps the object
    identity and the socket id that the object has now. *)
Inductive Timeout :=
| DeletePrevRoom (due : Z) (prevRoomId : string)
| DeleteAbandoned (due : Z) (roomId : string)
| SendWord (due : Z) (room : nat) (drawer : option (nat * string)).

Definition due_of (t : Timeout) : Z :=
  match t with
  | DeletePrevRoom d _ | DeleteAbandoned d _ | SendWord d _ _ => d
  end.

Record State := mkState {
  heap : list Room;
  rooms : JSMap.t nat;
  socketToRoom : JSMap.t string;
  roomTimers : JSMap.t Timer;
  timeouts : list Timeout;
  nextOid : nat;
  sent : list Emit;
}.

Definition initial : State := mkState [] [] [] [] [] 0 [].

Definition with_heap (f : list Room -> list Room) (st : State) : State :=
  mkState (f (heap st)) (rooms st) (socketToRoom st) (roomTimers st)
    (timeouts st) (nextOid st) (sent st).
Definition with_rooms (f : JSMap.t nat -> JSMap.t nat) (st : State) : State :=
  mkState (heap st) (f (rooms st)) (socketToRoom st) (roomTimers st)
    (timeouts st) (nextOid st) (sent st).
Definition with_socketToRoom (f : JSMap.t string -> JSMap.t string) (st : State) : State :=
  mkState (heap st) (rooms st) (f (socketToRoom st)) (roomTimers st)
    (timeouts st) (nextOid st) (sent st).
Definition with_roomTimers (f : JSMap.t Timer -> JSMap.t Timer) (st : State) : State :=
  mkState (heap st) (rooms st) (socketToRoom st) (f (roomTimers st))
    (timeouts st) (nextOid st) (sent st).
Definition with_timeouts (f : list Timeout -> list Timeout) (st : State) : State :=
  mkState (heap st) (rooms st) (socketToRoom st) (roomTimers st)
    (f (timeouts st)) (nextOid st) (sent st).
Definition with_nextOid (f : nat -> nat) (st : State) : State :=
  mkState (heap st) (rooms st) (socketToRoom st) (roomTimers st)
    (timeouts st) (f (nextOid st)) (sent st).
Definition with_sent (f : list Emit -> list Emit) (st : State) : State :=
  mkState (heap st) (rooms st) (socketToRoom st) (roomTimers st)
    (timeouts st) (nextOid st) (f (sent st)).

(** ** The monad of the handlers: state and exceptions *)

(** A handler runs to its end or throws; what it wrote before it threw stays
    written. *)
Inductive Res (A : Type) :=
| Ok (a : A) (st : State)
| Throw (msg : string) (st : State).
Arguments Ok {A} a st.
Arguments Throw {A} msg st.

Definition M (A : Type) : Type := State -> Res A.

Global Instance M_ret : MRet M := fun A a st => Ok a st.
Global Instance M_bind : MBind M := fun A B k m st =>
  match m st with
  | Ok a st' => k a st'
  | Throw msg st' => Throw msg st'
  end.

Definition gets {A} (f : State -> A) : M A := fun st => Ok (f st) st.
Definition modify (f : State -> State) : M unit := fun st => Ok tt (f st).
Definition throw {A} (msg : string) : M A := fun st => Throw msg st.

Definition lift {A} (o : Outcome A) : M A :=
  match o with Returns a => mret a | Throws msg => throw msg end.

Definition when (b : bool) (m : M unit) : M unit := if b then m else mret tt.

Definition emit (t : Target) (p : Payload) : M unit :=
  modify (with_sent (fun l => l ++ [mkEmit t p])).

(** Reading the room object at an address. Every address that the server
    holds is allocated ([wf_state] below), so the exception is never met. *)
Definition getRoom (a : nat) : M Room := fun st =>
  match heap st !! a with
  | Some r => Ok r st
  | None => Throw "no room object at this address" st
  end.

(** Writing fields of the room object at an address. *)
Definition modifyRoom (a : nat) (f : Room -> Room) : M unit :=
  modify (with_heap (alter f a)).

Definition setTimeout (t : Timeout) : M unit :=
  modify (with_timeouts (fun l => l ++ [t])).

(** ** Registry, broadcasts and timers *)

(** [getOrCreateRoom]: the address of the room object. *)
Definition newRoom (roomId : string) : Room :=
  mkRoom roomId [] None 1 (Fin 0) [] lobby None.

Definition getOrCreateRoom (roomId : string) : M nat :=
  found ← gets (fun st => JSMap.get roomId (rooms st));
  match found with
  | Some a => mret a
  | None =>
      a ← gets (fun st => length (heap st));
      modify (with_heap (fun h => h ++ [newRoom roomId]));;
      modify (with_rooms (JSMap.set roomId a));;
      mret a
  end.

Definition publicRoom (room : Room) : PublicRoom :=
  mkPublicRoom (rid room) (length (connectedPlayers room)) MAX_PLAYERS_PER_ROOM.

Definition getPublicRooms (st : State) : list PublicRoom :=
  omap (fun a => publicRoom <$> heap st !! a) (JSMap.values (rooms st)).

Definition broadcastRoomsList : M unit :=
  publicRooms ← gets getPublicRooms;
  emit IoAll (rooms_list publicRooms);;
  emit (IoTo "__rooms__") (rooms_list publicRooms).

Definition broadcastRoomState (now : Z) (a : nat) : M unit :=
  room ← getRoom a;
  emit (IoTo (rid room)) (room_state (roomStatePayload now room)).

Definition emitScoreUpdate (a : nat) : M unit :=
  room ← getRoom a;
  emit (IoTo (rid room)) (score_update (rid room) (map info (players room))).

(** [clearTimer]: the interval is stopped and forgotten. *)
Definition clearTimer (roomId : string) : M unit :=
  modify (with_roomTimers (JSMap.delete roomId)).

(** [startTimer]: [kind] names the [onComplete] callback that is passed. *)
Definition startTimer (now : Z) (a : nat) (durationMs : Z) (kind : TimerKind) : M unit :=
  room ← getRoom a;
  clearTimer (rid room);;
  modifyRoom a (set_roundEndAt (Some (now + durationMs)%Z));;
  modify (with_roomTimers (JSMap.set (rid room) (mkTimer a kind))).

(** ** Rounds *)

Definition startRound (now : Z) (rnd : nat) (a : nat) : M unit :=
  room ← getRoom a;
  if length (players room) <? 2 then
    modifyRoom a (fun r => set_word None (set_phase lobby r));;
    emit (IoTo (rid room)) (round_ended (rid room) "timeout");;
    broadcastRoomState now a
  else
    modifyRoom a (fun r => set_guessed [] (set_phase drawing r));;
    let drawer := currentDrawer room in
    modifyRoom a (set_word (Some (pickWord rnd)));;
    startTimer now a ROUND_MS RoundTimer;;
    emit (IoTo (rid room)) (round_clear (rid room));;
    broadcastRoomState now a;;
    broadcastRoomsList;;
    setTimeout (SendWord (now + 50)%Z a (option_map (fun d => (oid d, id d)) drawer)).

Definition endRound (now : Z) (a : nat) (why : string) : M unit :=
  modifyRoom a (set_phase intermission);;
  room ← getRoom a;
  clearTimer (rid room);;
  emit (IoTo (rid room)) (round_ended (rid room) why);;
  gameEnd ← lift (checkGameEnd room);
  if ended gameEnd then
    modifyRoom a (set_phase gameover);;
    emit (IoTo (rid room))
      (game_over (rid room) (option_map info (winner gameEnd)) (reason gameEnd)
         (sort_desc (map info (players room))));;
    broadcastRoomState now a;;
    broadcastRoomsList
  else
    broadcastRoomState now a;;
    broadcastRoomsList;;
    if 2 <=? length (players room) then
      startTimer now a INTERMISSION_MS IntermissionTimer
    else
      modifyRoom a (fun r => set_phase lobby (set_roundEndAt None (set_word None r)));;
      broadcastRoomState now a.

(** The [onComplete] callback of the intermission: rotate, then start. *)
Definition rotate (now : Z) (rnd : nat) (a : nat) : M unit :=
  modifyRoom a (fun r =>
    set_word None (set_guessed [] (set_round (round r + 1)
      (set_turnIndex (Num.rem (Num.succ (turnIndex r)) (length (players r))) r))));;
  startRound now rnd a.

Definition onComplete (now : Z) (rnd : nat) (t : Timer) : M unit :=
  match t_kind t with
  | RoundTimer => endRound now (t_room t) "timeout"
  | IntermissionTimer => rotate now rnd (t_room t)
  end.

(** One run of the callback of the interval registered under [roomId]. *)
Definition timerTick (roomId : string) (now : Z) (rnd : nat) : M unit :=
  registered ← gets (fun st => JSMap.get roomId (roomTimers st));
  match registered with
  | None => mret tt
  | Some t =>
      room ← getRoom (t_room t);
      let remaining := (match roundEndAt room with Some e => e | None => 0 end - now)%Z in
      if (remaining <=? 0)%Z then
        clearTimer (rid room);;
        modifyRoom (t_room t) (set_roundEndAt None);;
        broadcastRoomState now (t_room t);;
        onComplete now rnd t
      else broadcastRoomState now (t_room t)
  end.

(** ** The handlers of the socket events

    [sid] is [socket.id]; the other arguments are the fields of the payload. *)

Definition has_id (sid : string) (p : Player) : bool := String.eqb (id p) sid.

Definition is_gone (p : Player) : bool := negb (connected p).

(** The test of a reconnection: same name, disconnected less than 30 s ago. *)
Definition reclaimable (now : Z) (cleanName : string) (p : Player) : bool :=
  String.eqb (name p) cleanName && is_gone p &&
  match disconnectedAt p with
  | Some t => negb (t =? 0)%Z && (now - t <? 30000)%Z
  | None => false
  end.

Definition reclaim (sid : string) (p : Player) : Player :=
  set_disconnectedAt None (set_connected true (set_id sid p)).

(** The closure of a pending [round:word] sees the new id of its drawer. *)
Definition retarget (o : nat) (sid : string) (t : Timeout) : Timeout :=
  match t with
  | SendWord d a (Some (o', _)) => if o' =? o then SendWord d a (Some (o, sid)) else t
  | _ => t
  end.

(** "Leave previous room if any" of [player:join]. *)
Definition leavePrevious (sid cleanRoomId : string) (now : Z) : M unit :=
  prevRoomId ← gets (fun st => JSMap.get sid (socketToRoom st));
  match prevRoomId with
  | None => mret tt
  | Some prev =>
      if Str.truthy prev && negb (String.eqb prev cleanRoomId) then
        prevRoom ← gets (fun st => JSMap.get prev (rooms st));
        match prevRoom with
        | None => mret tt
        | Some pa =>
            modifyRoom pa (fun r =>
              set_players (filter (fun p => has_id sid p = false) (players r)) r);;
            room ← getRoom pa;
            if length (players room) =? 0 then
              setTimeout (DeletePrevRoom (now + 2000)%Z prev)
            else
              when (Num.geb (turnIndex room) (length (players room)))
                (modifyRoom pa (set_turnIndex (Fin 0)));;
              broadcastRoomState now pa
        end
      else mret tt
  end.

(** The end of [player:join], from [socketToRoom.set] on. *)
Definition arrive (sid cleanRoomId cleanName : string) (now : Z) (rnd : nat)
    (a : nat) : M unit :=
  modify (with_socketToRoom (JSMap.set sid cleanRoomId));;
  emit (IoTo cleanRoomId)
    (chat_message cleanRoomId "System" (cleanName +:+ " joined the room") true);;
  room ← getRoom a;
  (if (2 <=? length (players room)) && Phase_eqb (phase room) lobby
   then startRound now rnd a
   else broadcastRoomState now a);;
  broadcastRoomsList.

(** The middle of [player:join], once the room is there: a reconnection
    reclaims the entry of the player, otherwise the player is renamed or
    added, unless the room is full. *)
Definition settle (sid cleanRoomId cleanName : string) (now : Z) (rnd : nat)
    (a : nat) : M unit :=
  room ← getRoom a;
  match find (reclaimable now cleanName) (players room) with
  | Some disconnectedPlayer =>
      modifyRoom a (fun r =>
        set_players (update_first (reclaimable now cleanName) (reclaim sid) (players r)) r);;
      modify (with_timeouts (map (retarget (oid disconnectedPlayer) sid)));;
      arrive sid cleanRoomId cleanName now rnd a
  | None =>
      let existing := find (has_id sid) (players room) in
      let activePlayerCount := length (connectedPlayers room) in
      if negb (bool_decide (is_Some existing)) && (MAX_PLAYERS_PER_ROOM <=? activePlayerCount)
      then
        emit (SocketEmit sid)
          (join_error "Room is full" (Some cleanRoomId) (Some MAX_PLAYERS_PER_ROOM));;
        publicRooms ← gets getPublicRooms;
        emit (SocketEmit sid) (rooms_list publicRooms)
      else
        match existing with
        | Some _ =>
            modifyRoom a (fun r =>
              set_players
                (update_first (has_id sid)
                   (fun p => set_disconnectedAt None (set_connected true (set_name cleanName p)))
                   (players r)) r)
        | None =>
            o ← gets nextOid;
            modify (with_nextOid S);;
            modifyRoom a (fun r =>
              set_players
                (filter (fun p => (String.eqb (name p) cleanName && is_gone p) = false)
                   (players r)
                 ++ [mkPlayer o sid cleanName 0 true None]) r)
        end;;
        arrive sid cleanRoomId cleanName now rnd a
  end.

Definition enter (sid cleanRoomId cleanName : string) (now : Z) (rnd : nat) : M unit :=
  a ← getOrCreateRoom cleanRoomId;
  settle sid cleanRoomId cleanName now rnd a.

(** [String(roomId || "lobby-1").trim() || "lobby-1"]. *)
Definition cleanRoomIdOf (roomId : string) : string :=
  Str.or_else (Str.trim (Str.or_else roomId "lobby-1")) "lobby-1".

Definition player_join (sid roomId name' : string) (now : Z) (rnd : nat) : M unit :=
  let cleanName := Str.trim name' in
  if negb (Str.truthy cleanName) then
    emit (SocketEmit sid) (join_error "Name is required to join a room" None None)
  else
    let cleanRoomId := cleanRoomIdOf roomId in
    leavePrevious sid cleanRoomId now;;
    enter sid cleanRoomId cleanName now rnd.

Definition player_leave (sid roomId : string) (now : Z) : M unit :=
  let cleanRoomId := Str.trim roomId in
  mappedRoomId ← gets (fun st => JSMap.get sid (socketToRoom st));
  let actualRoomId := Str.or_else cleanRoomId (default "" mappedRoomId) in
  if negb (Str.truthy actualRoomId) then mret tt
  else
    found ← gets (fun st => JSMap.get actualRoomId (rooms st));
    match found with
    | None => mret tt
    | Some a =>
        modify (with_socketToRoom (JSMap.delete sid));;
        room ← getRoom a;
        let index := findIndex (has_id sid) (players room) in
        let leavingWasDrawer :=
          match index with
          | Some i =>
              Num.eqb i (Num.rem (turnIndex room)
                           (if length (players room) =? 0 then 1 else length (players room)))
          | None => false
          end in
        let leavingName :=
          match find (has_id sid) (players room) with
          | Some p => name p
          | None => "Player"
          end in
        match index with
        | Some i =>
            modifyRoom a (fun r => set_players (delete i (players r)) r);;
            when (Num.ltb i (turnIndex room))
              (modifyRoom a (set_turnIndex (Num.pred0 (turnIndex room))))
        | None => mret tt
        end;;
        emit (IoTo actualRoomId)
          (chat_message actualRoomId "System" (leavingName +:+ " left the room") true);;
        room ← getRoom a;
        if length (players room) =? 0 then
          modify (with_rooms (JSMap.delete actualRoomId));;
          broadcastRoomsList
        else if length (players room) <? 2 then
          modifyRoom a (fun r => set_word None (set_phase lobby r));;
          broadcastRoomState now a;;
          broadcastRoomsList
        else if leavingWasDrawer && Phase_eqb (phase room) drawing then
          endRound now a "timeout"
        else
          broadcastRoomState now a;;
          broadcastRoomsList
    end.

Definition word_truthy (w : option string) : bool :=
  match w with Some s => Str.truthy s | None => false end.

Definition chat (sid roomId message : string) : M unit :=
  let cleanRoomId := Str.trim roomId in
  found ← gets (fun st => JSMap.get cleanRoomId (rooms st));
  match found with
  | None => mret tt
  | Some a =>
      room ← getRoom a;
      match find (has_id sid) (players room) with
      | None => mret tt
      | Some player =>
          let text := Str.trim message in
          if negb (Str.truthy text) then mret tt
          else if word_truthy (word room)
                  && String.eqb (normalize text) (normalize (default "" (word room)))
          then mret tt
          else emit (IoTo cleanRoomId) (chat_message cleanRoomId (name player) text false)
      end
  end.

Definition add_score (n : nat) (p : Player) : Player := set_score (score p + n) p.

Definition guess_submit (sid roomId guess : string) (now : Z) : M unit :=
  let cleanRoomId := Str.trim roomId in
  found ← gets (fun st => JSMap.get cleanRoomId (rooms st));
  match found with
  | None => mret tt
  | Some a =>
      room ← getRoom a;
      if negb (Phase_eqb (phase room) drawing) then mret tt
      else
        match find (has_id sid) (players room) with
        | None => mret tt
        | Some player =>
            match currentDrawer room with
            | None => mret tt
            | Some drawer =>
                if String.eqb (id drawer) sid then mret tt
                else
                  let guessNorm := normalize guess in
                  let wordNorm := normalize (default "" (word room)) in
                  if negb (Str.truthy guessNorm) then mret tt
                  else if 0 <? length (guessedThisRound room) then mret tt
                  else if String.eqb guessNorm wordNorm then
                    modifyRoom a (fun r =>
                      set_players (update_first (has_id sid) (add_score 2) (players r)) r);;
                    modifyRoom a (fun r =>
                      set_players
                        (update_first (has_id (id drawer)) (add_score 1) (players r)) r);;
                    modifyRoom a (fun r => set_guessed (set_add sid (guessedThisRound r)) r);;
                    emitScoreUpdate a;;
                    emit (IoTo cleanRoomId)
                      (chat_message cleanRoomId "System" (name player +:+ " guessed it!") true);;
                    endRound now a "guessed"
                  else mret tt
            end
        end
  end.

(** The test [!drawer || drawer.id !== socket.id] of the drawer-only events. *)
Definition is_drawer (sid : string) (room : Room) : bool :=
  match currentDrawer room with
  | Some drawer => String.eqb (id drawer) sid
  | None => false
  end.

Definition draw (sid roomId : string) (points : list (Z * Z)) : M unit :=
  let cleanRoomId := Str.trim roomId in
  found ← gets (fun st => JSMap.get cleanRoomId (rooms st));
  match found with
  | None => mret tt
  | Some a =>
      room ← getRoom a;
      if negb (is_drawer sid room) then mret tt
      else if length points =? 0 then mret tt
      else emit (SocketTo sid cleanRoomId) (draw_stroke cleanRoomId points)
  end.

Definition round_clear_request (sid roomId : string) : M unit :=
  let cleanRoomId := Str.trim roomId in
  found ← gets (fun st => JSMap.get cleanRoomId (rooms st));
  match found with
  | None => mret tt
  | Some a =>
      room ← getRoom a;
      if negb (is_drawer sid room) then mret tt
      else emit (IoTo cleanRoomId) (round_clear cleanRoomId)
  end.

Definition round_start (roomId : string) (now : Z) (rnd : nat) : M unit :=
  found ← gets (fun st => JSMap.get roomId (rooms st));
  match found with
  | None => mret tt
  | Some a =>
      room ← getRoom a;
      when ((2 <=? length (players room)) && negb (Phase_eqb (phase room) drawing))
        (startRound now rnd a)
  end.

Definition room_close (sid roomId : string) : M unit :=
  let cleanRoomId := Str.trim roomId in
  found ← gets (fun st => JSMap.get cleanRoomId (rooms st));
  match found with
  | None => mret tt
  | Some a =>
      room ← getRoom a;
      if negb (is_drawer sid room) then mret tt
      else
        emit (IoTo cleanRoomId)
          (chat_message cleanRoomId "System" "Room was closed by the drawer." true);;
        modify (with_rooms (JSMap.delete cleanRoomId));;
        broadcastRoomsList
  end.

Definition round_skip (sid roomId : string) (now : Z) : M unit :=
  found ← gets (fun st => JSMap.get roomId (rooms st));
  match found with
  | None => mret tt
  | Some a =>
      room ← getRoom a;
      if negb (is_drawer sid room) then mret tt
      else endRound now a "skipped"
  end.

Definition game_restart (roomId : string) (now : Z) (rnd : nat) : M unit :=
  found ← gets (fun st => JSMap.get roomId (rooms st));
  match found with
  | None => mret tt
  | Some a =>
      room ← getRoom a;
      if negb (Phase_eqb (phase room) gameover) then mret tt
      else
        modifyRoom a (fun r =>
          set_phase (if 2 <=? length (players r) then drawing else lobby)
            (set_guessed [] (set_word None (set_turnIndex (Fin 0) (set_round 1
              (set_players (map (set_score 0) (players r)) r))))));;
        (if 2 <=? length (players room) then startRound now rnd a
         else broadcastRoomState now a);;
        emit (IoTo (rid room))
          (chat_message (rid room) "System" "Game restarted! Starting fresh..." true)
  end.

Definition disconnect (sid : string) (now : Z) : M unit :=
  mapped ← gets (fun st => JSMap.get sid (socketToRoom st));
  match mapped with
  | None => mret tt
  | Some roomId =>
      if negb (Str.truthy roomId) then mret tt
      else
        found ← gets (fun st => JSMap.get roomId (rooms st));
        match found with
        | None => modify (with_socketToRoom (JSMap.delete sid))
        | Some a =>
            modify (with_socketToRoom (JSMap.delete sid));;
            room ← getRoom a;
            match find (has_id sid) (players room) with
            | None => mret tt
            | Some leavingPlayer =>
                let leavingWasDrawer := is_drawer sid room in
                let leavingName := name leavingPlayer in
                modifyRoom a (fun r =>
                  set_players
                    (update_first (has_id sid)
                       (fun p => set_disconnectedAt (Some now) (set_connected false p))
                       (players r)) r);;
                room ← getRoom a;
                if length (connectedPlayers room) =? 0 then
                  setTimeout (DeleteAbandoned (now + 35000)%Z roomId)
                else
                  emit (IoTo (rid room))
                    (chat_message (rid room) "System"
                       (leavingName +:+ " disconnected (can rejoin within 30 seconds)") true);;
                  if length (connectedPlayers room) <? 2 then
                    modifyRoom a (fun r => set_word None (set_phase lobby r));;
                    broadcastRoomState now a;;
                    broadcastRoomsList
                  else if leavingWasDrawer && Phase_eqb (phase room) drawing then
                    endRound now a "timeout"
                  else
                    broadcastRoomState now a;;
                    broadcastRoomsList
            end
        end
  end.

(** [rooms:request], and what [rooms:subscribe] and a new connection send. *)
Definition rooms_request (sid : string) : M unit :=
  publicRooms ← gets getPublicRooms;
  emit (SocketEmit sid) (rooms_list publicRooms).

(** ** The callbacks of [setTimeout] *)

Definition fire (t : Timeout) : M unit :=
  match t with
  | DeletePrevRoom _ prevRoomId =>
      found ← gets (fun st => JSMap.get prevRoomId (rooms st));
      match found with
      | None => mret tt
      | Some a =>
          currentPrevRoom ← getRoom a;
          when (length (players currentPrevRoom) =? 0)
            (modify (with_rooms (JSMap.delete prevRoomId));; broadcastRoomsList)
      end
  | DeleteAbandoned _ roomId =>
      found ← gets (fun st => JSMap.get roomId (rooms st));
      match found with
      | None => mret tt
      | Some a =>
          currentRoom ← getRoom a;
          when (length (connectedPlayers currentRoom) =? 0)
            (modify (with_rooms (JSMap.delete roomId));; broadcastRoomsList)
      end
  | SendWord _ a drawer =>
      room ← getRoom a;
      match drawer with
      | None => throw "TypeError: Cannot read properties of undefined (reading 'id')"
      | Some (_, drawerId) => emit (IoTo drawerId) (round_word (word room))
      end
  end.

(** The [k]-th pending timeout runs, once it is due. *)
Definition timeoutFire (k : nat) (now : Z) : M unit :=
  pending ← gets (fun st => timeouts st !! k);
  match pending with
  | None => mret tt
  | Some t =>
      if (due_of t <=? now)%Z then
        modify (with_timeouts (delete k));;
        fire t
      else mret tt
  end.

(** ** The event loop *)

(** The events whose handler takes a payload object. *)
Inductive EventName :=
| EvPlayerJoin | EvPlayerLeave | EvChatMessage | EvGuessSubmit | EvDrawStroke
| EvRoundClear | EvRoundStart | EvRoomClose | EvRoundSkip | EvGameRestart.

(** What a client can send in place of the payload object: nothing (or
    [undefined]), or [null]. *)
Inductive NoPayload := Undefined | Null.

(** The exception of a parameter [{ roomId, ... }] that is given no object. *)
Definition destructure_error (arg : NoPayload) : string :=
  match arg with
  | Undefined =>
      "TypeError: Cannot destructure property 'roomId' of 'undefined' as it is undefined."
  | Null =>
      "TypeError: Cannot destructure property 'roomId' of 'object null' as it is null."
  end.

(** An event sent without a payload object. The handlers destructure their
    parameter: they throw before they have done anything. [player:join]
    alone has a default, [{ roomId, name } = {}], which stands in for
    [undefined] and not for [null]: both fields are then [undefined], and the
    handler stops at the check of the name. *)
Definition bare (sid : string) (ev : EventName) (arg : NoPayload) : M unit :=
  match ev, arg with
  | EvPlayerJoin, Undefined => player_join sid "" "" 0 0
  | _, _ => throw (destructure_error arg)
  end.

Inductive Input :=
| PlayerJoin (sid roomId name : string) (now : Z) (rnd : nat)
| PlayerLeave (sid roomId : string) (now : Z)
| ChatMessage (sid roomId message : string)
| GuessSubmit (sid roomId guess : string) (now : Z)
| DrawStroke (sid roomId : string) (points : list (Z * Z))
| RoundClear (sid roomId : string)
| RoundStart (sid roomId : string) (now : Z) (rnd : nat)
| RoomClose (sid roomId : string)
| RoundSkip (sid roomId : string) (now : Z)
| GameRestart (sid roomId : string) (now : Z) (rnd : nat)
| Disconnect (sid : string) (now : Z)
| Connect (sid : string)
| RoomsRequest (sid : string)
| RoomsSubscribe (sid : string)
| Bare (sid : string) (ev : EventName) (arg : NoPayload)
| TimerTick (roomId : string) (now : Z) (rnd : nat)
| TimeoutFire (k : nat) (now : Z).

Definition handle (i : Input) : M unit :=
  match i with
  | PlayerJoin sid roomId name now rnd => player_join sid roomId name now rnd
  | PlayerLeave sid roomId now => player_leave sid roomId now
  | ChatMessage sid roomId message => chat sid roomId message
  | GuessSubmit sid roomId guess now => guess_submit sid roomId guess now
  | DrawStroke sid roomId points => draw sid roomId points
  | RoundClear sid roomId => round_clear_request sid roomId
  | RoundStart _ roomId now rnd => round_start roomId now rnd
  | RoomClose sid roomId => room_close sid roomId
  | RoundSkip sid roomId now => round_skip sid roomId now
  | GameRestart _ roomId now rnd => game_restart roomId now rnd
  | Disconnect sid now => disconnect sid now
  | Connect sid => rooms_request sid
  | RoomsRequest sid => rooms_request sid
  | RoomsSubscribe sid => rooms_request sid
  | Bare sid ev arg => bare sid ev arg
  | TimerTick roomId now rnd => timerTick roomId now rnd
  | TimeoutFire k now => timeoutFire k now
  end.

(** The events one after the other; an exception that no handler catches ends
    the run. *)
Fixpoint run (inputs : list Input) (st : State) : Res unit :=
  match inputs with
  | [] => Ok tt st
  | i :: inputs' =>
      match handle i st with
      | Ok _ st' => run inputs' st'
      | Throw msg st' => Throw msg st'
      end
  end.

(** ** Reasoning about the handlers *)

(** The two exceptions that the code of the server can raise. *)
Definition reduce_error : string :=
  "TypeError: Reduce of empty array with no initial value".
Definition undefined_error : string :=
  "TypeError: Cannot read properties of undefined (reading 'id')".

Definition js_error (msg : string) : Prop :=
  msg = reduce_error \/ msg = undefined_error.

(** With the one of an event without payload, the exceptions of a handler. *)
Definition handler_error (msg : string) : Prop :=
  js_error msg \/ exists arg, msg = destructure_error arg.

(** [wp E m Q st]: run from [st], [m] returns in a state that satisfies [Q],
    or throws a message that satisfies [E]. *)
Definition wp {A} (E : string -> Prop) (m : M A) (Q : A -> State -> Prop)
    (st : State) : Prop :=
  match m st with
  | Ok a st' => Q a st'
  | Throw msg _ => E msg
  end.

(** The events that a handler sent: those of [st'] after those of [st]. *)
Definition sent_since (st st' : State) : list Emit :=
  drop (length (sent st)) (sent st').

(** ** Invariants of the room objects *)

(** At most one correct guesser is recorded. *)
Definition guess_ok (r : Room) : Prop := length (guessedThisRound r) <= 1.

(** A room with a recorded guesser has left the drawing phase. *)
Definition round_ok (r : Room) : Prop :=
  guessedThisRound r <> [] -> phase r <> drawing.

(** Every address that the registry, a timer or a pending [round:word] holds
    is that of a room object, and the registry files a room under its id. *)
Definition wf_state (st : State) : Prop :=
  (forall k a, JSMap.get k (rooms st) = Some a ->
     exists r, heap st !! a = Some r /\ rid r = k) /\
  (forall k t, JSMap.get k (roomTimers st) = Some t -> t_room t < length (heap st)) /\
  (forall d a dr, SendWord d a dr ∈ timeouts st -> a < length (heap st)).

(** The invariant between two handlers is [inv None]; [inv (Some a)] is its
    form inside [guess:submit], after the guesser of the room at [a] has been
    recorded and before the round of that room is ended. *)
Definition inv (x : option nat) (st : State) : Prop :=
  wf_state st /\
  forall b r, heap st !! b = Some r ->
    guess_ok r /\ (x <> Some b -> round_ok r).


(** ** The effect of [endRound], as the properties below use it *)

(** The phase that [endRound] leaves the room in. *)
Definition endPhase (ge : GameEnd) (room : Room) : Phase :=
  if ended ge then gameover
  else if 2 <=? length (players room) then intermission else lobby.

Definition game_over_event (room : Room) (ge : GameEnd) : Emit :=
  mkEmit (IoTo (rid room))
    (game_over (rid room) (option_map info (winner ge)) (reason ge)
       (sort_desc (map info (players room)))).

(** [st'] is [st] after [endRound] has run on the room object [room] at
    address [a], whose end-of-game evaluation returned [ge]. *)
Definition endRound_post (now : Z) (a : nat) (why : string) (st : State)
    (room : Room) (ge : GameEnd) (st' : State) : Prop :=
  rooms st' = rooms st /\
  socketToRoom st' = socketToRoom st /\
  timeouts st' = timeouts st /\
  length (heap st') = length (heap st) /\
  (forall b, b <> a -> heap st' !! b = heap st !! b) /\
  (exists room', heap st' !! a = Some room' /\
     rid room' = rid room /\ players room' = players room /\
     round room' = round room /\ turnIndex room' = turnIndex room /\
     guessedThisRound room' = guessedThisRound room /\
     phase room' = endPhase ge room) /\
  (forall k, k <> rid room ->
     JSMap.get k (roomTimers st') = JSMap.get k (roomTimers st)) /\
  (exists rest,
     sent st' = sent st ++ mkEmit (IoTo (rid room)) (round_ended (rid room) why) :: rest /\
     (ended ge = true -> exists rest', rest = game_over_event room ge :: rest')).

(** ** The end of the game, as the properties below speak of it *)

(** The player that [reduce] keeps: [None] on an empty sequence. *)
Definition topPlayer (room : Room) : option Player :=
  match players room with
  | [] => None
  | p0 :: ps => Some (fold_left higher ps p0)
  end.

(** The highest score of the room. *)
Definition topScore (room : Room) : nat := max_list (map score (players room)).

(** The players at the highest score. *)
Definition tiedAtTop (room : Room) : list Player :=
  filter (fun p => score p = topScore room) (players room).

(** The first player, in turn order, at or above the win threshold. *)
Definition atThreshold (room : Room) : option Player :=
  find (fun p => WINNING_SCORE <=? score p) (players room).

(** Descending by score. *)
Definition desc (x y : PlayerInfo) : Prop := pi_score y <= pi_score x.

(** The evaluation in the order of the specification: the win threshold
    first, the round cap after it. It differs from [checkGameEnd] only in the
    order of the two tests. *)
Definition threshold_first (room : Room) : Outcome GameEnd :=
  match atThreshold room with
  | Some w => Returns (mkGameEnd true (Some w) (Some (early_reason w)))
  | None => checkGameEnd room
  end.

(** Sample players and rooms. *)
Definition ann (s : nat) : Player := mkPlayer 0 "a" "Ann" s true None.
Definition bob (s : nat) : Player := mkPlayer 1 "b" "Bob" s true None.
Definition room_of (ps : list Player) (n : nat) (ph : Phase) : Room :=
  mkRoom "r" ps (Some "Cat") n (Fin 0) [] ph None.
Definition state_of (room : Room) : State :=
  mkState [room] [("r", 0)] [] [] [] 2 [].


(** The score of the player with a given socket id: as everywhere in the
    server, the player of a socket is the first entry with its id. *)
Definition scoreOf (sid : string) (ps : list Player) : option nat :=
  score <$> find (has_id sid) ps.

(** ** Sample runs *)

(** The state after a run from the initial state. *)
Definition after (inputs : list Input) : State :=
  match run inputs initial with
  | Ok _ st => st
  | Throw _ st => st
  end.

(** Ann and Bob join room [r]: the first round starts, Ann draws "Cat". *)
Definition two_joined : list Input :=
  [PlayerJoin "a" "r" "Ann" 0 0; PlayerJoin "b" "r" "Bob" 10 0].

(** Bob then guesses the word. *)
Definition bob_guessed : list Input :=
  two_joined ++ [GuessSubmit "b" "r" "  CAT " 5000].

(** Ann, who draws, leaves within the 50 ms of the delivery of the word; Cy
    joins, a round starts with Bob as the drawer, and the first delivery
    runs. *)
Definition drawer_left_early : list Input :=
  two_joined ++
  [PlayerLeave "a" "r" 20; PlayerJoin "c" "r" "Cy" 30 1; TimeoutFire 0 60].

(** Eve joins the room named after the socket id of Ann, who draws in room
    [r], before the word is delivered. *)
Definition joins_drawer_channel : list Input :=
  two_joined ++ [PlayerJoin "x" "a" "Eve" 20 0; TimeoutFire 0 60].

(** Ann, Bob and Cy in room [r]; Bob loses his connection and the socket of
    Ann joins room [r] again, under the name of Bob; Ann skips her round, and
    the second round starts: the entry of Bob, which has the socket id of
    Ann, is the drawer. *)
Definition entry_taken_over : list Input :=
  [PlayerJoin "a" "r" "Ann" 0 0; PlayerJoin "b" "r" "Bob" 10 0;
   PlayerJoin "c" "r" "Cy" 20 0; TimeoutFire 0 60;
   Disconnect "b" 1000; PlayerJoin "a" "r" "Bob" 2000 0;
   RoundSkip "a" "r" 3000; TimerTick "r" 6000 1; TimeoutFire 0 6050].

(** The room id that [player:leave] acts on: the one of the payload, else the
    one the socket is mapped to. *)
Definition actualRoomId (sid roomId : string) (st : State) : string :=
  Str.or_else (Str.trim roomId) (default "" (JSMap.get sid (socketToRoom st))).

(** Ann and Bob play room [r] into its sixth round, every round ending by
    its timer: a round starts at [t], its word goes to the drawer at
    [t + 50], its timer runs out at [t + 60000] and the intermission at
    [t + 63000]. *)
Definition one_round (t : Z) (rnd : nat) : list Input :=
  [TimeoutFire 0 (t + 50); TimerTick "r" (t + 60000) 0; TimerTick "r" (t + 63000) rnd].

Definition into_round_six : list Input :=
  two_joined ++ one_round 10 1 ++ one_round 63010 2 ++ one_round 126010 3
    ++ one_round 189010 4 ++ one_round 252010 5 ++ [TimeoutFire 0 315060].

(** In the sixth round both players join room [s]; the word of [s] is sent,
    the deferred deletion of [r] runs, and the timer of the round of [r] then
    runs out. *)
Definition both_move_on : list Input :=
  into_round_six ++
  [PlayerJoin "a" "s" "Ann" 320000 0; PlayerJoin "b" "s" "Bob" 321000 0;
   TimeoutFire 1 321050; TimeoutFire 0 323000;
   TimerTick "r" 375010 0].

(** The same with [player:leave]. *)
Definition both_leave : list Input :=
  into_round_six ++
  [PlayerLeave "a" "r" 320000; PlayerLeave "b" "r" 321000; TimerTick "r" 375010 0].

(** Ann, Bob and Cy in room [r]; Ann, who draws, loses her connection; the
    round ends and the next one starts. *)
Definition drawer_dropped : list Input :=
  [PlayerJoin "a" "r" "Ann" 0 0; PlayerJoin "b" "r" "Bob" 10 0;
   PlayerJoin "c" "r" "Cy" 20 0; TimeoutFire 0 60;
   Disconnect "a" 30000; TimerTick "r" 33000 3].

(** Bob guesses the first word; during the intermission both players join
    room [s]; the intermission of [r] runs out on the empty room; Cy and Dee
    then join [r] before its deferred deletion, and a round starts there. *)
Definition rejoin_after_rotation : list Input :=
  two_joined ++
  [TimeoutFire 0 60; GuessSubmit "b" "r" "cat" 5000;
   PlayerJoin "a" "s" "Ann" 7000 0; PlayerJoin "b" "s" "Bob" 7500 0;
   TimeoutFire 1 7550; TimerTick "r" 8000 0;
   PlayerJoin "c" "r" "Cy" 8200 0; PlayerJoin "d" "r" "Dee" 8400 0;
   TimeoutFire 1 8450].

(** ** Who is sent the word *)

(** The state a handler leaves, whether it returned or threw. *)
Definition final {A} (r : Res A) : State :=
  match r with Ok _ st => st | Throw _ st => st end.

(** An event other than [round:word], the only one with a field for the word. *)
Definition wordless (e : Emit) : Prop := forall w, payload e <> round_word w.

(** A computation that sends wordless events only. *)
Definition silent {A} (m : M A) : Prop :=
  forall st, exists new, sent (final (m st)) = sent st ++ new /\ Forall wordless new.

(** ** A room that a handler does not act on *)



(** A write to a room object that keeps the id and the two room invariants. *)
Definition gentle (f : Room -> Room) : Prop :=
  forall r, rid (f r) = rid r /\ (guess_ok r -> guess_ok (f r)) /\
            (guess_ok r -> round_ok r -> round_ok (f r)).

(** A handler that keeps the invariant, from the state [st]. *)
Definition keeps (st : State) (m : M unit) : Prop :=
  wp js_error m (fun _ st' => inv None st') st.

(** ** The normal form of [normalize] *)

(** A code point, and not a byte astray. *)
Definition scalar (c : N) : bool := (c <? 1114112)%N.

(** A string that encodes a JavaScript string: every byte is part of an
    encoded code point. *)
Definition wellformed (s : string) : bool :=
  forallb scalar (Unicode.codepoints s).

(** No white space at either end. *)
Definition first_nonspace (l : list N) : bool :=
  match l with
  | [] => true
  | c :: _ => negb (Unicode.is_space c)
  end.

Fixpoint last_nonspace (l : list N) : bool :=
  match l with
  | [] => true
  | [c] => negb (Unicode.is_space c)
  | _ :: l' => last_nonspace l'
  end.

(** Every run of white space is a single blank; [in_ws] tells that the
    character before was one. *)
Fixpoint single_blanks (in_ws : bool) (l : list N) : bool :=
  match l with
  | [] => true
  | c :: l' =>
      if Unicode.is_space c
      then negb in_ws && (c =? 32)%N && single_blanks true l'
      else single_blanks false l'
  end.

(** A code point that is its own lower case, whatever is around it. *)
Definition is_lower (c : N) : bool :=
  negb (c =? 931)%N &&
  match Unicode.lowerOf c with
  | [d] => (d =? c)%N
  | _ => false
  end.

(** The lower case of [c] between [before] and [after]. *)
Definition lower_at (before : list N) (c : N) (after : list N) : list N :=
  if (c =? 931)%N
  then (if Unicode.final_sigma before after then [962] else [963])%N
  else Unicode.lowerOf c.

(** [normalize], on code points. *)
Definition normalized (l : list N) : list N :=
  Unicode.collapse false
    (Unicode.lower [] (Unicode.trimEnd (Unicode.trimStart l))).

Definition normal (s : string) : bool :=
  let l := Unicode.codepoints s in
  first_nonspace l && last_nonspace l && single_blanks false l && forallb is_lower l.

(** ** The drawer after a player has left *)

(** The turn index that [player:leave] writes when the entry at [i] goes. *)
Definition turnAfterLeave (i : nat) (x : num) : num :=
  if Num.ltb i x then Num.pred0 x else x.

(** ** The presence of the players, the rounds and the word of a room *)

(** A connected player carries no time of disconnection, a disconnected one
    carries the time at which the connection was lost. *)
Definition player_ok (p : Player) : Prop :=
  if connected p then disconnectedAt p = None else is_Some (disconnectedAt p).

(** What every single write to a room object keeps. *)
Definition steady (r : Room) : Prop :=
  Forall player_ok (players r) /\ 1 <= round r.

(** What holds of a room object between two handlers: the lobby has no word,
    and the word of a round that is being drawn is one of the prompts. *)
Definition staged (r : Room) : Prop :=
  (phase r = lobby -> word r = None) /\
  (phase r = drawing -> exists w, word r = Some w /\ w ∈ prompts).

(** A [Map] holds a key once. *)
Definition unique_keys {V} (m : JSMap.t V) : Prop := NoDup (JSMap.keys m).

(** [inv2 None] holds between two handlers; [inv2 (Some a)] is its form while
    a handler is between two writes to the room object at [a]. *)
Definition inv2 (x : option nat) (st : State) : Prop :=
  unique_keys (rooms st) /\ unique_keys (roomTimers st) /\
  unique_keys (socketToRoom st) /\
  forall b r, heap st !! b = Some r -> steady r /\ (x <> Some b -> staged r).

(** A write to a room object that keeps both. *)
Definition keeps2 (f : Room -> Room) : Prop :=
  forall r, (steady r -> steady (f r)) /\ (steady r -> staged r -> staged (f r)).

(** Whatever is thrown. *)
Definition any_error (msg : string) : Prop := True.

(** ** The effect of [startRound] and of the timers *)

(** The room object that [startRound] leaves, when the round starts. *)
Definition roundOf (now : Z) (rnd : nat) (room : Room) : Room :=
  set_roundEndAt (Some (now + ROUND_MS)%Z)
    (set_word (Some (pickWord rnd)) (set_guessed [] (set_phase drawing room))).

(** The pending delivery of the word of a round. *)
Definition wordDelivery (now : Z) (a : nat) (room : Room) : Timeout :=
  SendWord (now + 50)%Z a (option_map (fun d => (oid d, id d)) (currentDrawer room)).

(** [st'] is [st] but for the room object at [a], which is [room']. *)
Definition room_written (a : nat) (room' : Room) (st st' : State) : Prop :=
  heap st' !! a = Some room' /\
  length (heap st') = length (heap st) /\
  (forall b, b <> a -> heap st' !! b = heap st !! b) /\
  rooms st' = rooms st /\
  socketToRoom st' = socketToRoom st /\
  nextOid st' = nextOid st.

(** [st'] is [st] after [startRound] has started a round of the room object
    [room] at [a]. *)
Definition startRound_post (now : Z) (rnd : nat) (a : nat) (st : State)
    (room : Room) (st' : State) : Prop :=
  room_written a (roundOf now rnd room) st st' /\
  roomTimers st' =
    JSMap.set (rid room) (mkTimer a RoundTimer) (JSMap.delete (rid room) (roomTimers st)) /\
  timeouts st' = timeouts st ++ [wordDelivery now a room] /\
  exists l,
    sent st' = sent st ++
      [mkEmit (IoTo (rid room)) (round_clear (rid room));
       mkEmit (IoTo (rid room)) (room_state (roomStatePayload now (roundOf now rnd room)));
       mkEmit IoAll (rooms_list l);
       mkEmit (IoTo "__rooms__") (rooms_list l)].

(** The room object that [endRound] leaves. *)
Definition endOf (now : Z) (ge : GameEnd) (room : Room) : Room :=
  if ended ge then set_phase gameover room
  else if 2 <=? length (players room)
       then set_roundEndAt (Some (now + INTERMISSION_MS)%Z) (set_phase intermission room)
       else set_phase lobby (set_roundEndAt None (set_word None room)).

(** The timers that [endRound] leaves. *)
Definition timersAfterEnd (a : nat) (ge : GameEnd) (room : Room)
    (ts : JSMap.t Timer) : JSMap.t Timer :=
  if ended ge then JSMap.delete (rid room) ts
  else if 2 <=? length (players room)
       then JSMap.set (rid room) (mkTimer a IntermissionTimer)
              (JSMap.delete (rid room) (JSMap.delete (rid room) ts))
       else JSMap.delete (rid room) ts.

(** ** The effect of [player:join] *)

(** The room object after a player has arrived: the round starts when the
    room is in the lobby with two players or more. *)
Definition starts_on_arrival (room : Room) : bool :=
  (2 <=? length (players room)) && Phase_eqb (phase room) lobby.

Definition arrived (now : Z) (rnd : nat) (room : Room) : Room :=
  if starts_on_arrival room then roundOf now rnd room else room.

(** [st'] is [st] after the socket [sid] has arrived in the room object
    [room] at [a], registered as [c]. *)
Definition arrive_post (sid c cleanName : string) (now : Z) (rnd : nat) (a : nat)
    (st : State) (room : Room) (st' : State) : Prop :=
  heap st' !! a = Some (arrived now rnd room) /\
  length (heap st') = length (heap st) /\
  (forall b, b <> a -> heap st' !! b = heap st !! b) /\
  rooms st' = rooms st /\
  nextOid st' = nextOid st /\
  socketToRoom st' = JSMap.set sid c (socketToRoom st) /\
  roomTimers st' =
    (if starts_on_arrival room
     then JSMap.set (rid room) (mkTimer a RoundTimer) (JSMap.delete (rid room) (roomTimers st))
     else roomTimers st) /\
  timeouts st' =
    (if starts_on_arrival room then timeouts st ++ [wordDelivery now a room]
     else timeouts st) /\
  exists rest,
    sent st' = sent st ++
      mkEmit (IoTo c) (chat_message c "System" (cleanName +:+ " joined the room") true)
      :: rest.

(** The socket is mapped to no room other than [c]. *)
Definition not_elsewhere (sid c : string) (st : State) : Prop :=
  match JSMap.get sid (socketToRoom st) with
  | None => True
  | Some prev => prev = c \/ prev = ""
  end.

(** The entry of a player who joins for the first time. *)
Definition newcomer (st : State) (sid cleanName : string) : Player :=
  mkPlayer (nextOid st) sid cleanName 0 true None.

(** The players after a newcomer has been added: the disconnected entries of
    the same name go. *)
Definition with_newcomer (st : State) (sid cleanName : string) (ps : list Player)
    : list Player :=
  filter (fun p => (String.eqb (name p) cleanName && is_gone p) = false) ps
    ++ [newcomer st sid cleanName].

(** Eight players in room [r]. *)
Definition full_house : list Input :=
  [PlayerJoin "p1" "r" "P1" 0 0; PlayerJoin "p2" "r" "P2" 1 0;
   PlayerJoin "p3" "r" "P3" 2 0; PlayerJoin "p4" "r" "P4" 3 0;
   PlayerJoin "p5" "r" "P5" 4 0; PlayerJoin "p6" "r" "P6" 5 0;
   PlayerJoin "p7" "r" "P7" 6 0; PlayerJoin "p8" "r" "P8" 7 0].

(** ** The effect of [disconnect], [player:leave] and [game:restart] *)

(** The entry of a player whose connection is lost at [now]. *)
Definition mark_gone (now : Z) (p : Player) : Player :=
  set_disconnectedAt (Some now) (set_connected false p).

(** The room object once the entry of [sid] is marked. *)
Definition without_connection (sid : string) (now : Z) (room : Room) : Room :=
  set_players (update_first (has_id sid) (mark_gone now) (players room)) room.

(** The room object once the entry at [i] is removed. *)
Definition without_player (i : nat) (room : Room) : Room :=
  set_turnIndex (turnAfterLeave i (turnIndex room))
    (set_players (delete i (players room)) room).

(** The test [leavingWasDrawer] of [player:leave]. *)
Definition leftAsDrawer (i : nat) (room : Room) : bool :=
  Num.eqb i (Num.rem (turnIndex room)
               (if length (players room) =? 0 then 1 else length (players room))).

(** The room object that [game:restart] resets. *)
Definition restarted (room : Room) : Room :=
  set_phase (if 2 <=? length (players room) then drawing else lobby)
    (set_guessed [] (set_word None (set_turnIndex (Fin 0) (set_round 1
       (set_players (map (set_score 0) (players room)) room))))).

(** ** Which event can throw what *)



(** ** A handler that only sends *)

(** [st'] is [st] with the events [new] sent after those of [st]. *)
Definition only_sent (new : list Emit) (st st' : State) : Prop :=
  heap st' = heap st /\ rooms st' = rooms st /\
  socketToRoom st' = socketToRoom st /\ roomTimers st' = roomTimers st /\
  timeouts st' = timeouts st /\ nextOid st' = nextOid st /\
  sent st' = sent st ++ new.

(** ** A round that runs is counted down *)

(** A phase that needs no timer. *)
Definition quiet_phase (r : Room) : Prop :=
  phase r <> drawing /\ phase r <> intermission.

(** The phase during which the interval of a kind runs. *)
Definition kind_phase (kind : TimerKind) : Phase :=
  match kind with RoundTimer => drawing | IntermissionTimer => intermission end.

(** The room object [r] at [a], registered as [k], has the timer that its
    phase calls for. *)
Definition timed (st : State) (k : string) (a : nat) (r : Room) : Prop :=
  forall kind, phase r = kind_phase kind ->
    JSMap.get k (roomTimers st) = Some (mkTimer a kind).

(** [inv3 None] holds between two handlers; [inv3 (Some b)] is its form while
    a handler works on the phase and the timer of the room object at [b]:
    the registry and the timers file a room object under its id, every
    registered room but the one at [b] has its timer, and a room that is
    registered under the id of the one at [b] without being it needs none. *)
Definition inv3 (x : option nat) (st : State) : Prop :=
  (forall k a, JSMap.get k (rooms st) = Some a ->
     exists r, heap st !! a = Some r /\ rid r = k) /\
  (forall k t, JSMap.get k (roomTimers st) = Some t ->
     exists r, heap st !! t_room t = Some r /\ rid r = k) /\
  (forall k a r, JSMap.get k (rooms st) = Some a -> heap st !! a = Some r ->
     x <> Some a -> timed st k a r) /\
  (forall b rb a r, x = Some b -> heap st !! b = Some rb ->
     JSMap.get (rid rb) (rooms st) = Some a -> a <> b -> heap st !! a = Some r ->
     quiet_phase r).

(** A write to a room object that keeps the id, and keeps the phase or makes
    it one that needs no timer. *)
Definition keeps3 (f : Room -> Room) : Prop :=
  forall r, rid (f r) = rid r /\ (phase (f r) = phase r \/ quiet_phase (f r)).

(** * Properties *)

(** ** The monad *)

Section WP.
Context {A : Type} (E : string -> Prop).

Lemma wp_bind {B} (m : M A) (k : A -> M B) Q st :
  wp E m (fun a st' => wp E (k a) Q st') st -> wp E (m ≫= k) Q st.
Proof.
  unfold wp. change ((m ≫= k) st) with
    (match m st with Ok a st' => k a st' | Throw msg st' => Throw msg st' end).
  by destruct (m st).
Qed.

Lemma wp_ret (a : A) (Q : A -> State -> Prop) st : Q a st -> wp E (mret a) Q st.
Proof. auto. Qed.

Lemma wp_gets (f : State -> A) (Q : A -> State -> Prop) st :
  Q (f st) st -> wp E (gets f) Q st.
Proof. auto. Qed.

Lemma wp_throw msg (Q : A -> State -> Prop) st : E msg -> wp E (throw msg) Q st.
Proof. auto. Qed.

Lemma wp_mono (m : M A) (Q Q' : A -> State -> Prop) st :
  wp E m Q st -> (forall a st', Q a st' -> Q' a st') -> wp E m Q' st.
Proof. unfold wp. destruct (m st); auto. Qed.


End WP.

Lemma wp_modify E (f : State -> State) (Q : unit -> State -> Prop) st :
  Q tt (f st) -> wp E (modify f) Q st.
Proof. auto. Qed.

Lemma wp_emit E t p (Q : unit -> State -> Prop) st :
  Q tt (with_sent (fun l => l ++ [mkEmit t p]) st) -> wp E (emit t p) Q st.
Proof. auto. Qed.

Lemma wp_modifyRoom E a f (Q : unit -> State -> Prop) st :
  Q tt (with_heap (alter f a) st) -> wp E (modifyRoom a f) Q st.
Proof. auto. Qed.

Lemma wp_setTimeout E t (Q : unit -> State -> Prop) st :
  Q tt (with_timeouts (fun l => l ++ [t]) st) -> wp E (setTimeout t) Q st.
Proof. auto. Qed.

Lemma wp_getRoom E a (Q : Room -> State -> Prop) st :
  a < length (heap st) ->
  (forall r, heap st !! a = Some r -> Q r st) ->
  wp E (getRoom a) Q st.
Proof.
  intros Ha HQ. unfold wp, getRoom.
  destruct (heap st !! a) eqn:Hr; [auto|].
  apply lookup_ge_None in Hr. lia.
Qed.

Lemma wp_lift E {A} (o : Outcome A) (Q : A -> State -> Prop) st :
  match o with Returns a => Q a st | Throws msg => E msg end ->
  wp E (lift o) Q st.
Proof. destruct o; auto. Qed.

(** ** The maps *)

Module JSMapFacts.
Import JSMap.

Lemma get_delete {V} k k' (m : t V) :
  get k (delete k' m) = if String.eqb k k' then None else get k m.
Proof.
  induction m as [|[j v] m IH]; simpl.
  - by destruct (String.eqb k k').
  - destruct (String.eqb k' j) eqn:Hj.
    + apply String.eqb_eq in Hj as ->. rewrite IH.
      by destruct (String.eqb k j).
    + simpl. rewrite IH. destruct (String.eqb k j) eqn:Hkj; [|done].
      apply String.eqb_eq in Hkj as ->. rewrite String.eqb_sym in Hj.
      by rewrite Hj.
Qed.

Lemma get_set {V} k k' (v : V) (m : t V) :
  get k (set k' v m) = if String.eqb k k' then Some v else get k m.
Proof.
  induction m as [|[j w] m IH]; simpl.
  - by destruct (String.eqb k k').
  - destruct (String.eqb k' j) eqn:Hj; simpl.
    + apply String.eqb_eq in Hj as ->. by destruct (String.eqb k j).
    + rewrite IH. destruct (String.eqb k j) eqn:Hkj; [|done].
      apply String.eqb_eq in Hkj as ->. rewrite String.eqb_sym in Hj.
      by rewrite Hj.
Qed.

Lemma get_delete_Some {V} k k' (m : t V) v :
  get k (delete k' m) = Some v -> get k m = Some v.
Proof. rewrite get_delete. by destruct (String.eqb k k'). Qed.

End JSMapFacts.

(** ** The invariant is kept by every write *)

Section InvWrites.
Context (x : option nat) (st : State).
Implicit Types (f : Room -> Room).

Lemma inv_sent g : inv x st -> inv x (with_sent g st).
Proof. done. Qed.

Lemma inv_socketToRoom g : inv x st -> inv x (with_socketToRoom g st).
Proof. done. Qed.

Lemma inv_nextOid g : inv x st -> inv x (with_nextOid g st).
Proof. done. Qed.

Lemma inv_rooms_delete k : inv x st -> inv x (with_rooms (JSMap.delete k) st).
Proof.
  intros [(Hr & Ht & Hw) Hg]. split; [split_and!|]; try done.
  intros k' a Hk'. apply JSMapFacts.get_delete_Some in Hk'. by apply Hr.
Qed.

Lemma inv_rooms_set k a r :
  inv x st -> heap st !! a = Some r -> rid r = k ->
  inv x (with_rooms (JSMap.set k a) st).
Proof.
  intros [(Hr & Ht & Hw) Hg] Ha Hk. split; [split_and!|]; try done.
  intros k' a'. simpl. rewrite JSMapFacts.get_set.
  destruct (String.eqb k' k) eqn:Hkk; [|by apply Hr].
  apply String.eqb_eq in Hkk as ->. intros [= <-]. eauto.
Qed.

Lemma inv_timers_delete k : inv x st -> inv x (with_roomTimers (JSMap.delete k) st).
Proof.
  intros [(Hr & Ht & Hw) Hg]. split; [split_and!|]; try done.
  intros k' t Hk'. apply JSMapFacts.get_delete_Some in Hk'. by eapply Ht.
Qed.

Lemma inv_timers_set k b kind :
  inv x st -> b < length (heap st) ->
  inv x (with_roomTimers (JSMap.set k (mkTimer b kind)) st).
Proof.
  intros [(Hr & Ht & Hw) Hg] Hb. split; [split_and!|]; try done.
  intros k' t. simpl. rewrite JSMapFacts.get_set.
  destruct (String.eqb k' k); [by intros [= <-]|by apply Ht].
Qed.

Lemma inv_timeouts_push t :
  inv x st ->
  match t with SendWord _ a _ => a < length (heap st) | _ => True end ->
  inv x (with_timeouts (fun l => l ++ [t]) st).
Proof.
  intros [(Hr & Ht & Hw) Hg] Hnew. split; [split_and!|]; try done.
  intros d a dr. simpl. rewrite elem_of_app, list_elem_of_singleton.
  intros [Hin| <-]; [by eapply Hw|done].
Qed.

Lemma inv_timeouts_delete k : inv x st -> inv x (with_timeouts (delete k) st).
Proof.
  intros [(Hr & Ht & Hw) Hg]. split; [split_and!|]; try done.
  intros d a dr Hin. simpl in Hin.
  eapply Hw, list_elem_of_delete_inv, Hin.
Qed.

Lemma inv_timeouts_retarget o s :
  inv x st -> inv x (with_timeouts (map (retarget o s)) st).
Proof.
  intros [(Hr & Ht & Hw) Hg]. split; [split_and!|]; try done.
  intros d a dr. simpl. rewrite list_elem_of_In, in_map_iff.
  intros (t & Heq & Hin%list_elem_of_In).
  destruct t as [| |d' a' [[o' s']|]]; simpl in Heq; try done.
  - destruct (o' =? o); injection Heq as <- <- <-; by eapply Hw.
  - injection Heq as <- <- <-; by eapply Hw.
Qed.

Lemma inv_heap_push r :
  inv x st -> guess_ok r -> round_ok r ->
  inv x (with_heap (fun h => h ++ [r]) st).
Proof.
  intros [(Hr & Ht & Hw) Hg] Hg1 Hg2. split; [split_and!|]; simpl.
  - intros k a Hk. destruct (Hr k a Hk) as (r' & Hr' & Hid).
    exists r'. split; [|done]. rewrite lookup_app_l; [done|].
    by eapply lookup_lt_Some.
  - intros k t Hk. rewrite length_app. specialize (Ht k t Hk). lia.
  - intros d a dr Hin. rewrite length_app. specialize (Hw d a dr Hin). lia.
  - intros b r' Hb. apply lookup_app_Some in Hb as [Hb|[_ Hb]]; [by apply Hg|].
    apply list_lookup_singleton_Some in Hb as [_ <-]. done.
Qed.

Lemma inv_modifyRoom b f :
  inv x st -> gentle f -> inv x (with_heap (alter f b) st).
Proof.
  intros [(Hr & Ht & Hw) Hg] Hf. split; [split_and!|]; simpl.
  - intros k a Hk. destruct (Hr k a Hk) as (r' & Hr' & Hid).
    destruct (decide (b = a)) as [->|Hne].
    + exists (f r'). rewrite list_lookup_alter_eq, Hr'. split; [done|].
      by rewrite (proj1 (Hf r')).
    + exists r'. by rewrite list_lookup_alter_ne.
  - intros k t Hk. rewrite length_alter. by eapply Ht.
  - intros d a dr Hin. rewrite length_alter. by eapply Hw.
  - intros a r'. destruct (decide (b = a)) as [->|Hne].
    + rewrite list_lookup_alter_eq. destruct (heap st !! a) as [r|] eqn:Ha; [|done].
      intros [= <-]. destruct (Hg a r Ha) as [H1 H2], (Hf r) as (_ & H3 & H4).
      auto.
    + rewrite list_lookup_alter_ne by done. apply Hg.
Qed.

End InvWrites.

(** The first write of [endRound] re-establishes the invariant of the room. *)
Lemma inv_enter a f st :
  inv (Some a) st ->
  (forall r, rid (f r) = rid r /\ (guess_ok r -> guess_ok (f r)) /\ round_ok (f r)) ->
  inv None (with_heap (alter f a) st).
Proof.
  intros [(Hr & Ht & Hw) Hg] Hf. split; [split_and!|]; simpl.
  - intros k a' Hk. destruct (Hr k a' Hk) as (r' & Hr' & Hid).
    destruct (decide (a = a')) as [->|Hne].
    + exists (f r'). rewrite list_lookup_alter_eq, Hr'. split; [done|].
      by rewrite (proj1 (Hf r')).
    + exists r'. by rewrite list_lookup_alter_ne.
  - intros k t Hk. rewrite length_alter. by eapply Ht.
  - intros d a' dr Hin. rewrite length_alter. by eapply Hw.
  - intros a' r'. destruct (decide (a = a')) as [->|Hne].
    + rewrite list_lookup_alter_eq. destruct (heap st !! a') as [r|] eqn:Ha; [|done].
      intros [= <-]. destruct (Hg a' r Ha) as [H1 H2], (Hf r) as (_ & H3 & H4).
      auto.
    + rewrite list_lookup_alter_ne by done. intros Hb.
      destruct (Hg a' r' Hb) as [H1 H2]. split; [done|]. intros _.
      apply H2. congruence.
Qed.

(** Recording a guesser while none is recorded. *)
Lemma inv_mark a f st :
  inv None st ->
  (forall r, heap st !! a = Some r -> rid (f r) = rid r /\ guess_ok (f r)) ->
  inv (Some a) (with_heap (alter f a) st).
Proof.
  intros [(Hr & Ht & Hw) Hg] Hf. split; [split_and!|]; simpl.
  - intros k a' Hk. destruct (Hr k a' Hk) as (r' & Hr' & Hid).
    destruct (decide (a = a')) as [->|Hne].
    + exists (f r'). rewrite list_lookup_alter_eq, Hr'. split; [done|].
      by rewrite (proj1 (Hf r' Hr')).
    + exists r'. by rewrite list_lookup_alter_ne.
  - intros k t Hk. rewrite length_alter. by eapply Ht.
  - intros d a' dr Hin. rewrite length_alter. by eapply Hw.
  - intros a' r'. destruct (decide (a = a')) as [->|Hne].
    + rewrite list_lookup_alter_eq. destruct (heap st !! a') as [r|] eqn:Ha; [|done].
      intros [= <-]. split; [by apply Hf|]. done.
    + rewrite list_lookup_alter_ne by done. intros Hb.
      destruct (Hg a' r' Hb) as [H1 H2]. split; [done|]. intros _. by apply H2.
Qed.

Lemma inv_weaken a st : inv None st -> inv (Some a) st.
Proof.
  intros [Hwf Hg]. split; [done|]. intros b r Hb.
  destruct (Hg b r Hb) as [H1 H2]. split; [done|]. intros _. by apply H2.
Qed.

Lemma inv_rooms_valid x st k a :
  inv x st -> JSMap.get k (rooms st) = Some a -> a < length (heap st).
Proof.
  intros [(Hr & _) _] Hk. destruct (Hr k a Hk) as (r & Hr' & _).
  by eapply lookup_lt_Some.
Qed.

Lemma inv_timer_valid x st k t :
  inv x st -> JSMap.get k (roomTimers st) = Some t -> t_room t < length (heap st).
Proof. intros [(_ & Ht & _) _] Hk. by eapply Ht. Qed.

Lemma inv_initial : inv None initial.
Proof.
  split; [split_and!|]; simpl; try done.
  intros d a dr Hin. by apply elem_of_nil in Hin.
Qed.

(** ** Tactics: one step of a handler at a time *)

Ltac valid_solve :=
  simpl; rewrite ?length_alter, ?length_app; simpl;
  first [ assumption | lia
        | eapply inv_rooms_valid; eassumption
        | eapply inv_timer_valid; eassumption ].

Ltac gentle_solve :=
  intros ?; unfold guess_ok, round_ok; simpl; repeat split;
  first [ done | lia | intuition congruence ].

Ltac inv_solve :=
  repeat first
    [ eassumption
    | apply inv_sent | apply inv_socketToRoom | apply inv_nextOid
    | apply inv_rooms_delete | apply inv_timers_delete
    | apply inv_timeouts_delete | apply inv_timeouts_retarget
    | (apply inv_timers_set; [|valid_solve])
    | (apply inv_timeouts_push; [|first [exact I | valid_solve]])
    | (apply inv_modifyRoom; [|gentle_solve]) ].

Ltac wp_prim :=
  lazymatch goal with
  | |- wp _ (mbind _ _) _ _ => apply wp_bind
  | |- wp _ (mret _) _ _ => apply wp_ret
  | |- wp _ (gets _) _ _ => apply wp_gets
  | |- wp _ (modify _) _ _ => apply wp_modify
  | |- wp _ (emit _ _) _ _ => apply wp_emit
  | |- wp _ (modifyRoom _ _) _ _ => apply wp_modifyRoom
  | |- wp _ (setTimeout _) _ _ => apply wp_setTimeout
  | |- wp _ (throw _) _ _ => apply wp_throw
  | |- wp _ (lift _) _ _ => apply wp_lift
  | |- wp _ (getRoom _) _ _ => apply wp_getRoom; [valid_solve | intros ? ?]
  | |- wp _ (when _ _) _ _ => unfold when
  | |- wp _ (clearTimer _) _ _ => unfold clearTimer
  | |- wp _ (broadcastRoomState _ _) _ _ => unfold broadcastRoomState
  | |- wp _ broadcastRoomsList _ _ => unfold broadcastRoomsList
  | |- wp _ (emitScoreUpdate _) _ _ => unfold emitScoreUpdate
  | |- wp _ (startTimer _ _ _ _) _ _ => unfold startTimer
  | |- wp _ (if ?b then _ else _) _ _ => destruct b eqn:?
  | |- wp _ (match ?x with _ => _ end) _ _ => destruct x eqn:?
  | |- match ?o with Returns _ => _ | Throws _ => _ end => destruct o eqn:?
  end; cbv beta.

(** ** The end-of-game evaluation throws one exception only *)

Lemma checkGameEnd_throws room msg :
  checkGameEnd room = Throws msg -> msg = reduce_error /\ players room = [].
Proof.
  unfold checkGameEnd. repeat case_match; try done. by intros [= <-].
Qed.

Lemma checkGameEnd_returns room :
  players room <> [] -> exists ge, checkGameEnd room = Returns ge.
Proof.
  unfold checkGameEnd. intros Hne. repeat case_match; try done; eauto.
Qed.

(** ** The rounds keep the invariant *)

Lemma startRound_inv x now rnd a st :
  inv x st -> a < length (heap st) ->
  wp js_error (startRound now rnd a)
    (fun _ st' => inv x st' /\ a < length (heap st')) st.
Proof.
  intros Hinv Ha. unfold startRound.
  repeat wp_prim; (split; [inv_solve | valid_solve]).
Qed.

Lemma endRound_inv x now a why st :
  x = None \/ x = Some a ->
  inv x st -> a < length (heap st) ->
  wp js_error (endRound now a why)
    (fun _ st' => inv None st' /\ a < length (heap st')) st.
Proof.
  intros Hx Hinv Ha. unfold endRound.
  assert (inv (Some a) st) as Hinv'.
  { destruct Hx as [->| ->]; [by apply inv_weaken|done]. }
  clear Hinv Hx. apply wp_bind, wp_modifyRoom.
  assert (inv None (with_heap (alter (set_phase intermission) a) st)) as Hinv.
  { apply inv_enter; [done|]. intros r. unfold guess_ok, round_ok. by simpl. }
  assert (a < length (heap (with_heap (alter (set_phase intermission) a) st)))
    as Ha' by valid_solve.
  clear Hinv'. revert Hinv Ha'.
  generalize (with_heap (alter (set_phase intermission) a) st). clear st Ha.
  intros st Hinv Ha.
  repeat wp_prim;
    try (split; [inv_solve | valid_solve]).
  left. by eapply checkGameEnd_throws.
Qed.

Ltac wp_step :=
  lazymatch goal with
  | |- wp _ (startRound _ _ _) _ _ =>
      eapply wp_mono;
      [ apply startRound_inv; [inv_solve | valid_solve] | intros [] ? [? ?] ]
  | |- wp _ (endRound _ _ _) _ _ =>
      eapply wp_mono;
      [ eapply endRound_inv; [left; reflexivity | inv_solve | valid_solve]
      | intros [] ? [? ?] ]
  | _ => wp_prim
  end.

Ltac wp_run :=
  repeat wp_step;
  try solve [ inv_solve | split; [solve [inv_solve] | valid_solve] ].

Lemma rotate_inv now rnd a st :
  inv None st -> a < length (heap st) ->
  wp js_error (rotate now rnd a) (fun _ st' => inv None st') st.
Proof. intros Hinv Ha. unfold rotate. wp_run. Qed.

Lemma timerTick_inv roomId now rnd st :
  inv None st -> wp js_error (timerTick roomId now rnd) (fun _ st' => inv None st') st.
Proof.
  intros Hinv. unfold timerTick. do 4 wp_step; [|wp_run].
  repeat wp_prim; [|inv_solve].
  unfold onComplete. destruct (t_kind t).
  - wp_run.
  - eapply wp_mono; [apply rotate_inv; [inv_solve|valid_solve]|done].
Qed.

Lemma getOrCreateRoom_inv x k st :
  inv x st ->
  wp js_error (getOrCreateRoom k)
    (fun a st' => inv x st' /\ a < length (heap st')) st.
Proof.
  intros Hinv. unfold getOrCreateRoom. do 3 wp_step.
  - wp_step. split; [done|valid_solve].
  - repeat wp_step. split; [|valid_solve].
    eapply inv_rooms_set with (r := newRoom k); [| |done].
    + apply inv_heap_push; [done| |]; unfold guess_ok, round_ok; simpl; [lia|done].
    + simpl. by rewrite lookup_app_r, Nat.sub_diag.
Qed.

Lemma leavePrevious_inv sid cleanRoomId now st :
  inv None st ->
  wp js_error (leavePrevious sid cleanRoomId now) (fun _ st' => inv None st') st.
Proof. intros Hinv. unfold leavePrevious. wp_run. Qed.

Lemma arrive_inv sid cleanRoomId cleanName now rnd a st :
  inv None st -> a < length (heap st) ->
  wp js_error (arrive sid cleanRoomId cleanName now rnd a)
    (fun _ st' => inv None st') st.
Proof. intros Hinv Ha. unfold arrive. wp_run. Qed.

(** ** Every handler keeps the invariant *)

Section Handlers.
Context (st : State) (Hinv : inv None st).

Lemma enter_inv sid cleanRoomId cleanName now rnd :
  keeps st (enter sid cleanRoomId cleanName now rnd).
Proof.
  unfold keeps, enter, settle. cbv zeta.
  wp_step. eapply wp_mono; [by apply getOrCreateRoom_inv|].
  intros a st2 [Hinv2 Ha]. cbv beta.
  do 3 wp_step.
  - do 4 wp_step.
    eapply wp_mono; [apply arrive_inv; [inv_solve|valid_solve]|done].
  - wp_step; [wp_run|]. wp_step.
    eapply wp_mono with (Q := fun _ st' => inv None st' /\ a < length (heap st')).
    { wp_run. }
    intros [] st' [? ?].
    eapply wp_mono; [apply arrive_inv; [inv_solve|valid_solve]|done].
Qed.

Lemma player_leave_inv sid roomId now : keeps st (player_leave sid roomId now).
Proof. unfold keeps, player_leave. cbv zeta. wp_run. Qed.

Lemma chat_inv sid roomId message : keeps st (chat sid roomId message).
Proof. unfold keeps, chat. cbv zeta. wp_run. Qed.

Lemma draw_inv sid roomId points : keeps st (draw sid roomId points).
Proof. unfold keeps, draw. cbv zeta. wp_run. Qed.

Lemma round_clear_request_inv sid roomId : keeps st (round_clear_request sid roomId).
Proof. unfold keeps, round_clear_request. cbv zeta. wp_run. Qed.

Lemma round_start_inv roomId now rnd : keeps st (round_start roomId now rnd).
Proof. unfold keeps, round_start. wp_run. Qed.

Lemma room_close_inv sid roomId : keeps st (room_close sid roomId).
Proof. unfold keeps, room_close. cbv zeta. wp_run. Qed.

Lemma round_skip_inv sid roomId now : keeps st (round_skip sid roomId now).
Proof. unfold keeps, round_skip. wp_run. Qed.

Lemma game_restart_inv roomId now rnd : keeps st (game_restart roomId now rnd).
Proof. unfold keeps, game_restart. wp_run. Qed.

Lemma disconnect_inv sid now : keeps st (disconnect sid now).
Proof. unfold keeps, disconnect. cbv zeta. wp_run. Qed.

Lemma rooms_request_inv sid : keeps st (rooms_request sid).
Proof. unfold keeps, rooms_request. wp_run. Qed.

Lemma guess_submit_inv sid roomId guess now : keeps st (guess_submit sid roomId guess now).
Proof.
  unfold keeps, guess_submit. cbv zeta.
  do 3 wp_step; [|wp_run]. do 2 wp_step.
  wp_step; [wp_run|].
  wp_step; [|wp_run].
  wp_step; [|wp_run].
  do 3 (wp_step; [wp_run|]).
  wp_step; [|wp_run].
  do 6 wp_step.
  match goal with |- wp _ _ _ ?s => assert (inv (Some n) s) as Hmark end.
  { apply inv_mark; [inv_solve|]. simpl. intros r0.
    rewrite !list_lookup_alter_eq.
    match goal with H : heap st !! n = Some ?r |- _ => rewrite H end.
    simpl. intros [= <-]. split; [done|].
    unfold guess_ok. simpl. unfold set_add.
    destruct (guessedThisRound r) as [|]; [simpl; lia|].
    match goal with H : (0 <? _) = false |- _ => simpl in H; done end. }
  repeat wp_prim.
  eapply wp_mono; [eapply endRound_inv; [right; reflexivity|inv_solve|valid_solve]|].
  by intros [] ? [? ?].
Qed.

Lemma fire_inv t :
  match t with SendWord _ a _ => a < length (heap st) | _ => True end ->
  keeps st (fire t).
Proof.
  intros Ht. unfold keeps, fire. destruct t as [| |d a [[o s]|]]; wp_run.
  by right.
Qed.

End Handlers.

Lemma timeoutFire_inv st k now :
  inv None st -> wp js_error (timeoutFire k now) (fun _ st' => inv None st') st.
Proof.
  intros Hinv. unfold timeoutFire. do 4 wp_step; [|wp_run|wp_run].
  do 2 wp_step.
  match goal with H : timeouts st !! k = Some ?t |- _ =>
    apply list_elem_of_lookup_2 in H; rename H into Hin end.
  eapply wp_mono; [apply fire_inv; [inv_solve|]|done].
  destruct t; try done. simpl. destruct Hinv as [(_ & _ & Hw) _]. by eapply Hw.
Qed.

Lemma player_join_inv st sid roomId name' now rnd :
  inv None st ->
  wp js_error (player_join sid roomId name' now rnd) (fun _ st' => inv None st') st.
Proof.
  intros Hinv. unfold player_join. cbv zeta. wp_step; [wp_run|].
  wp_step. eapply wp_mono; [by apply leavePrevious_inv|].
  intros [] st1 Hinv1. by apply enter_inv.
Qed.

(** A handler may throw more than a part of it. *)
Lemma wp_errors {A} (E E' : string -> Prop) (m : M A) Q st :
  (forall msg, E msg -> E' msg) -> wp E m Q st -> wp E' m Q st.
Proof. unfold wp. intros HE. destruct (m st); auto. Qed.

Lemma bare_inv sid ev arg st :
  inv None st -> wp handler_error (bare sid ev arg) (fun _ st' => inv None st') st.
Proof.
  intros Hinv. unfold bare.
  destruct ev, arg;
    first [ apply wp_throw; right; by eexists
          | eapply wp_errors; [|by apply player_join_inv]; by left ].
Qed.

Lemma handle_inv i st :
  inv None st -> wp handler_error (handle i) (fun _ st' => inv None st') st.
Proof.
  intros Hinv. destruct i; simpl; try by apply bare_inv.
  all: eapply wp_errors; [intros msg Hmsg; left; exact Hmsg|].
  - by apply player_join_inv.
  - by apply player_leave_inv.
  - by apply chat_inv.
  - by apply guess_submit_inv.
  - by apply draw_inv.
  - by apply round_clear_request_inv.
  - by apply round_start_inv.
  - by apply room_close_inv.
  - by apply round_skip_inv.
  - by apply game_restart_inv.
  - by apply disconnect_inv.
  - by apply rooms_request_inv.
  - by apply rooms_request_inv.
  - by apply rooms_request_inv.
  - by apply timerTick_inv.
  - by apply timeoutFire_inv.
Qed.

(** The states that the server reaches. *)
Lemma run_inv_ok inputs st st' :
  inv None st -> run inputs st = Ok tt st' -> inv None st'.
Proof.
  revert st. induction inputs as [|i inputs IH]; intros st Hinv; simpl.
  - by intros [= <-].
  - pose proof (handle_inv i st Hinv) as Hi. unfold wp in Hi.
    destruct (handle i st) as [[] st1|]; [|done]. by apply IH.
Qed.

(** An exception that ends a run is one of the two that the code raises, or
    the one of an event without payload. *)
Lemma run_inv_throw inputs st msg st' :
  inv None st -> run inputs st = Throw msg st' -> handler_error msg.
Proof.
  revert st. induction inputs as [|i inputs IH]; intros st Hinv; simpl; [done|].
  pose proof (handle_inv i st Hinv) as Hi. unfold wp in Hi.
  destruct (handle i st) as [[] st1|]; [by apply IH|]. by intros [= <- _].
Qed.

(** ** What [endRound] does to the room it ends *)

Lemma wp_getRoom_at E a r (Q : Room -> State -> Prop) st :
  heap st !! a = Some r -> Q r st -> wp E (getRoom a) Q st.
Proof. intros Hr HQ. unfold wp, getRoom. by rewrite Hr. Qed.

Ltac heap_known :=
  simpl; rewrite ?list_lookup_alter_eq;
  repeat match goal with H : heap _ !! _ = Some _ |- _ => rewrite H end;
  reflexivity.

(** A step of a handler whose room object is known. *)
Ltac wp_known :=
  lazymatch goal with
  | |- wp _ (getRoom _) _ _ => eapply wp_getRoom_at; [heap_known|]
  | _ => wp_prim
  end.

Lemma endRound_spec E now a why st room ge (Q : unit -> State -> Prop) :
  heap st !! a = Some room ->
  checkGameEnd room = Returns ge ->
  (forall st', endRound_post now a why st room ge st' -> Q tt st') ->
  wp E (endRound now a why) Q st.
Proof.
  intros Hroom Hge HQ. unfold endRound.
  do 10 wp_known. apply wp_lift.
  change (checkGameEnd (set_phase intermission room)) with (checkGameEnd room).
  rewrite Hge.
  repeat wp_known; apply HQ; unfold endRound_post, endPhase;
    repeat match goal with
      | H : _ = true |- _ => cbn [players set_phase] in H; rewrite H; clear H
      | H : _ = false |- _ => cbn [players set_phase] in H; rewrite H; clear H
      end;
    simpl; split_and!; try done.
  all: first
    [ by rewrite ?length_alter
    | by intros b Hb; rewrite ?list_lookup_alter_ne by done
    | by eexists; split; [heap_known|]
    | by intros k Hk; rewrite ?JSMapFacts.get_set, ?JSMapFacts.get_delete;
         apply String.eqb_neq in Hk as ->
    | rewrite <- !app_assoc; simpl; eexists; split; [reflexivity|];
      first [done | intros _; unfold game_over_event; eauto] ].
Qed.

(** ** The end-of-game evaluation *)

Lemma higher_fold_snoc ps q p0 :
  fold_left higher (ps ++ [q]) p0 = higher (fold_left higher ps p0) q.
Proof. by rewrite fold_left_app. Qed.

(** [reduce] keeps a player of the sequence with the highest score, and the
    first of those. *)
Lemma find_app_first {A} (f : A -> bool) l1 l2 :
  find f (l1 ++ l2) = match find f l1 with Some x => Some x | None => find f l2 end.
Proof. induction l1 as [|x l1 IH]; simpl; [done|]. by destruct (f x). Qed.

Lemma find_none_all {A} (f : A -> bool) l :
  (forall x, x ∈ l -> f x = false) -> find f l = None.
Proof.
  induction l as [|x l IH]; simpl; [done|]. intros Hall.
  rewrite (Hall x) by by left. apply IH. intros y Hy. apply Hall. by right.
Qed.

Lemma fold_higher_spec ps p0 :
  let top := fold_left higher ps p0 in
  top ∈ p0 :: ps /\
  (forall q, q ∈ p0 :: ps -> score q <= score top) /\
  find (fun p => score p =? score top) (p0 :: ps) = Some top.
Proof.
  cbv zeta. induction ps as [|q ps IH] using rev_ind.
  - simpl. split_and!; [by left| |by rewrite Nat.eqb_refl].
    intros q ->%list_elem_of_singleton. done.
  - rewrite higher_fold_snoc. destruct IH as (Hin & Hmax & Hfirst).
    set (top := fold_left higher ps p0) in *.
    change (p0 :: ps ++ [q]) with ((p0 :: ps) ++ [q]).
    assert (forall q', q' ∈ (p0 :: ps) ++ [q] -> q' ∈ p0 :: ps \/ q' = q) as Hcases.
    { intros q'. rewrite elem_of_app, list_elem_of_singleton. tauto. }
    rewrite find_app_first.
    unfold higher. destruct (score top <? score q) eqn:Hlt.
    + apply Nat.ltb_lt in Hlt. split_and!.
      * apply elem_of_app. right. by left.
      * intros q' [Hq'| ->]%Hcases; [|lia]. specialize (Hmax q' Hq'). lia.
      * rewrite find_none_all.
        -- simpl. by rewrite Nat.eqb_refl.
        -- intros q' Hq'. specialize (Hmax q' Hq'). apply Nat.eqb_neq. lia.
    + apply Nat.ltb_ge in Hlt. split_and!.
      * apply elem_of_app. by left.
      * intros q' [Hq'| ->]%Hcases; [by apply Hmax|lia].
      * by rewrite Hfirst.
Qed.

Lemma max_list_score_le ps q : q ∈ ps -> score q <= max_list (map score ps).
Proof.
  induction ps as [|p ps IH]; [by intros ?%elem_of_nil|].
  intros [->|Hq]%elem_of_cons; simpl; [lia|]. specialize (IH Hq). lia.
Qed.

Lemma max_list_score_in ps :
  ps <> [] -> exists q, q ∈ ps /\ score q = max_list (map score ps).
Proof.
  induction ps as [|p ps IH]; [done|]. intros _. simpl.
  destruct ps as [|p' ps].
  - exists p. split; [by left|simpl; lia].
  - destruct IH as (q & Hq & Hmax); [done|].
    destruct (Nat.le_ge_cases (score p) (max_list (map score (p' :: ps)))).
    + exists q. split; [by right|]. lia.
    + exists p. split; [by left|]. lia.
Qed.

Lemma topPlayer_spec room top :
  topPlayer room = Some top ->
  top ∈ players room /\ score top = topScore room /\
  find (fun p => score p =? topScore room) (players room) = Some top.
Proof.
  unfold topPlayer, topScore. destruct (players room) as [|p0 ps] eqn:Hps; [done|].
  intros [= <-]. destruct (fold_higher_spec ps p0) as (Hin & Hmax & Hfirst).
  assert (score (fold_left higher ps p0) = max_list (map score (p0 :: ps))) as Heq.
  { apply Nat.le_antisymm; [by apply max_list_score_le|].
    destruct (max_list_score_in (p0 :: ps)) as (q & Hq & <-); [done|]. by apply Hmax. }
  split_and!; [done|done|]. by rewrite <- Heq.
Qed.

(** At the round cap [checkGameEnd] returns the top player, with the reason
    of a tie or of a win. *)
Lemma checkGameEnd_cap room top :
  MAX_ROUNDS <= round room -> topPlayer room = Some top ->
  checkGameEnd room =
    Returns (mkGameEnd true (Some top)
      (Some (if 1 <? length (tiedAtTop room) then tie_reason top else cap_reason top))).
Proof.
  intros Hcap Htop. destruct (topPlayer_spec room top Htop) as (_ & Hs & _).
  unfold checkGameEnd, tiedAtTop. apply Nat.leb_le in Hcap. rewrite Hcap.
  unfold topPlayer in Htop. destruct (players room) as [|p0 ps]; [done|].
  injection Htop as Htop. rewrite Htop, Hs. by destruct (1 <? _).
Qed.

(** Before the round cap it returns the first player at the threshold. *)
Lemma checkGameEnd_early room :
  round room < MAX_ROUNDS ->
  checkGameEnd room =
    match atThreshold room with
    | Some w => Returns (mkGameEnd true (Some w) (Some (early_reason w)))
    | None => Returns (mkGameEnd false None None)
    end.
Proof.
  intros Hlt. unfold checkGameEnd, atThreshold.
  apply Nat.leb_gt in Hlt. by rewrite Hlt.
Qed.

(** C1 (as the specification states it): whenever a player is at the win
    threshold, the first such player is the winner, at the round cap too.
    The code tests the round cap first: in round 6, with Ann at 10 and Bob at
    11, the winner is Bob, who has the highest score, and not Ann, whom the
    test of the threshold finds. *)
Lemma C1_counterexample :
  ~ (forall room p, atThreshold room = Some p ->
       exists why, checkGameEnd room = Returns (mkGameEnd true (Some p) why)).
Proof.
  intros H.
  destruct (H (room_of [ann 10; bob 11] 6 drawing) (ann 10) eq_refl) as [why Hwhy].
  vm_compute in Hwhy. discriminate Hwhy.
Qed.

(** The same room, evaluated in the two orders. *)
Example C1_orders_differ :
  let room := room_of [ann 10; bob 11] 6 drawing in
  threshold_first room =
    Returns (mkGameEnd true (Some (ann 10))
               (Some "Ann reached 10 points and wins the game early!")) /\
  checkGameEnd room =
    Returns (mkGameEnd true (Some (bob 11))
               (Some "Game ended after 6 rounds. Bob wins with 11 points!")).
Proof. split; vm_compute; reflexivity. Qed.

Lemma atThreshold_spec room p :
  atThreshold room = Some p -> p ∈ players room /\ WINNING_SCORE <= score p.
Proof.
  intros [Hin Hp]%find_some. split; [by apply list_elem_of_In|by apply Nat.leb_le].
Qed.

(** C1 (amended): when a player is at the win threshold (10) the game ends,
    whatever the round. Before the round cap (6) the winner is the first such
    player in turn order, with the reason of an early win: a player who
    reaches 10 in round 3 wins without waiting for round 6. From the round
    cap on, the test of the cap comes first: the winner is the first player
    with the highest score, who is then at the threshold as well. *)
Theorem C1_threshold_and_cap room p :
  atThreshold room = Some p ->
  if round room <? MAX_ROUNDS
  then checkGameEnd room = Returns (mkGameEnd true (Some p) (Some (early_reason p)))
  else exists top,
         topPlayer room = Some top /\
         checkGameEnd room =
           Returns (mkGameEnd true (Some top)
             (Some (if 1 <? length (tiedAtTop room)
                    then tie_reason top else cap_reason top))) /\
         score p <= score top /\ WINNING_SCORE <= score top.
Proof.
  intros Hp. destruct (round room <? MAX_ROUNDS) eqn:Hround.
  - apply Nat.ltb_lt in Hround. by rewrite checkGameEnd_early, Hp.
  - apply Nat.ltb_ge in Hround.
    destruct (atThreshold_spec room p Hp) as [Hin Hten].
    destruct (topPlayer room) as [top|] eqn:Htop.
    + exists top. destruct (topPlayer_spec room top Htop) as (_ & Hs & _).
      pose proof (max_list_score_le (players room) p Hin) as Hle.
      fold (topScore room) in Hle.
      split_and!; [done|by apply checkGameEnd_cap|lia|lia].
    + unfold topPlayer in Htop. destruct (players room); [|done].
      by apply elem_of_nil in Hin.
Qed.

Lemma C1_witness :
  checkGameEnd (room_of [ann 4; bob 10] 3 drawing) =
    Returns (mkGameEnd true (Some (bob 10))
               (Some "Bob reached 10 points and wins the game early!")) /\
  exists top,
    topPlayer (room_of [ann 10; bob 11] 6 drawing) = Some top /\
    checkGameEnd (room_of [ann 10; bob 11] 6 drawing) =
      Returns (mkGameEnd true (Some top) (Some (cap_reason top))) /\
    10 <= score top /\ WINNING_SCORE <= score top.
Proof.
  split.
  - exact (C1_threshold_and_cap (room_of [ann 4; bob 10] 3 drawing) (bob 10) eq_refl).
  - exact (C1_threshold_and_cap (room_of [ann 10; bob 11] 6 drawing) (ann 10) eq_refl).
Defined.

(** ** The final scores *)

Lemma insert_desc_perm x l : insert_desc x l ≡ₚ x :: l.
Proof.
  induction l as [|y l IH]; simpl; [done|].
  destruct (pi_score x <? pi_score y); [|done].
  rewrite IH. apply Permutation_swap.
Qed.

Lemma sort_desc_perm l : sort_desc l ≡ₚ l.
Proof.
  induction l as [|x l IH]; simpl; [done|].
  by rewrite insert_desc_perm, IH.
Qed.

Lemma insert_desc_sorted x l :
  StronglySorted desc l -> StronglySorted desc (insert_desc x l).
Proof.
  induction 1 as [|y l Hs IH Hy]; simpl.
  - repeat constructor.
  - destruct (pi_score x <? pi_score y) eqn:Hxy.
    + apply Nat.ltb_lt in Hxy. constructor; [done|].
      rewrite insert_desc_perm. constructor; [unfold desc; lia|done].
    + apply Nat.ltb_ge in Hxy. constructor; [by constructor|].
      constructor; [done|].
      eapply Forall_impl; [exact Hy|]. unfold desc. intros z Hz. lia.
Qed.

Lemma sort_desc_sorted l : StronglySorted desc (sort_desc l).
Proof.
  induction l as [|x l IH]; simpl; [constructor|by apply insert_desc_sorted].
Qed.

(** Players of equal score keep their order: the sort is stable. *)
Lemma insert_desc_stable x l :
  Forall (fun y => pi_score y <= pi_score x) l -> insert_desc x l = x :: l.
Proof.
  destruct 1 as [|y l Hy _]; simpl; [done|].
  by apply Nat.ltb_ge in Hy as ->.
Qed.

(** ** Running a handler that does not throw *)

Lemma wp_returns {A} (m : M A) (Q : A -> State -> Prop) st :
  wp (fun _ => False) m Q st -> exists a st', m st = Ok a st' /\ Q a st'.
Proof. unfold wp. destruct (m st); [eauto|done]. Qed.

Lemma sent_since_app st st' new :
  sent st' = sent st ++ new -> sent_since st st' = new.
Proof. unfold sent_since. intros ->. by rewrite drop_app_length. Qed.

(** ** The tie at the round cap *)

(** C2 (as the specification states it): at the round cap, with a tie at the
    top and nobody at the threshold, [game:over] carries no winner. The code
    reports the tie in the reason only: with Ann and Bob both at 5 in round
    6, the winner field of [game:over] is Ann. *)
Lemma C2_counterexample :
  ~ (forall now a why st room,
       heap st !! a = Some room ->
       MAX_ROUNDS <= round room ->
       2 <= length (tiedAtTop room) ->
       atThreshold room = None ->
       exists st' why' scores,
         endRound now a why st = Ok tt st' /\
         phase <$> heap st' !! a = Some gameover /\
         mkEmit (IoTo (rid room)) (game_over (rid room) None why' scores)
           ∈ sent_since st st' /\
         StronglySorted desc scores).
Proof.
  intros H.
  destruct (H 0%Z 0 "timeout" (state_of (room_of [ann 5; bob 5] 6 drawing))
              (room_of [ann 5; bob 5] 6 drawing))
    as (st' & why' & scores & Hrun & _ & Hin & _);
    [done|vm_compute; lia|vm_compute; lia|done|].
  vm_compute in Hrun. injection Hrun as <-. vm_compute in Hin.
  repeat (apply elem_of_cons in Hin as [Hin|Hin]; [discriminate Hin|]).
  by apply elem_of_nil in Hin.
Qed.

(** What the code sends for that room. *)
Example C2_tie_reports_first_top_player :
  exists st',
    endRound 0 0 "timeout" (state_of (room_of [ann 5; bob 5] 6 drawing)) = Ok tt st' /\
    nth_error (sent st') 1 =
      Some (mkEmit (IoTo "r")
              (game_over "r" (Some (mkInfo "a" "Ann" 5))
                 (Some "Game ended after 6 rounds. It's a tie at 5 points!")
                 [mkInfo "a" "Ann" 5; mkInfo "b" "Bob" 5])).
Proof. eexists. split; vm_compute; reflexivity. Qed.

(** C2 (amended): when the round counter has reached the round cap (6) and two
    or more players are tied at the top score, ending the round enters phase
    [gameover] and emits [game:over]; its reason reports the tie, its winner
    field holds the first player in turn order among those tied at the top,
    and its [finalScores] are the players sorted descending by score. *)
Theorem C2_tie_at_cap now a why st room :
  heap st !! a = Some room ->
  MAX_ROUNDS <= round room ->
  2 <= length (tiedAtTop room) ->
  exists st' top,
    endRound now a why st = Ok tt st' /\
    phase <$> heap st' !! a = Some gameover /\
    find (fun p => score p =? topScore room) (players room) = Some top /\
    mkEmit (IoTo (rid room))
      (game_over (rid room) (Some (info top)) (Some (tie_reason top))
         (sort_desc (map info (players room))))
      ∈ sent_since st st' /\
    StronglySorted desc (sort_desc (map info (players room))) /\
    sort_desc (map info (players room)) ≡ₚ map info (players room).
Proof.
  intros Hroom Hcap Htie.
  destruct (topPlayer room) as [top|] eqn:Htop; last first.
  { unfold topPlayer in Htop. unfold tiedAtTop in Htie.
    destruct (players room); [simpl in Htie; lia|done]. }
  destruct (topPlayer_spec room top Htop) as (_ & _ & Hfirst).
  pose proof (checkGameEnd_cap room top Hcap Htop) as Hge.
  assert ((1 <? length (tiedAtTop room)) = true) as Hlen by (apply Nat.ltb_lt; lia).
  rewrite Hlen in Hge.
  destruct (wp_returns (endRound now a why)
              (fun _ st' => endRound_post now a why st room
                 (mkGameEnd true (Some top) (Some (tie_reason top))) st') st)
    as ([] & st' & Hrun & Hpost).
  { eapply endRound_spec; [done|exact Hge|done]. }
  destruct Hpost as (_ & _ & _ & _ & _ & (room' & Hroom' & _ & _ & _ & _ & _ & Hphase)
                     & _ & rest & Hsent & Hover).
  destruct (Hover eq_refl) as [rest' ->].
  exists st', top. split_and!; [done| |done| |apply sort_desc_sorted|apply sort_desc_perm].
  - rewrite Hroom'. simpl. by rewrite Hphase.
  - rewrite (sent_since_app _ _ _ Hsent). right. left.
Qed.

Lemma C2_witness :
  exists st' top,
    endRound 0 0 "timeout" (state_of (room_of [ann 5; bob 5] 6 drawing)) = Ok tt st' /\
    phase <$> heap st' !! 0 = Some gameover /\
    find (fun p => score p =? 5) [ann 5; bob 5] = Some top /\
    mkEmit (IoTo "r")
      (game_over "r" (Some (info top)) (Some (tie_reason top))
         (sort_desc (map info [ann 5; bob 5])))
      ∈ sent_since (state_of (room_of [ann 5; bob 5] 6 drawing)) st' /\
    StronglySorted desc (sort_desc (map info [ann 5; bob 5])) /\
    sort_desc (map info [ann 5; bob 5]) ≡ₚ map info [ann 5; bob 5].
Proof.
  apply (C2_tie_at_cap 0 0 "timeout" (state_of (room_of [ann 5; bob 5] 6 drawing))
           (room_of [ann 5; bob 5] 6 drawing)).
  - reflexivity.
  - vm_compute. lia.
  - vm_compute. lia.
Defined.

(** ** Guesses *)

Lemma has_id_eq sid p : has_id sid p = true <-> id p = sid.
Proof. unfold has_id. apply String.eqb_eq. Qed.

Lemma find_update_first_same {A} (f : A -> bool) g l x :
  (forall y, f (g y) = f y) ->
  find f l = Some x -> find f (update_first f g l) = Some (g x).
Proof.
  intros Hg. induction l as [|y l IH]; simpl; [done|].
  destruct (f y) eqn:Hy; simpl.
  - intros [= <-]. by rewrite Hg, Hy.
  - rewrite Hy. apply IH.
Qed.

Lemma find_update_first_other {A} (f f' : A -> bool) g l :
  (forall y, f' (g y) = f' y) ->
  (forall y, f y = true -> f' y = false) ->
  find f' (update_first f g l) = find f' l.
Proof.
  intros Hg Hff. induction l as [|y l IH]; simpl; [done|].
  destruct (f y) eqn:Hy; simpl.
  - by rewrite Hg, (Hff y Hy).
  - by rewrite IH.
Qed.

Lemma update_first_absent {A} (f : A -> bool) g l :
  find f l = None -> update_first f g l = l.
Proof.
  induction l as [|y l IH]; simpl; [done|].
  destruct (f y); [done|]. intros H. by rewrite IH.
Qed.

Lemma update_first_length {A} (f : A -> bool) g l :
  length (update_first f g l) = length l.
Proof.
  induction l as [|y l IH]; simpl; [done|]. destruct (f y); simpl; by rewrite ?IH.
Qed.

Lemma find_is_Some {A} (f : A -> bool) l x :
  x ∈ l -> f x = true -> is_Some (find f l).
Proof.
  intros Hx Hf. destruct (find f l) eqn:Hfind; [done|].
  apply list_elem_of_In in Hx. by rewrite (find_none _ _ Hfind x Hx) in Hf.
Qed.

Lemma find_unique_id ps d :
  NoDup (map id ps) -> d ∈ ps -> find (has_id (id d)) ps = Some d.
Proof.
  induction ps as [|p ps IH]; [by intros _ ?%elem_of_nil|].
  simpl. intros [Hp Hps]%NoDup_cons [->|Hd]%elem_of_cons.
  - unfold has_id. by rewrite String.eqb_refl.
  - destruct (has_id (id d) p) eqn:Hpd; [|by apply IH].
    apply has_id_eq in Hpd. destruct Hp. rewrite Hpd.
    apply list_elem_of_In, in_map, list_elem_of_In, Hd.
Qed.

Lemma currentDrawer_in room d : currentDrawer room = Some d -> d ∈ players room.
Proof.
  unfold currentDrawer, Num.index. destruct (Num.rem _ _); [|done].
  apply list_elem_of_lookup_2.
Qed.

(** C6: once a correct guess is recorded for the round of a room, a further
    [guess:submit] for that room, correct or not, leaves the whole state of
    the server as it is: no score changes, nothing is added to
    [guessedThisRound], and nothing is emitted. *)
Theorem C6_second_guess_is_noop sid roomId guess now st a room :
  JSMap.get (Str.trim roomId) (rooms st) = Some a ->
  heap st !! a = Some room ->
  guessedThisRound room <> [] ->
  guess_submit sid roomId guess now st = Ok tt st.
Proof.
  intros Hget Hroom Hne.
  destruct (wp_returns (guess_submit sid roomId guess now) (fun _ st' => st' = st) st)
    as ([] & st' & Hrun & ->); [|done].
  unfold guess_submit. cbv zeta. do 2 wp_known. rewrite Hget. do 2 wp_known.
  assert ((0 <? length (guessedThisRound room)) = true) as ->.
  { apply Nat.ltb_lt. destruct (guessedThisRound room); [done|simpl; lia]. }
  repeat (wp_known; try done).
Qed.

(** What a first correct guess does: in a room in phase [drawing] with no
    guesser recorded, a guess of a player who is not the drawer and whose
    normalized text equals the normalized secret word gives 2 points to the
    first entry with the socket id of the guesser and 1 point to the first
    entry with the socket id of the drawer, records the guesser and ends the
    round with the reason [guessed]; the handler returns without an
    exception. Where the socket ids of the room are distinct, these entries
    are the guesser and the drawer. *)
Lemma first_correct_guess_awards sid roomId guess now st a room player drawer :
  JSMap.get (Str.trim roomId) (rooms st) = Some a ->
  heap st !! a = Some room ->
  phase room = drawing ->
  guessedThisRound room = [] ->
  find (has_id sid) (players room) = Some player ->
  currentDrawer room = Some drawer ->
  id drawer <> sid ->
  normalize guess <> "" ->
  normalize guess = normalize (default "" (word room)) ->
  exists st' room',
    guess_submit sid roomId guess now st = Ok tt st' /\
    heap st' !! a = Some room' /\
    scoreOf sid (players room') = Some (score player + 2) /\
    is_Some (scoreOf (id drawer) (players room)) /\
    scoreOf (id drawer) (players room')
      = (fun s => s + 1) <$> scoreOf (id drawer) (players room) /\
    (NoDup (map id (players room)) ->
       scoreOf (id drawer) (players room') = Some (score drawer + 1)) /\
    (forall other, other <> sid -> other <> id drawer ->
       scoreOf other (players room') = scoreOf other (players room)) /\
    guessedThisRound room' = [sid] /\
    phase room' <> drawing /\
    mkEmit (IoTo (rid room)) (round_ended (rid room) "guessed") ∈ sent_since st st'.
Proof.
  intros Hget Hroom Hphase Hnone Hplayer Hdrawer Hne Hguess Heq.
  set (ps' := update_first (has_id (id drawer)) (add_score 1)
                (update_first (has_id sid) (add_score 2) (players room))).
  set (room1 := set_guessed [sid] (set_players ps' room)).
  assert (players room1 <> []) as Hps.
  { simpl. subst ps'. intros Hnil%(f_equal length).
    rewrite !update_first_length in Hnil.
    destruct (players room); [done|done]. }
  destruct (checkGameEnd_returns room1 Hps) as [ge Hge].
  destruct (wp_returns (guess_submit sid roomId guess now)
    (fun _ st' => exists mid, endRound_post now a "guessed" mid room1 ge st' /\
                  length (sent st) <= length (sent mid) /\
                  take (length (sent st)) (sent mid) = sent st) st)
    as ([] & st' & Hrun & mid & Hpost & Hlen & Htake).
  { unfold guess_submit. cbv zeta. do 2 wp_known. rewrite Hget. do 2 wp_known.
    rewrite Hphase, Hplayer, Hdrawer. simpl negb. cbv iota.
    apply String.eqb_neq in Hne as ->.
    rewrite Hnone. simpl length. simpl Nat.ltb. cbv iota.
    rewrite Heq, String.eqb_refl.
    destruct (Str.truthy (normalize (default "" (word room)))) eqn:Htruthy.
    2:{ rewrite Heq in Hguess. by destruct (normalize _). }
    simpl negb. change (0 <? 0) with false. cbv iota.
    repeat wp_known.
    eapply endRound_spec; [|exact Hge|].
    - simpl. rewrite !list_lookup_alter_eq, Hroom. simpl. rewrite Hnone. done.
    - intros st' Hpost. eexists. split; [exact Hpost|]. simpl.
      rewrite !length_app. split; [lia|]. rewrite <- app_assoc.
      by rewrite take_app_length. }
  destruct Hpost as (_ & _ & _ & _ & _ &
    (room' & Hroom' & Hrid & Hplayers & _ & _ & Hguessed & Hend) & _ & rest & Hsent & _).
  assert (forall s, has_id s (add_score 2 player) = has_id s player) as Hid2 by done.
  assert (forall n s y, has_id s (add_score n y) = has_id s y) as Hid by done.
  assert (forall s s', s <> s' -> forall y, has_id s y = true -> has_id s' y = false)
    as Hother.
  { intros s s' Hss y Hy%has_id_eq. unfold has_id. apply String.eqb_neq. congruence. }
  destruct (find_is_Some (has_id (id drawer)) (players room) drawer) as [d0 Hd0].
  { by apply currentDrawer_in. } { by apply has_id_eq. }
  assert (scoreOf (id drawer) (players room') = Some (score d0 + 1)) as Hdrawer'.
  { rewrite Hplayers. simpl. subst ps'. unfold scoreOf.
    erewrite find_update_first_same; [done|by apply Hid|].
    rewrite find_update_first_other; [done|by apply Hid|]. apply Hother. congruence. }
  exists st', room'. split_and!; try done.
  - rewrite Hplayers. simpl. subst ps'. unfold scoreOf.
    rewrite find_update_first_other; [|by apply Hid|by apply Hother].
    by erewrite find_update_first_same.
  - unfold scoreOf. by rewrite Hd0.
  - rewrite Hdrawer'. unfold scoreOf. by rewrite Hd0.
  - intros Hnodup. rewrite Hdrawer'.
    rewrite (find_unique_id _ drawer Hnodup) in Hd0 by by apply currentDrawer_in.
    by injection Hd0 as <-.
  - intros other Ho1 Ho2. rewrite Hplayers. simpl. subst ps'. unfold scoreOf.
    rewrite !find_update_first_other; [done|by apply Hid| |by apply Hid|].
    + apply Hother. congruence.
    + apply Hother. congruence.
  - rewrite Hend. unfold endPhase. by repeat case_match.
  - unfold sent_since. rewrite Hsent.
    rewrite <- (take_drop (length (sent st)) (sent mid)), Htake.
    rewrite <- app_assoc, drop_app_length.
    apply elem_of_app. right. by left.
Qed.


Lemma C6_witness :
  exists a room,
    JSMap.get "r" (rooms (after bob_guessed)) = Some a /\
    heap (after bob_guessed) !! a = Some room /\
    guessedThisRound room = ["b"] /\
    guess_submit "a" "r" "cat" 6000 (after bob_guessed) = Ok tt (after bob_guessed).
Proof.
  eexists 0, _. split_and!; [vm_compute; reflexivity..|].
  eapply (C6_second_guess_is_noop "a" "r" "cat" 6000 (after bob_guessed) 0);
    [vm_compute; reflexivity|vm_compute; reflexivity|vm_compute; discriminate].
Defined.

Example first_correct_guess_awards_two_joined :
  exists st' room',
    guess_submit "b" "r" "  CAT " 5000 (after two_joined) = Ok tt st' /\
    heap st' !! 0 = Some room' /\
    scoreOf "b" (players room') = Some 2 /\
    scoreOf "a" (players room') = Some 1 /\
    guessedThisRound room' = ["b"].
Proof.
  destruct (first_correct_guess_awards "b" "r" "  CAT " 5000 (after two_joined) 0
              (mkRoom "r" [ann 0; bob 0] (Some "Cat") 1 (Fin 0) [] drawing (Some 60010%Z))
              (bob 0) (ann 0))
    as (st' & room' & Hrun & Hroom & Hb & _ & Ha & _ & _ & Hg & _);
    [vm_compute; reflexivity|vm_compute; reflexivity|vm_compute; reflexivity
    |vm_compute; reflexivity|vm_compute; reflexivity|vm_compute; reflexivity
    |vm_compute; discriminate|vm_compute; discriminate|vm_compute; reflexivity|].
  exists st', room'. split_and!; [exact Hrun|exact Hroom|exact Hb|exact Ha|exact Hg].
Qed.

(** C7 (the code departs from it): the point of the drawer goes to another
    player when two entries of the room have one socket id. Ann, Bob and Cy
    are in room [r]; Bob loses his connection, and the socket of Ann, which is
    in the room, joins again under the name of Bob: the reconnection branch
    of [player:join] gives Bob's entry the socket id of Ann and keeps Ann's
    entry. In the second round Bob's entry is the drawer and Cy guesses the
    word: Cy gets 2 points, [players.find] by the id of the drawer finds the
    entry of Ann, which gets the point, and the drawer gets none. *)
Theorem C7_drawer_point_goes_to_another_entry :
  exists st room drawer st' room',
    run entry_taken_over initial = Ok tt st /\
    JSMap.get "r" (rooms st) = Some 0 /\
    heap st !! 0 = Some room /\
    phase room = drawing /\ guessedThisRound room = [] /\
    word room = Some "House" /\
    map (fun p => (name p, id p, score p)) (players room)
      = [("Ann", "a", 0); ("Bob", "a", 0); ("Cy", "c", 0)] /\
    currentDrawer room = Some drawer /\
    name drawer = "Bob" /\ id drawer <> "c" /\
    guess_submit "c" "r" " HOUSE " 7000 st = Ok tt st' /\
    heap st' !! 0 = Some room' /\
    guessedThisRound room' = ["c"] /\
    map (fun p => (name p, id p, score p)) (players room')
      = [("Ann", "a", 1); ("Bob", "a", 0); ("Cy", "c", 2)].
Proof.
  eexists _, _, _, _, _.
  repeat (split; [vm_compute; first [reflexivity | discriminate]|]).
  vm_compute; reflexivity.
Qed.

(** ** Deleting a room that has become empty *)

(** C3 (as the specification states it): a [player:leave] that empties the
    room leaves it registered. In the code the handler deletes the room at
    once: after Ann, alone in room [r], has left, the registry is empty. *)
Lemma C3_counterexample :
  ~ (forall sid roomId now st st' a room p,
       JSMap.get (actualRoomId sid roomId st) (rooms st) = Some a ->
       heap st !! a = Some room ->
       players room = [p] -> id p = sid ->
       player_leave sid roomId now st = Ok tt st' ->
       JSMap.get (actualRoomId sid roomId st) (rooms st') = Some a).
Proof.
  intros H.
  assert (JSMap.get "r" (rooms (after [PlayerJoin "a" "r" "Ann" 0 0;
                                       PlayerLeave "a" "r" 1000])) = Some 0) as Hbad.
  { apply (H "a" "r" 1000%Z (after [PlayerJoin "a" "r" "Ann" 0 0]) _ 0
             (mkRoom "r" [ann 0] None 1 (Fin 0) [] lobby None) (ann 0));
      vm_compute; reflexivity. }
  vm_compute in Hbad. discriminate Hbad.
Qed.

(** [player:leave] by the last player of a room: the room is deleted from the
    registry before the handler returns, and no timeout is scheduled. *)
Lemma player_leave_last sid roomId now st a room p :
  Str.truthy (actualRoomId sid roomId st) = true ->
  JSMap.get (actualRoomId sid roomId st) (rooms st) = Some a ->
  heap st !! a = Some room ->
  players room = [p] -> id p = sid ->
  exists st',
    player_leave sid roomId now st = Ok tt st' /\
    JSMap.get (actualRoomId sid roomId st) (rooms st') = None /\
    timeouts st' = timeouts st.
Proof.
  intros Htruthy Hget Hroom Hps Hid.
  destruct (wp_returns (player_leave sid roomId now)
    (fun _ st' => JSMap.get (actualRoomId sid roomId st) (rooms st') = None /\
                  timeouts st' = timeouts st) st)
    as ([] & st' & Hrun & Hpost); [|by exists st'].
  unfold player_leave. cbv zeta. do 2 wp_known.
  fold (actualRoomId sid roomId st). rewrite Htruthy. simpl negb. cbv iota.
  do 2 wp_known. rewrite Hget. do 4 wp_known.
  rewrite Hps. simpl findIndex.
  assert (has_id sid p = true) as -> by by apply has_id_eq.
  assert (forall (s : State), JSMap.get (actualRoomId sid roomId st)
            (rooms (with_rooms (JSMap.delete (actualRoomId sid roomId st)) s)) = None)
    as Hdel.
  { intros s. simpl. by rewrite JSMapFacts.get_delete, String.eqb_refl. }
  repeat wp_known; rewrite ?Hps in *; simpl in *; try discriminate;
    (split; [apply Hdel|reflexivity]).
Qed.

(** The previous room of a [player:join], emptied by the move: the room stays
    registered and its deletion is scheduled 2 s later. *)
Lemma leavePrevious_last sid cleanRoomId now st prev pa room :
  JSMap.get sid (socketToRoom st) = Some prev ->
  Str.truthy prev = true -> prev <> cleanRoomId ->
  JSMap.get prev (rooms st) = Some pa ->
  heap st !! pa = Some room ->
  filter (fun p => has_id sid p = false) (players room) = [] ->
  exists st',
    leavePrevious sid cleanRoomId now st = Ok tt st' /\
    rooms st' = rooms st /\
    heap st' !! pa = Some (set_players [] room) /\
    timeouts st' = timeouts st ++ [DeletePrevRoom (now + 2000) prev].
Proof.
  intros Hmap Htruthy Hne Hget Hroom Hempty.
  destruct (wp_returns (leavePrevious sid cleanRoomId now)
    (fun _ st' => rooms st' = rooms st /\
                  heap st' !! pa = Some (set_players [] room) /\
                  timeouts st' = timeouts st ++ [DeletePrevRoom (now + 2000) prev]) st)
    as ([] & st' & Hrun & Hpost); [|by exists st'].
  unfold leavePrevious. do 2 wp_known. rewrite Hmap, Htruthy.
  apply String.eqb_neq in Hne as ->. simpl andb. cbv iota.
  do 2 wp_known. rewrite Hget. do 4 wp_known.
  simpl players. rewrite Hempty. simpl length. simpl Nat.eqb. cbv iota.
  wp_known. simpl. rewrite list_lookup_alter_eq, Hroom. simpl. by rewrite Hempty.
Qed.

(** The scheduled deletion, when it runs: the room is deleted only if its
    player sequence is empty then. *)
Lemma fire_DeletePrevRoom d prev st pa room :
  JSMap.get prev (rooms st) = Some pa ->
  heap st !! pa = Some room ->
  fire (DeletePrevRoom d prev) st =
    if length (players room) =? 0
    then broadcastRoomsList (with_rooms (JSMap.delete prev) st)
    else Ok tt st.
Proof.
  intros Hget Hroom. unfold fire.
  change ((gets (fun st => JSMap.get prev (rooms st)) ≫= ?k) st)
    with (k (JSMap.get prev (rooms st)) st).
  rewrite Hget.
  change ((getRoom pa ≫= ?k) st)
    with (match getRoom pa st with Ok r st' => k r st' | Throw m st' => Throw m st' end).
  unfold getRoom. rewrite Hroom. unfold when.
  by destruct (length (players room) =? 0).
Qed.

Lemma broadcastRoomsList_run st :
  exists new, broadcastRoomsList st = Ok tt (with_sent (fun l => l ++ new) st).
Proof.
  eexists [_; _]. unfold broadcastRoomsList.
  change ((gets getPublicRooms ≫= ?k) st) with (k (getPublicRooms st) st).
  cbv beta. unfold emit, modify, with_sent, mbind, M_bind. simpl.
  by rewrite <- app_assoc.
Qed.

(** C3 (amended): a [player:leave] that empties a room deletes the room from
    the registry synchronously, in the handler, and schedules nothing. The
    deferred deletion belongs to [player:join]: when a socket joins another
    room and thereby empties its previous room, that room stays registered and
    its deletion is scheduled 2 s later; when the timeout runs, the room is
    deleted only if its player sequence is still empty, so a room that has
    been joined again in between survives. *)
Theorem C3_leave_deletes_join_defers :
  (forall sid roomId now st a room p,
     Str.truthy (actualRoomId sid roomId st) = true ->
     JSMap.get (actualRoomId sid roomId st) (rooms st) = Some a ->
     heap st !! a = Some room ->
     players room = [p] -> id p = sid ->
     exists st',
       player_leave sid roomId now st = Ok tt st' /\
       JSMap.get (actualRoomId sid roomId st) (rooms st') = None /\
       timeouts st' = timeouts st) /\
  (forall sid cleanRoomId now st prev pa room,
     JSMap.get sid (socketToRoom st) = Some prev ->
     Str.truthy prev = true -> prev <> cleanRoomId ->
     JSMap.get prev (rooms st) = Some pa ->
     heap st !! pa = Some room ->
     filter (fun p => has_id sid p = false) (players room) = [] ->
     exists st',
       leavePrevious sid cleanRoomId now st = Ok tt st' /\
       JSMap.get prev (rooms st') = Some pa /\
       heap st' !! pa = Some (set_players [] room) /\
       timeouts st' = timeouts st ++ [DeletePrevRoom (now + 2000) prev]) /\
  (forall d prev st pa room,
     JSMap.get prev (rooms st) = Some pa ->
     heap st !! pa = Some room ->
     (players room <> [] -> fire (DeletePrevRoom d prev) st = Ok tt st) /\
     (players room = [] ->
        exists st', fire (DeletePrevRoom d prev) st = Ok tt st' /\
                    rooms st' = JSMap.delete prev (rooms st))).
Proof.
  split_and!.
  - apply player_leave_last.
  - intros sid cleanRoomId now st prev pa room Hmap Ht Hne Hget Hroom Hempty.
    destruct (leavePrevious_last sid cleanRoomId now st prev pa room)
      as (st' & Hrun & Hrooms & Hheap & Hto); try done.
    exists st'. by rewrite Hrooms.
  - intros d prev st pa room Hget Hroom.
    rewrite (fire_DeletePrevRoom d prev st pa room Hget Hroom). split.
    + intros Hne. by destruct (players room).
    + intros ->. simpl.
      destruct (broadcastRoomsList_run (with_rooms (JSMap.delete prev) st))
        as [new ->]. by eexists.
Qed.

Lemma C3_witness :
  (exists st',
     player_leave "a" "r" 1000 (after [PlayerJoin "a" "r" "Ann" 0 0]) = Ok tt st' /\
     JSMap.get "r" (rooms st') = None /\
     timeouts st' = []) /\
  (exists st',
     leavePrevious "a" "s" 1000 (after [PlayerJoin "a" "r" "Ann" 0 0]) = Ok tt st' /\
     JSMap.get "r" (rooms st') = Some 0 /\
     heap st' !! 0 = Some (mkRoom "r" [] None 1 (Fin 0) [] lobby None) /\
     timeouts st' = [DeletePrevRoom 3000 "r"]).
Proof.
  destruct C3_leave_deletes_join_defers as (Hleave & Hjoin & _). split.
  - apply (Hleave "a" "r" 1000%Z (after [PlayerJoin "a" "r" "Ann" 0 0]) 0
             (mkRoom "r" [ann 0] None 1 (Fin 0) [] lobby None) (ann 0));
      vm_compute; reflexivity.
  - apply (Hjoin "a" "s" 1000%Z (after [PlayerJoin "a" "r" "Ann" 0 0]) "r" 0
             (mkRoom "r" [ann 0] None 1 (Fin 0) [] lobby None));
      first [vm_compute; reflexivity | vm_compute; discriminate].
Defined.

(** ** The set of the correct guessers *)

(** C5: in every state that the server reaches, by whatever sequence of
    events, timer ticks and timeouts, every room object has at most one entry
    in [guessedThisRound], and a room with an entry there is no longer in the
    drawing phase: the handler that recorded the guesser has ended the round
    before it returned. *)
Theorem C5_at_most_one_guesser inputs st room :
  run inputs initial = Ok tt st ->
  room ∈ heap st ->
  length (guessedThisRound room) <= 1 /\
  (guessedThisRound room <> [] -> phase room <> drawing).
Proof.
  intros Hrun [b Hb]%list_elem_of_lookup_1.
  destruct (run_inv_ok inputs initial st inv_initial Hrun) as [_ Hrooms].
  destruct (Hrooms b room Hb) as [Hguess Hround]. split; [done|].
  by apply Hround.
Qed.

Lemma C5_witness :
  exists room,
    run bob_guessed initial = Ok tt (after bob_guessed) /\
    room ∈ heap (after bob_guessed) /\
    guessedThisRound room = ["b"] /\
    length (guessedThisRound room) <= 1 /\
    (guessedThisRound room <> [] -> phase room <> drawing).
Proof.
  exists (mkRoom "r" [ann 1; bob 2] (Some "Cat") 1 (Fin 0) ["b"] intermission
            (Some 8000%Z)).
  assert (run bob_guessed initial = Ok tt (after bob_guessed)) as Hrun
    by (vm_compute; reflexivity).
  assert (mkRoom "r" [ann 1; bob 2] (Some "Cat") 1 (Fin 0) ["b"] intermission
            (Some 8000%Z) ∈ heap (after bob_guessed)) as Hin
    by (vm_compute; left).
  split_and!; [exact Hrun|exact Hin|reflexivity|..];
    apply (C5_at_most_one_guesser bob_guessed (after bob_guessed) _ Hrun Hin).
Defined.

(** ** Exceptions *)

Lemma checkGameEnd_empty_at_cap room :
  players room = [] -> MAX_ROUNDS <= round room ->
  checkGameEnd room = Throws reduce_error.
Proof.
  intros Hps Hcap%Nat.leb_le. unfold checkGameEnd. by rewrite Hcap, Hps.
Qed.

(** C8 (the code departs from it): the end-of-game evaluation throws on a
    room without players once the round cap is reached. Ann and Bob play room
    [r] into round 6 and both join room [s]: the previous-room removal of
    [player:join] empties [r] and leaves its round timer running, and so does
    the deferred deletion of [r]. When that timer runs out, [endRound] sets
    the phase, removes the timer, and [checkGameEnd] throws out of the timer
    callback; the room object stays as the interrupted handler left it. *)
Theorem C8_end_of_game_throws_on_empty_room :
  exists st room,
    run both_move_on initial = Throw reduce_error st /\
    heap st !! 0 = Some room /\
    rid room = "r" /\ players room = [] /\ round room = 6 /\
    phase room = intermission /\
    JSMap.get "r" (rooms st) = None /\
    JSMap.get "r" (roomTimers st) = None /\
    checkGameEnd room = Throws reduce_error.
Proof. eexists _, _. split_and!; vm_compute; reflexivity. Qed.

(** The same exception by way of [player:leave], which deletes the room from
    the registry and leaves its timer running as well. *)
Example both_leave_throws :
  exists st, run both_leave initial = Throw reduce_error st /\ rooms st = [].
Proof. eexists. split; vm_compute; reflexivity. Qed.

(** A second exception: an intermission that runs out on an emptied room sets
    [turnIndex] to [NaN]; in the round that starts after the room has been
    joined again, [drawer] is [undefined] and the delivery of the word throws. *)
Example rejoin_after_rotation_throws :
  exists st room,
    run rejoin_after_rotation initial = Throw undefined_error st /\
    heap st !! 0 = Some room /\ turnIndex room = NaN /\ phase room = drawing.
Proof. eexists _, _. split_and!; vm_compute; reflexivity. Qed.

(** ** The drawer that is shown and the drawer that may act *)




(** ** The secret word *)

Section Silent.
Context {A : Type}.

Lemma silent_ret (a : A) : silent (mret a).
Proof. intros st. exists []. by rewrite app_nil_r. Qed.

Lemma silent_gets (f : State -> A) : silent (gets f).
Proof. intros st. exists []. by rewrite app_nil_r. Qed.

Lemma silent_throw msg : silent (throw (A := A) msg).
Proof. intros st. exists []. by rewrite app_nil_r. Qed.

Lemma silent_lift (o : Outcome A) : silent (lift o).
Proof. destruct o; [apply silent_ret|apply silent_throw]. Qed.

Lemma silent_bind {B} (m : M A) (k : A -> M B) :
  silent m -> (forall a, silent (k a)) -> silent (m ≫= k).
Proof.
  intros Hm Hk st. destruct (Hm st) as (new1 & H1 & Hw1).
  change ((m ≫= k) st) with
    (match m st with Ok a st' => k a st' | Throw msg st' => Throw msg st' end).
  destruct (m st) as [a st1|msg st1]; simpl in *.
  - destruct (Hk a st1) as (new2 & H2 & Hw2).
    exists (new1 ++ new2). rewrite H2, H1, app_assoc. split; [done|].
    by apply Forall_app.
  - by exists new1.
Qed.

End Silent.

Lemma silent_modify (f : State -> State) :
  (forall st, sent (f st) = sent st) -> silent (modify f).
Proof. intros Hf st. exists []. simpl. by rewrite Hf, app_nil_r. Qed.

Lemma silent_emit t p : wordless (mkEmit t p) -> silent (emit t p).
Proof. intros Hw st. exists [mkEmit t p]. split; [done|]. by constructor. Qed.

Lemma silent_getRoom a : silent (getRoom a).
Proof.
  intros st. exists []. unfold getRoom. rewrite app_nil_r.
  by destruct (heap st !! a).
Qed.

Ltac silent_step :=
  lazymatch goal with
  | |- silent (mbind _ _) => apply silent_bind; [|intros ?]
  | |- silent (mret _) => apply silent_ret
  | |- silent (gets _) => apply silent_gets
  | |- silent (throw _) => apply silent_throw
  | |- silent (lift _) => apply silent_lift
  | |- silent (getRoom _) => apply silent_getRoom
  | |- silent (emit _ _) => apply silent_emit; by intros ?
  | |- silent (modify _) => apply silent_modify; by intros ?
  | |- silent (modifyRoom _ _) => apply silent_modify; by intros ?
  | |- silent (setTimeout _) => apply silent_modify; by intros ?
  | |- silent (clearTimer _) => apply silent_modify; by intros ?
  | |- silent (when _ _) => unfold when
  | |- silent (if ?b then _ else _) => destruct b
  | |- silent (match ?x with _ => _ end) => destruct x
  end.

Ltac silent_run := repeat silent_step.

Lemma broadcastRoomState_silent now a : silent (broadcastRoomState now a).
Proof. unfold broadcastRoomState. silent_run. Qed.

Lemma broadcastRoomsList_silent : silent broadcastRoomsList.
Proof. unfold broadcastRoomsList. silent_run. Qed.

Lemma startTimer_silent now a d k : silent (startTimer now a d k).
Proof. unfold startTimer. silent_run. Qed.

Create HintDb silent.
Local Hint Resolve broadcastRoomState_silent broadcastRoomsList_silent
  startTimer_silent : silent.

Lemma startRound_silent now rnd a : silent (startRound now rnd a).
Proof. unfold startRound. silent_run; auto with silent. Qed.

Lemma endRound_silent now a why : silent (endRound now a why).
Proof. unfold endRound. silent_run; auto with silent. Qed.

Local Hint Resolve startRound_silent endRound_silent : silent.

Lemma player_join_silent sid roomId name' now rnd :
  silent (player_join sid roomId name' now rnd).
Proof.
  unfold player_join, leavePrevious, enter, settle, getOrCreateRoom, arrive.
  cbv zeta.
  silent_run; auto with silent.
Qed.

Lemma handle_silent i :
  (forall k now, i <> TimeoutFire k now) -> silent (handle i).
Proof.
  intros Hi. destruct i; simpl.
  - apply player_join_silent.
  - unfold player_leave. cbv zeta. silent_run; auto with silent.
  - unfold chat. cbv zeta. silent_run; auto with silent.
  - unfold guess_submit, emitScoreUpdate. cbv zeta. silent_run; auto with silent.
  - unfold draw. cbv zeta. silent_run; auto with silent.
  - unfold round_clear_request. cbv zeta. silent_run; auto with silent.
  - unfold round_start. silent_run; auto with silent.
  - unfold room_close. cbv zeta. silent_run; auto with silent.
  - unfold round_skip. silent_run; auto with silent.
  - unfold game_restart. silent_run; auto with silent.
  - unfold disconnect. cbv zeta. silent_run; auto with silent.
  - unfold rooms_request. silent_run.
  - unfold rooms_request. silent_run.
  - unfold rooms_request. silent_run.
  - unfold bare. destruct ev, arg; first [apply player_join_silent | silent_run].
  - unfold timerTick, onComplete, rotate. silent_run; auto with silent.
  - by destruct (Hi k now).
Qed.

Lemma fire_silent t : (forall d a dr, t <> SendWord d a dr) -> silent (fire t).
Proof.
  intros Ht. destruct t as [d prev|d roomId|d a dr]; simpl;
    [| |by destruct (Ht d a dr)]; silent_run; auto with silent.
Qed.

Lemma silent_sent_since {A} (m : M A) st e w :
  silent m -> e ∈ sent_since st (final (m st)) -> payload e <> round_word w.
Proof.
  intros Hm. destruct (Hm st) as (new & Hsent & Hw).
  rewrite (sent_since_app _ _ _ Hsent). intros Hin.
  by apply (proj1 (Forall_forall _ _) Hw e Hin).
Qed.

Lemma chat_suppressed sid roomId message st a room w :
  JSMap.get (Str.trim roomId) (rooms st) = Some a ->
  heap st !! a = Some room ->
  word room = Some w -> w <> "" ->
  normalize (Str.trim message) = normalize w ->
  chat sid roomId message st = Ok tt st.
Proof.
  intros Hget Hroom Hword Hw Heq.
  destruct (wp_returns (chat sid roomId message) (fun _ st' => st' = st) st)
    as ([] & st' & Hrun & ->); [|done].
  unfold chat. cbv zeta. do 2 wp_known. rewrite Hget. do 2 wp_known.
  rewrite Hword. simpl default. rewrite Heq, String.eqb_refl.
  assert (word_truthy (Some w) = true) as -> by by destruct w.
  repeat (wp_known; try done).
Qed.

Lemma startRound_schedules_word now rnd a st room :
  heap st !! a = Some room ->
  2 <= length (players room) ->
  exists st',
    startRound now rnd a st = Ok tt st' /\
    timeouts st' = timeouts st ++
      [SendWord (now + 50) a (option_map (fun d => (oid d, id d)) (currentDrawer room))].
Proof.
  intros Hroom Hlen.
  destruct (wp_returns (startRound now rnd a)
    (fun _ st' => timeouts st' = timeouts st ++
       [SendWord (now + 50) a (option_map (fun d => (oid d, id d)) (currentDrawer room))])
    st) as ([] & st' & Hrun & Hpost); [|by exists st'].
  unfold startRound. do 2 wp_known.
  assert ((length (players room) <? 2) = false) as -> by (apply Nat.ltb_ge; lia).
  repeat wp_known. done.
Qed.

Lemma timeoutFire_word k now st e w :
  e ∈ sent_since st (final (timeoutFire k now st)) ->
  payload e = round_word w ->
  exists d a o sid room,
    timeouts st !! k = Some (SendWord d a (Some (o, sid))) /\
    heap st !! a = Some room /\
    e = mkEmit (IoTo sid) (round_word (word room)).
Proof.
  unfold timeoutFire.
  change ((gets (fun st => timeouts st !! k) ≫= ?f) st) with (f (timeouts st !! k) st).
  cbv beta. destruct (timeouts st !! k) as [t|] eqn:Hk; last first.
  { unfold sent_since. simpl. rewrite drop_all. by intros ?%elem_of_nil. }
  destruct (due_of t <=? now)%Z; last first.
  { unfold sent_since. simpl. rewrite drop_all. by intros ?%elem_of_nil. }
  change ((modify ?g ≫= ?f) st) with (f tt (g st)). cbv beta.
  set (st1 := with_timeouts (delete k) st).
  change (sent_since st) with (sent_since st1).
  destruct t as [d prev|d roomId|d a dr].
  - intros Hin Hp. by destruct (silent_sent_since _ st1 e w
      (fire_silent (DeletePrevRoom d prev) ltac:(done)) Hin).
  - intros Hin Hp. by destruct (silent_sent_since _ st1 e w
      (fire_silent (DeleteAbandoned d roomId) ltac:(done)) Hin).
  - unfold fire.
    change ((getRoom a ≫= ?f) st1) with
      (match getRoom a st1 with Ok r s => f r s | Throw m s => Throw m s end).
    unfold getRoom. change (heap st1) with (heap st).
    destruct (heap st !! a) as [room|] eqn:Hroom; last first.
    { unfold sent_since. simpl. rewrite drop_all. by intros ?%elem_of_nil. }
    destruct dr as [[o sid]|]; last first.
    { unfold sent_since. simpl. rewrite drop_all. by intros ?%elem_of_nil. }
    unfold sent_since. simpl. rewrite drop_app_length.
    intros ->%list_elem_of_singleton _. by exists d, a, o, sid, room.
Qed.

(** Where the word is sent: the payload of [room:state] does not depend on
    the word of the room; a chat message whose normalized text equals the
    normalized word is dropped, and the handler leaves the whole state as it
    is, so that nothing is broadcast and no guess is counted; [round:word],
    the only event with a field for the word, is emitted by the timeout of
    [startRound] alone, to the channel named by the socket id of the drawer
    object that [startRound] read from the room. *)
Lemma word_only_in_round_word :
  (forall now room w,
     roomStatePayload now (set_word w room) = roomStatePayload now room) /\
  (forall sid roomId message st a room w,
     JSMap.get (Str.trim roomId) (rooms st) = Some a ->
     heap st !! a = Some room ->
     word room = Some w -> w <> "" ->
     normalize (Str.trim message) = normalize w ->
     chat sid roomId message st = Ok tt st) /\
  (forall i st e w,
     e ∈ sent_since st (final (handle i st)) ->
     payload e = round_word w ->
     exists k now d a o sid room,
       i = TimeoutFire k now /\
       timeouts st !! k = Some (SendWord d a (Some (o, sid))) /\
       heap st !! a = Some room /\
       e = mkEmit (IoTo sid) (round_word (word room))) /\
  (forall now rnd a st room,
     heap st !! a = Some room ->
     2 <= length (players room) ->
     exists st',
       startRound now rnd a st = Ok tt st' /\
       timeouts st' = timeouts st ++
         [SendWord (now + 50) a
            (option_map (fun d => (oid d, id d)) (currentDrawer room))]).
Proof.
  split_and!.
  - done.
  - apply chat_suppressed.
  - intros i st e w Hin Hp.
    assert ((exists k now, i = TimeoutFire k now) \/
            (forall k now, i <> TimeoutFire k now)) as [(k & now & ->)|Hi]
      by (destruct i; first [by right | left; eauto]).
    + destruct (timeoutFire_word k now st e w Hin Hp)
        as (d & a & o & sid & room & H1 & H2 & H3).
      by exists k, now, d, a, o, sid, room.
    + by destruct (silent_sent_since (handle i) st e w (handle_silent i Hi) Hin).
  - apply startRound_schedules_word.
Qed.

(** ** Joining another room *)

Section Untouched.
Context (pa a : nat) (R c : string) (Hc : c <> R) (st0 : State).









End Untouched.












Lemma bind_run {A B} (m : M A) (k : A -> M B) st :
  (m ≫= k) st =
    match m st with Ok a st' => k a st' | Throw msg st' => Throw msg st' end.
Proof. reflexivity. Qed.




(** The other path: with Cy in the room too, a [player:leave] of Ann, who
    draws, ends the round and replaces the timer of the round. *)
Example leave_by_drawer_ends_round :
  exists st' room',
    player_leave "a" "r" 20000
      (after (two_joined ++ [PlayerJoin "c" "r" "Cy" 20 0])) = Ok tt st' /\
    heap st' !! 0 = Some room' /\
    phase room' = intermission /\
    JSMap.get "r" (roomTimers st') = Some (mkTimer 0 IntermissionTimer).
Proof. eexists _, _. split_and!; vm_compute; reflexivity. Qed.

Example word_only_in_round_word_two_joined :
  chat "b" "r" "  cAt " (after two_joined) = Ok tt (after two_joined) /\
  exists st',
    startRound 0 0 0 (state_of (room_of [ann 0; bob 0] 1 lobby)) = Ok tt st' /\
    timeouts st' = [SendWord 50 0 (Some (0, "a"))].
Proof.
  destruct word_only_in_round_word as (_ & Hchat & _ & Hstart). split.
  - apply (Hchat "b" "r" "  cAt " (after two_joined) 0
             (mkRoom "r" [ann 0; bob 0] (Some "Cat") 1 (Fin 0) [] drawing (Some 60010%Z))
             "Cat");
      first [vm_compute; reflexivity | vm_compute; discriminate].
  - apply (Hstart 0%Z 0 0 (state_of (room_of [ann 0; bob 0] 1 lobby))
             (room_of [ann 0; bob 0] 1 lobby));
      [vm_compute; reflexivity|vm_compute; lia].
Qed.

(** C4 (the code departs from it): [round:word] does not always go to the
    drawer. The timeout of [startRound] sends, 50 ms after the start of the
    round, the word that the room has then to the socket of the player who
    was the drawer at the start. Ann draws in room [r] and leaves it within
    the 50 ms; Cy joins, and a round with the word "House" starts, with Bob as
    the drawer. The first timeout then runs: the word of the running round
    goes to the socket of Ann, who is no player of the room any more, while
    the delivery to Bob is still pending. *)
Theorem C4_word_is_sent_to_a_socket_that_left :
  exists st room,
    run drawer_left_early initial = Ok tt st /\
    JSMap.get "r" (rooms st) = Some 0 /\
    heap st !! 0 = Some room /\
    phase room = drawing /\ word room = Some "House" /\
    map id (players room) = ["b"; "c"] /\
    id <$> currentDrawer room = Some "b" /\
    JSMap.get "a" (socketToRoom st) = None /\
    timeouts st = [SendWord 80 0 (Some (1, "b"))] /\
    last (sent st) = Some (mkEmit (IoTo "a") (round_word (Some "House"))).
Proof.
  eexists _, _. repeat (split; [vm_compute; reflexivity|]). vm_compute; reflexivity.
Qed.

(** The channel that [round:word] is sent to is named by a socket id, and
    [player:join] lets a socket join the channel of any name: Eve joins the
    room named [a] while Ann, whose socket id that is, draws in room [r], and
    the word of [r] is sent to the channel [a]. *)
Example word_channel_can_be_joined :
  exists st room,
    run joins_drawer_channel initial = Ok tt st /\
    JSMap.get "x" (socketToRoom st) = Some "a" /\
    JSMap.get "r" (rooms st) = Some 0 /\
    heap st !! 0 = Some room /\
    map id (players room) = ["a"; "b"] /\ word room = Some "Cat" /\
    last (sent st) = Some (mkEmit (IoTo "a") (round_word (Some "Cat"))).
Proof.
  eexists _, _. repeat (split; [vm_compute; reflexivity|]). vm_compute; reflexivity.
Qed.

(** ** Normalization, on examples *)

Example normalize_trims_lowers_collapses :
  normalize "  CaT   hOuse  " = "cat house" /\
  normalize "Cat" = normalize " cat " /\
  normalize "" = "" /\
  normalize "   " = "".
Proof. split_and!; vm_compute; reflexivity. Qed.

(** White space and capital letters outside ASCII: a no-break space and an
    em space around the word; the Kelvin sign, whose lower case is [k]; a
    capital sigma at the end of a word and inside one. *)
Example normalize_reads_unicode :
  normalize (Unicode.utf8 [160; 67; 97; 116; 8195]%N) = "cat" /\
  normalize (Unicode.utf8 [82; 111; 99; 8490; 101; 116]%N) = "rocket" /\
  Unicode.codepoints (normalize (Unicode.utf8 [927; 916; 927; 931; 12288; 931; 927]%N))
    = [959; 948; 959; 962; 32; 963; 959]%N.
Proof. split_and!; vm_compute; reflexivity. Qed.

(** ** UTF-8 *)

Module UnicodeFacts.
Import Unicode.

Local Open Scope N_scope.

Lemma byte_ascii n : n < 256 -> byte (ascii_of_N n) = n.
Proof. apply N_ascii_embedding. Qed.

Lemma codepoints_cons c1 s1 :
  codepoints (String c1 s1) =
    let b1 := byte c1 in
    if b1 <? 128 then b1 :: codepoints s1
    else
      match s1 with
      | String c2 s2 =>
          let b2 := byte c2 in
          if is_two b1 b2 then two b1 b2 :: codepoints s2
          else
            match s2 with
            | String c3 s3 =>
                let b3 := byte c3 in
                if is_three b1 b2 b3 then three b1 b2 b3 :: codepoints s3
                else
                  match s3 with
                  | String c4 s4 =>
                      let b4 := byte c4 in
                      if is_four b1 b2 b3 b4
                      then four b1 b2 b3 b4 :: codepoints s4
                      else stray b1 :: codepoints s1
                  | EmptyString => stray b1 :: codepoints s1
                  end
            | EmptyString => stray b1 :: codepoints s1
            end
      | EmptyString => [stray b1]
      end.
Proof. reflexivity. Qed.

Ltac cmp_solve :=
  repeat match goal with
  | |- context [?a <=? ?b] =>
      first [ rewrite (proj2 (N.leb_le a b)) by lia
            | rewrite (proj2 (N.leb_gt a b)) by lia ]
  | |- context [?a <? ?b] =>
      first [ rewrite (proj2 (N.ltb_lt a b)) by lia
            | rewrite (proj2 (N.ltb_ge a b)) by lia ]
  end.

Lemma bytes_app l s :
  bytes l +:+ s = fold_right (fun b t => String (ascii_of_N b) t) s l.
Proof. induction l as [|b l IH]; simpl; [done|]. by rewrite <- IH. Qed.

(** A code point is read back from its encoding, whatever follows. *)
Lemma codepoints_encode c s :
  c < 1114112 -> codepoints (encode c +:+ s) = c :: codepoints s.
Proof.
  intros Hc. unfold encode.
  pose proof (N.div_mod c 64 ltac:(lia)) as H0.
  pose proof (N.mod_lt c 64 ltac:(lia)) as H0'.
  set (q0 := c / 64) in *. set (r0 := c mod 64) in *.
  pose proof (N.div_mod q0 64 ltac:(lia)) as H1.
  pose proof (N.mod_lt q0 64 ltac:(lia)) as H1'.
  set (q1 := q0 / 64) in *. set (r1 := q0 mod 64) in *.
  pose proof (N.div_mod q1 64 ltac:(lia)) as H2.
  pose proof (N.mod_lt q1 64 ltac:(lia)) as H2'.
  set (q2 := q1 / 64) in *. set (r2 := q1 mod 64) in *.
  assert (c / 4096 = q1) as E1.
  { change 4096 with (64 * 64). by rewrite <- N.Div0.div_div. }
  assert (c / 262144 = q2) as E2.
  { change 262144 with (64 * 64 * 64). by rewrite <- !N.Div0.div_div. }
  rewrite E1, E2. fold r1. fold r2.
  destruct (c <? 128) eqn:C1; [apply N.ltb_lt in C1|apply N.ltb_ge in C1].
  { rewrite bytes_app. cbn [fold_right]. rewrite codepoints_cons. cbv zeta.
    rewrite byte_ascii by lia. by cmp_solve. }
  destruct (c <? 2048) eqn:C2; [apply N.ltb_lt in C2|apply N.ltb_ge in C2].
  { rewrite bytes_app. cbn [fold_right]. rewrite codepoints_cons. cbv zeta.
    rewrite !byte_ascii by lia. unfold is_two, cont. cmp_solve.
    cbn [andb]. f_equal. unfold two. lia. }
  destruct (c <? 65536) eqn:C3; [apply N.ltb_lt in C3|apply N.ltb_ge in C3].
  { rewrite bytes_app. cbn [fold_right]. rewrite codepoints_cons. cbv zeta.
    rewrite !byte_ascii by lia. unfold is_two, is_three, cont, three. cmp_solve.
    cbn [andb]. f_equal. lia. }
  assert ((c <? 1114112) = true) as -> by by apply N.ltb_lt.
  rewrite bytes_app. cbn [fold_right]. rewrite codepoints_cons. cbv zeta.
  rewrite !byte_ascii by lia. unfold is_two, is_three, is_four, cont, three, four.
  cmp_solve. cbn [andb]. f_equal. lia.
Qed.

Lemma codepoints_utf8 l :
  forallb scalar l = true -> codepoints (utf8 l) = l.
Proof.
  induction l as [|c l IH]; [done|]. cbn [forallb utf8].
  intros [Hc Hl]%andb_prop. rewrite codepoints_encode by by apply N.ltb_lt.
  by rewrite IH.
Qed.

Lemma encode_nonempty c : encode c <> "".
Proof. unfold encode. by repeat case_match. Qed.

Lemma truthy_utf8 l : Str.truthy (utf8 l) = match l with [] => false | _ => true end.
Proof.
  destruct l as [|c l]; [done|]. cbn [utf8].
  pose proof (encode_nonempty c). by destruct (encode c).
Qed.

(** *** The tables *)

Local Arguments is_space : simpl never.
Local Arguments lowerOf : simpl never.
Local Arguments case_ignorable : simpl never.
Local Arguments cased : simpl never.
Local Arguments is_lower : simpl never.
Local Arguments scalar : simpl never.
Local Arguments N.eqb : simpl never.

Lemma assoc_In c t d : assoc c t = Some d -> In (c, d) t.
Proof.
  induction t as [|[k e] t IH]; simpl; [done|].
  destruct (c =? k) eqn:Hk.
  - intros [= ->]. apply N.eqb_eq in Hk as ->. by left.
  - intros H. right. auto.
Qed.

(** A property of the images in the table, checked entry by entry. *)
Lemma lower_table_forall (P : N -> bool) c d :
  forallb (fun e => P e.2) lower_table = true ->
  assoc c lower_table = Some d -> P d = true.
Proof.
  intros H Hcd%assoc_In. rewrite forallb_forall in H. exact (H (c, d) Hcd).
Qed.

Lemma lowerOf_spec (P : N -> list N -> Prop) c :
  P 304 [105; 775] ->
  (forall d, assoc c lower_table = Some d -> c <> 304 -> P c [d]) ->
  (assoc c lower_table = None -> c <> 304 -> P c [c]) ->
  P c (lowerOf c).
Proof.
  intros H1 H2 H3. unfold lowerOf. destruct (c =? 304) eqn:E.
  - apply N.eqb_eq in E as ->. exact H1.
  - apply N.eqb_neq in E. destruct (assoc c lower_table) eqn:Ha; auto.
Qed.

Lemma lowerOf_is_lower c : forallb is_lower (lowerOf c) = true.
Proof.
  apply (lowerOf_spec (fun _ l => forallb is_lower l = true)).
  - vm_compute; reflexivity.
  - intros d Hd _. cbn [forallb]. rewrite andb_true_r.
    apply (lower_table_forall is_lower c d); [vm_compute; reflexivity|exact Hd].
  - intros Hnone Hc. cbn [forallb]. rewrite andb_true_r. unfold is_lower, lowerOf.
    rewrite (proj2 (N.eqb_neq c 304)) by done. rewrite Hnone, N.eqb_refl, andb_true_r.
    apply negb_true_iff, N.eqb_neq. intros ->. vm_compute in Hnone. discriminate.
Qed.

Lemma lowerOf_nonspace c :
  is_space c = false -> forallb (fun d => negb (is_space d)) (lowerOf c) = true.
Proof.
  apply (lowerOf_spec
    (fun c l => is_space c = false -> forallb (fun d => negb (is_space d)) l = true)).
  - vm_compute; reflexivity.
  - intros d Hd _ _. cbn [forallb]. rewrite andb_true_r.
    apply (lower_table_forall (fun d => negb (is_space d)) c d);
      [vm_compute; reflexivity|exact Hd].
  - intros _ _ Hc. cbn [forallb]. by rewrite Hc.
Qed.

Lemma lowerOf_scalar c : scalar c = true -> forallb scalar (lowerOf c) = true.
Proof.
  apply (lowerOf_spec (fun c l => scalar c = true -> forallb scalar l = true)).
  - vm_compute; reflexivity.
  - intros d Hd _ _. cbn [forallb]. rewrite andb_true_r.
    apply (lower_table_forall scalar c d); [vm_compute; reflexivity|exact Hd].
  - intros _ _ Hc. cbn [forallb]. by rewrite Hc.
Qed.

Lemma lowerOf_nonempty c : lowerOf c <> [].
Proof. by apply (lowerOf_spec (fun _ l => l <> [])). Qed.

Lemma is_space_cases c :
  is_space c = true ->
  In c [9; 10; 11; 12; 13; 32; 160; 5760; 8192; 8193; 8194; 8195; 8196; 8197;
        8198; 8199; 8200; 8201; 8202; 8232; 8233; 8239; 8287; 12288; 65279].
Proof.
  unfold is_space.
  rewrite !orb_true_iff, !andb_true_iff, !N.leb_le, !N.eqb_eq.
  intros H. cbn [In]. lia.
Qed.

(** White space has no case. *)
Lemma space_facts c :
  is_space c = true ->
  lowerOf c = [c] /\ (c =? 931) = false /\
  cased c = false /\ is_lower c = true /\ scalar c = true.
Proof.
  intros H%is_space_cases. cbn [In] in H.
  repeat (destruct H as [<-|H]; [vm_compute; repeat split; reflexivity|]). done.
Qed.

Lemma is_lower_spec c :
  is_lower c = true -> (c =? 931) = false /\ lowerOf c = [c].
Proof.
  unfold is_lower. intros [Hs Hl]%andb_prop. split; [by apply negb_true_iff|].
  destruct (lowerOf c) as [|d [|]]; try done. by apply N.eqb_eq in Hl as ->.
Qed.

(** *** [lower] *)

Lemma lower_cons b c l : lower b (c :: l) = lower_at b c l ++ lower (c :: b) l.
Proof. reflexivity. Qed.

Lemma lower_at_is_lower b c l : forallb is_lower (lower_at b c l) = true.
Proof.
  unfold lower_at. destruct (c =? 931); [|apply lowerOf_is_lower].
  destruct (final_sigma b l); vm_compute; reflexivity.
Qed.

Lemma lower_at_nonspace b c l :
  is_space c = false ->
  forallb (fun d => negb (is_space d)) (lower_at b c l) = true.
Proof.
  intros Hc. unfold lower_at. destruct (c =? 931); [|by apply lowerOf_nonspace].
  destruct (final_sigma b l); vm_compute; reflexivity.
Qed.

Lemma lower_at_scalar b c l :
  scalar c = true -> forallb scalar (lower_at b c l) = true.
Proof.
  intros Hc. unfold lower_at. destruct (c =? 931); [|by apply lowerOf_scalar].
  destruct (final_sigma b l); vm_compute; reflexivity.
Qed.

Lemma lower_at_nonempty b c l : lower_at b c l <> [].
Proof.
  unfold lower_at. destruct (c =? 931); [|apply lowerOf_nonempty].
  by destruct (final_sigma b l).
Qed.

Lemma lower_at_space b c l : is_space c = true -> lower_at b c l = [c].
Proof.
  intros (H1 & H2 & _)%space_facts. unfold lower_at. by rewrite H2.
Qed.

Lemma lower_at_fixed b c l : is_lower c = true -> lower_at b c l = [c].
Proof. intros [H1 H2]%is_lower_spec. unfold lower_at. by rewrite H1. Qed.

Lemma lower_at_ctx b b' c l l' :
  meets_cased b = meets_cased b' -> meets_cased l = meets_cased l' ->
  lower_at b c l = lower_at b' c l'.
Proof. intros Hb Hl. unfold lower_at, final_sigma. by rewrite Hb, Hl. Qed.

Lemma meets_cased_cons b b' c :
  meets_cased b = meets_cased b' -> meets_cased (c :: b) = meets_cased (c :: b').
Proof. intros H. simpl. by rewrite H. Qed.

(** White space is not cased; U+FEFF is case-ignorable. *)
Lemma meets_cased_space c l :
  is_space c = true -> meets_cased l = false -> meets_cased (c :: l) = false.
Proof.
  intros (_ & _ & H1 & _)%space_facts Hl. simpl. rewrite H1, Hl.
  by destruct (case_ignorable c).
Qed.

(** [lower] reads what is before through [meets_cased] only. *)
Lemma lower_ctx b b' l :
  meets_cased b = meets_cased b' -> lower b l = lower b' l.
Proof.
  revert b b'. induction l as [|c l IH]; intros b b' Hb; [done|].
  rewrite !lower_cons. f_equal; [by apply lower_at_ctx|].
  by apply IH, meets_cased_cons.
Qed.

Lemma lower_is_lower b l : forallb is_lower (lower b l) = true.
Proof.
  revert b. induction l as [|c l IH]; intros b; [done|].
  rewrite lower_cons, forallb_app, lower_at_is_lower. apply IH.
Qed.

Lemma lower_fixed b l : forallb is_lower l = true -> lower b l = l.
Proof.
  revert b. induction l as [|c l IH]; intros b; [done|]. cbn [forallb].
  intros [Hc Hl]%andb_prop. by rewrite lower_cons, lower_at_fixed, IH.
Qed.

Lemma lower_scalar b l : forallb scalar l = true -> forallb scalar (lower b l) = true.
Proof.
  revert b. induction l as [|c l IH]; intros b; [done|]. cbn [forallb].
  intros [Hc Hl]%andb_prop.
  by rewrite lower_cons, forallb_app, lower_at_scalar, IH.
Qed.

Lemma lower_nil b l : lower b l = [] -> l = [].
Proof.
  destruct l as [|c l]; [done|]. rewrite lower_cons.
  pose proof (lower_at_nonempty b c l). by destruct (lower_at b c l).
Qed.

(** *** [trim] *)

Lemma trimStart_first l : first_nonspace (trimStart l) = true.
Proof.
  induction l as [|c l IH]; simpl; [done|].
  destruct (is_space c) eqn:Hc; [done|]. simpl. by rewrite Hc.
Qed.

Lemma trimStart_id l : first_nonspace l = true -> trimStart l = l.
Proof. destruct l as [|c l]; simpl; [done|]. by destruct (is_space c). Qed.

Lemma trimEnd_last l : last_nonspace (trimEnd l) = true.
Proof.
  induction l as [|c l IH]; simpl; [done|].
  destruct (trimEnd l) as [|d t] eqn:Ht.
  - destruct (is_space c) eqn:Hc; simpl; [done|by rewrite Hc].
  - exact IH.
Qed.

Lemma trimEnd_id l : last_nonspace l = true -> trimEnd l = l.
Proof.
  induction l as [|c l IH]; simpl; [done|].
  destruct l as [|d t].
  - simpl. intros Hc. by destruct (is_space c).
  - intros Hl. rewrite (IH Hl). done.
Qed.

Lemma trimEnd_first l : first_nonspace l = true -> first_nonspace (trimEnd l) = true.
Proof.
  destruct l as [|c l]; simpl; [done|]. intros Hc.
  destruct (trimEnd l); [|done].
  destruct (is_space c) eqn:Hs; [done|]. simpl. by rewrite Hs.
Qed.

Lemma trim_ends l :
  first_nonspace (trimEnd (trimStart l)) = true /\
  last_nonspace (trimEnd (trimStart l)) = true.
Proof. split; [apply trimEnd_first, trimStart_first|apply trimEnd_last]. Qed.

Lemma trimStart_scalar l : forallb scalar l = true -> forallb scalar (trimStart l) = true.
Proof.
  induction l as [|c l IH]; [done|]. cbn [forallb trimStart].
  intros [Hc Hl]%andb_prop. destruct (is_space c); [by apply IH|].
  cbn [forallb]. by rewrite Hc, Hl.
Qed.

Lemma trimEnd_scalar l : forallb scalar l = true -> forallb scalar (trimEnd l) = true.
Proof.
  induction l as [|c l IH]; [done|]. cbn [forallb trimEnd].
  intros [Hc Hl]%andb_prop. specialize (IH Hl).
  destruct (trimEnd l) as [|d t].
  - destruct (is_space c); [done|]. cbn [forallb]. by rewrite Hc.
  - cbn [forallb] in *. by rewrite Hc.
Qed.

Lemma trimEnd_nil l : trimEnd l = [] -> forallb is_space l = true.
Proof.
  induction l as [|c l IH]; [done|]. cbn [trimEnd forallb].
  destruct (trimEnd l) as [|d t]; [|done].
  destruct (is_space c); [|done]. intros _. by apply IH.
Qed.

Lemma meets_cased_spaces l : forallb is_space l = true -> meets_cased l = false.
Proof.
  induction l as [|c l IH]; [done|]. cbn [forallb].
  intros [Hc Hl]%andb_prop. by apply meets_cased_space, IH.
Qed.

Lemma meets_cased_trimEnd l : meets_cased (trimEnd l) = meets_cased l.
Proof.
  induction l as [|c l IH]; [done|]. cbn [trimEnd].
  destruct (trimEnd l) as [|d t] eqn:Ht.
  - pose proof (meets_cased_spaces l (trimEnd_nil l Ht)) as Hl.
    destruct (is_space c) eqn:Hc.
    + symmetry. by apply meets_cased_space.
    + simpl. by rewrite Hl.
  - simpl in *. by rewrite IH.
Qed.

Lemma trimEnd_app x y :
  trimEnd (x ++ y) = match trimEnd y with [] => trimEnd x | t => x ++ t end.
Proof.
  induction x as [|c x IH]; [cbn [app trimEnd]; by destruct (trimEnd y)|].
  cbn [app trimEnd]. rewrite IH. destruct (trimEnd y) as [|d t]; [done|].
  by destruct x.
Qed.

Lemma trimEnd_nonspace l :
  forallb (fun d => negb (is_space d)) l = true -> trimEnd l = l.
Proof.
  induction l as [|c l IH]; [done|]. cbn [forallb trimEnd].
  intros [Hc Hl]%andb_prop. rewrite (IH Hl).
  destruct l; [|done]. apply negb_true_iff in Hc. by rewrite Hc.
Qed.

Lemma trimStart_nonspace l y :
  l <> [] -> forallb (fun d => negb (is_space d)) l = true ->
  trimStart (l ++ y) = l ++ y.
Proof.
  destruct l as [|c l]; [done|]. intros _. cbn [forallb app trimStart].
  intros [Hc _]%andb_prop. apply negb_true_iff in Hc. by rewrite Hc.
Qed.

(** *** [trim] and [lower] *)

Lemma trimStart_lower b l :
  meets_cased b = false -> trimStart (lower b l) = lower [] (trimStart l).
Proof.
  revert b. induction l as [|c l IH]; intros b Hb; [done|].
  rewrite lower_cons. cbn [trimStart]. destruct (is_space c) eqn:Hc.
  - rewrite lower_at_space by done. cbn [app trimStart]. rewrite Hc.
    apply IH. by apply meets_cased_space.
  - rewrite trimStart_nonspace;
      [|apply lower_at_nonempty|by apply lower_at_nonspace].
    rewrite <- lower_cons. apply lower_ctx. by rewrite Hb.
Qed.

Lemma trimEnd_lower b l : trimEnd (lower b l) = lower b (trimEnd l).
Proof.
  revert b. induction l as [|c l IH]; intros b; [done|].
  rewrite lower_cons, trimEnd_app, IH. cbn [trimEnd].
  destruct (trimEnd l) as [|d t] eqn:Ht.
  - cbn [lower]. destruct (is_space c) eqn:Hc.
    + rewrite lower_at_space by done. cbn [trimEnd]. by rewrite Hc.
    + rewrite trimEnd_nonspace by by apply lower_at_nonspace.
      rewrite lower_cons. cbn [lower]. rewrite app_nil_r.
      apply lower_at_ctx; [done|]. by rewrite <- meets_cased_trimEnd, Ht.
  - rewrite (lower_cons b c (d :: t)).
    assert (lower_at b c l = lower_at b c (d :: t)) as ->.
    { apply lower_at_ctx; [done|]. by rewrite <- meets_cased_trimEnd, Ht. }
    destruct (lower (c :: b) (d :: t)) eqn:Hlow; [|done].
    by apply lower_nil in Hlow.
Qed.

Lemma lower_first b l : first_nonspace l = true -> first_nonspace (lower b l) = true.
Proof.
  destruct l as [|c l]; [done|]. cbn [first_nonspace].
  intros Hc%negb_true_iff. rewrite lower_cons.
  pose proof (lower_at_nonempty b c l) as Hne.
  pose proof (lower_at_nonspace b c l Hc) as Hns.
  destruct (lower_at b c l) as [|d x]; [done|].
  cbn [forallb] in Hns. apply andb_prop in Hns as [Hd _]. exact Hd.
Qed.

Lemma last_nonspace_app x y :
  y <> [] -> last_nonspace (x ++ y) = last_nonspace y.
Proof.
  intros Hy. induction x as [|c x IH]; [done|]. cbn [app].
  destruct (x ++ y) eqn:E; [|exact IH].
  by destruct x, y.
Qed.

Lemma last_nonspace_all l :
  forallb (fun d => negb (is_space d)) l = true -> last_nonspace l = true.
Proof.
  induction l as [|c l IH]; [done|]. cbn [forallb].
  intros [Hc Hl]%andb_prop. destruct l; [exact Hc|]. by apply IH.
Qed.

Lemma lower_last b l : last_nonspace l = true -> last_nonspace (lower b l) = true.
Proof.
  revert b. induction l as [|c l IH]; intros b; [done|].
  rewrite lower_cons. destruct l as [|d t].
  - cbn [last_nonspace lower]. rewrite app_nil_r.
    intros Hc%negb_true_iff. by apply last_nonspace_all, lower_at_nonspace.
  - intros Hl. rewrite last_nonspace_app.
    + by apply IH.
    + intros Hnil%lower_nil. done.
Qed.

(** *** [collapse] *)

Lemma collapse_first l :
  first_nonspace l = true -> first_nonspace (collapse false l) = true.
Proof.
  destruct l as [|c l]; simpl; [done|]. intros Hc.
  apply negb_true_iff in Hc. rewrite Hc. simpl. by rewrite Hc.
Qed.

Lemma last_nonspace_cons c l : l <> [] -> last_nonspace (c :: l) = last_nonspace l.
Proof. by destruct l. Qed.

Lemma collapse_nonempty b l :
  l <> [] -> last_nonspace l = true -> collapse b l <> [].
Proof.
  revert b. induction l as [|c l IH]; intros b Hne; [done|].
  destruct l as [|d t].
  - simpl. intros Hc. apply negb_true_iff in Hc. by rewrite Hc.
  - rewrite last_nonspace_cons by done. intros Hl.
    assert (d :: t <> []) as Hs by done.
    revert IH Hl Hs. generalize (d :: t). intros l IH Hl Hs. cbn [collapse].
    destruct (is_space c); [destruct b|]; try done. by apply IH.
Qed.

Lemma collapse_last b l :
  last_nonspace l = true -> last_nonspace (collapse b l) = true.
Proof.
  revert b. induction l as [|c l IH]; intros b; [done|].
  destruct l as [|d t].
  - simpl. intros Hc. apply negb_true_iff in Hc. rewrite Hc. simpl. by rewrite Hc.
  - rewrite last_nonspace_cons by done. intros Hl.
    assert (d :: t <> []) as Hs by done.
    revert IH Hl Hs. generalize (d :: t). intros l IH Hl Hs. cbn [collapse].
    destruct (is_space c); [destruct b|].
    + by apply IH.
    + rewrite last_nonspace_cons; [by apply IH|by apply collapse_nonempty].
    + rewrite last_nonspace_cons; [by apply IH|by apply collapse_nonempty].
Qed.

Lemma collapse_single b l : single_blanks b (collapse b l) = true.
Proof.
  revert b. induction l as [|c l IH]; intros b; simpl; [done|].
  destruct (is_space c) eqn:Hc.
  - destruct b; [apply IH|]. simpl. apply IH.
  - simpl. rewrite Hc. apply IH.
Qed.

Lemma collapse_id b l : single_blanks b l = true -> collapse b l = l.
Proof.
  revert b. induction l as [|c l IH]; intros b; simpl; [done|].
  destruct (is_space c) eqn:Hc.
  - intros [[Hb Hblank]%andb_prop Hs]%andb_prop.
    apply negb_true_iff in Hb as ->. apply N.eqb_eq in Hblank as ->.
    by rewrite (IH true Hs).
  - intros Hs. by rewrite (IH false Hs).
Qed.

Lemma collapse_is_lower b l :
  forallb is_lower l = true -> forallb is_lower (collapse b l) = true.
Proof.
  revert b. induction l as [|c l IH]; intros b; cbn [forallb collapse]; [done|].
  intros [Hc Hl]%andb_prop.
  destruct (is_space c); [destruct b|]; cbn [forallb]; rewrite ?Hc;
    first [by apply IH | change (is_lower 32) with true; by apply IH].
Qed.

Lemma collapse_scalar b l :
  forallb scalar l = true -> forallb scalar (collapse b l) = true.
Proof.
  revert b. induction l as [|c l IH]; intros b; cbn [forallb collapse]; [done|].
  intros [Hc Hl]%andb_prop.
  destruct (is_space c); [destruct b|]; cbn [forallb]; rewrite ?Hc;
    first [by apply IH | change (scalar 32) with true; by apply IH].
Qed.

Lemma collapse_nil l : collapse false l = [] -> l = [].
Proof. destruct l as [|c l]; [done|]. simpl. by destruct (is_space c). Qed.

(** *** [normalize], on code points *)

Lemma normalized_normal l :
  first_nonspace (normalized l) = true /\ last_nonspace (normalized l) = true /\
  single_blanks false (normalized l) = true /\
  forallb is_lower (normalized l) = true.
Proof.
  unfold normalized. destruct (trim_ends l) as [H1 H2]. split_and!.
  - by apply collapse_first, lower_first.
  - by apply collapse_last, lower_last.
  - apply collapse_single.
  - apply collapse_is_lower, lower_is_lower.
Qed.

Lemma normalized_fixed l :
  first_nonspace l = true -> last_nonspace l = true ->
  single_blanks false l = true -> forallb is_lower l = true ->
  normalized l = l.
Proof.
  intros H1 H2 H3 H4. unfold normalized.
  by rewrite trimStart_id, trimEnd_id, lower_fixed, collapse_id.
Qed.

Lemma normalized_trim l : normalized (trimEnd (trimStart l)) = normalized l.
Proof.
  unfold normalized. destruct (trim_ends l) as [H1 H2].
  by rewrite (trimStart_id _ H1), (trimEnd_id _ H2).
Qed.

Lemma normalized_lower l : normalized (lower [] l) = normalized l.
Proof.
  unfold normalized.
  rewrite trimStart_lower by done. rewrite trimEnd_lower.
  by rewrite (lower_fixed [] (lower [] _)) by apply lower_is_lower.
Qed.

Lemma normalized_scalar l :
  forallb scalar l = true -> forallb scalar (normalized l) = true.
Proof.
  intros Hl. unfold normalized.
  by apply collapse_scalar, lower_scalar, trimEnd_scalar, trimStart_scalar.
Qed.

(** *** The string functions *)

Lemma codepoints_trim s :
  wellformed s = true ->
  codepoints (Str.trim s) = trimEnd (trimStart (codepoints s)).
Proof.
  intros Hs. unfold Str.trim. by apply codepoints_utf8, trimEnd_scalar, trimStart_scalar.
Qed.

Lemma codepoints_toLowerCase s :
  wellformed s = true -> codepoints (Str.toLowerCase s) = lower [] (codepoints s).
Proof. intros Hs. unfold Str.toLowerCase. by apply codepoints_utf8, lower_scalar. Qed.

Lemma wellformed_trim s : wellformed s = true -> wellformed (Str.trim s) = true.
Proof.
  intros Hs. unfold wellformed. rewrite codepoints_trim by done.
  by apply trimEnd_scalar, trimStart_scalar.
Qed.

Lemma wellformed_toLowerCase s :
  wellformed s = true -> wellformed (Str.toLowerCase s) = true.
Proof.
  intros Hs. unfold wellformed. rewrite codepoints_toLowerCase by done.
  by apply lower_scalar.
Qed.

Lemma normalize_utf8 s :
  wellformed s = true -> normalize s = utf8 (normalized (codepoints s)).
Proof.
  intros Hs. unfold normalize, Str.collapse.
  rewrite codepoints_toLowerCase by by apply wellformed_trim.
  by rewrite codepoints_trim.
Qed.

Lemma codepoints_normalize s :
  wellformed s = true -> codepoints (normalize s) = normalized (codepoints s).
Proof.
  intros Hs. rewrite normalize_utf8 by done.
  by apply codepoints_utf8, normalized_scalar.
Qed.

Lemma wellformed_normalize s : wellformed s = true -> wellformed (normalize s) = true.
Proof.
  intros Hs. unfold wellformed. rewrite codepoints_normalize by done.
  by apply normalized_scalar.
Qed.

End UnicodeFacts.

(** X1. For every string that encodes a JavaScript string (no byte astray),
    [normalize] returns a string in normal form: no white space at either
    end, every run of white space a single blank, every code point its own
    lower case; white space and lower case are those of Unicode, as [trim],
    [\s] and [toLowerCase] read them. Normalising a second time changes
    nothing. *)
Theorem normalize_idempotent s :
  wellformed s = true ->
  normal (normalize s) = true /\ normalize (normalize s) = normalize s.
Proof.
  intros Hs.
  destruct (UnicodeFacts.normalized_normal (Unicode.codepoints s)) as (H1 & H2 & H3 & H4).
  split.
  - unfold normal. cbv zeta. rewrite UnicodeFacts.codepoints_normalize by done.
    by rewrite H1, H2, H3, H4.
  - rewrite (UnicodeFacts.normalize_utf8 (normalize s))
      by by apply UnicodeFacts.wellformed_normalize.
    rewrite UnicodeFacts.codepoints_normalize by done.
    rewrite UnicodeFacts.normalized_fixed by done.
    by rewrite <- UnicodeFacts.normalize_utf8.
Qed.

Lemma normalize_idempotent_witness :
  normal (normalize (Unicode.utf8 [160; 67; 97; 84; 8195; 12288; 927; 916; 927; 931; 32]%N))
    = true /\
  normalize (normalize (Unicode.utf8 [160; 67; 97; 84; 8195; 12288; 927; 916; 927; 931; 32]%N))
    = normalize (Unicode.utf8 [160; 67; 97; 84; 8195; 12288; 927; 916; 927; 931; 32]%N).
Proof.
  apply (normalize_idempotent
    (Unicode.utf8 [160; 67; 97; 84; 8195; 12288; 927; 916; 927; 931; 32]%N)).
  vm_compute; reflexivity.
Defined.

(** X2. For every string that encodes a JavaScript string, [normalize] does
    not see the white space around its argument nor the case of its letters:
    trimming the argument first, or lowering it first, gives the same
    result; and the result is the empty string, hence falsy, exactly when
    the trimmed argument is. *)
Theorem normalize_ignores_case_and_padding s :
  wellformed s = true ->
  normalize (Str.trim s) = normalize s /\
  normalize (Str.toLowerCase s) = normalize s /\
  Str.truthy (normalize s) = Str.truthy (Str.trim s).
Proof.
  intros Hs. split_and!.
  - rewrite (UnicodeFacts.normalize_utf8 (Str.trim s))
      by by apply UnicodeFacts.wellformed_trim.
    rewrite UnicodeFacts.codepoints_trim, UnicodeFacts.normalized_trim by done.
    by rewrite <- UnicodeFacts.normalize_utf8.
  - rewrite (UnicodeFacts.normalize_utf8 (Str.toLowerCase s))
      by by apply UnicodeFacts.wellformed_toLowerCase.
    rewrite UnicodeFacts.codepoints_toLowerCase, UnicodeFacts.normalized_lower by done.
    by rewrite <- UnicodeFacts.normalize_utf8.
  - rewrite UnicodeFacts.normalize_utf8 by done. unfold Str.trim, normalized.
    rewrite !UnicodeFacts.truthy_utf8.
    destruct (Unicode.trimEnd (Unicode.trimStart (Unicode.codepoints s))) as [|c t] eqn:Ht;
      [done|].
    destruct (Unicode.collapse false (Unicode.lower [] (c :: t))) eqn:Hc; [|done].
    by apply UnicodeFacts.collapse_nil, UnicodeFacts.lower_nil in Hc.
Qed.

Lemma normalize_ignores_case_and_padding_witness :
  normalize (Str.trim (Unicode.utf8 [8195; 82; 111; 99; 8490; 69; 84; 160]%N)) = "rocket" /\
  normalize (Str.toLowerCase (Unicode.utf8 [8195; 82; 111; 99; 8490; 69; 84; 160]%N))
    = "rocket".
Proof.
  destruct (normalize_ignores_case_and_padding
              (Unicode.utf8 [8195; 82; 111; 99; 8490; 69; 84; 160]%N))
    as (H1 & H2 & _); [vm_compute; reflexivity|].
  rewrite H1, H2. split; vm_compute; reflexivity.
Defined.

(** ** The word list *)

Lemma pickWord_in rnd : pickWord rnd ∈ prompts.
Proof.
  unfold pickWord. apply list_elem_of_In, nth_In, Nat.mod_upper_bound. done.
Qed.

(** X3. [pickWord] always returns one of the fourteen prompts, whose
    normal form is not empty, and every prompt is returned for some random
    draw. *)
Theorem pickWord_in_prompts :
  (forall rnd, pickWord rnd ∈ prompts /\ Str.truthy (normalize (pickWord rnd)) = true) /\
  (forall w, w ∈ prompts -> exists rnd, pickWord rnd = w).
Proof.
  split.
  - intros rnd. split; [apply pickWord_in|]. unfold pickWord.
    assert (rnd mod length prompts < length prompts) as Hlt.
    { apply Nat.mod_upper_bound. done. }
    revert Hlt. generalize (rnd mod length prompts). intros n Hn.
    do 14 (destruct n as [|n]; [vm_compute; done|]).
    simpl in Hn. lia.
  - intros w Hw. apply list_elem_of_lookup_1 in Hw as [i Hi].
    exists i. unfold pickWord.
    assert (i < length prompts) as Hlt by by eapply lookup_lt_Some.
    rewrite Nat.mod_small by done.
    apply nth_lookup_Some with (d := "Cat") in Hi. done.
Qed.

Lemma pickWord_in_prompts_witness : exists rnd, pickWord rnd = "Pizza".
Proof.
  apply (proj2 pickWord_in_prompts "Pizza"). unfold prompts. repeat constructor.
Defined.

(** ** The end-of-game evaluation, when it lets the game go on *)

(** X4. When [checkGameEnd] returns, the game goes on exactly when the round
    number is below [MAX_ROUNDS] and every score is below [WINNING_SCORE];
    then no winner and no reason are reported.  When the game is over, the
    winner is a player of the room and a reason is given. *)
Theorem checkGameEnd_verdict room ge :
  checkGameEnd room = Returns ge ->
  (ended ge = false <->
     round room < MAX_ROUNDS /\ Forall (fun p => score p < WINNING_SCORE) (players room)) /\
  (ended ge = false -> winner ge = None /\ reason ge = None) /\
  (ended ge = true ->
     exists w, winner ge = Some w /\ w ∈ players room /\ is_Some (reason ge)).
Proof.
  unfold checkGameEnd. destruct (MAX_ROUNDS <=? round room) eqn:Hcap.
  - apply Nat.leb_le in Hcap.
    destruct (players room) as [|p0 ps] eqn:Hps; [done|].
    assert (fold_left higher ps p0 ∈ p0 :: ps) as Hin.
    { clear. revert p0. induction ps as [|q ps IH]; intros p0; simpl; [by left|].
      unfold higher at 2. destruct (score p0 <? score q).
      - right. apply IH.
      - specialize (IH p0). apply elem_of_cons in IH as [->|IH]; [by left|].
        right. by right. }
    destruct (1 <? _); intros [= <-]; simpl; (split_and!; [split|done|]);
      try done; try (intros [? _]; lia); intros _; eauto.
  - apply Nat.leb_gt in Hcap.
    destruct (find _ (players room)) as [w|] eqn:Hfind; intros [= <-]; simpl.
    + apply find_some in Hfind as [Hin Hw]. apply Nat.leb_le in Hw.
      split_and!; [split; [done|]|done|].
      * intros [_ Hall]. rewrite Forall_forall in Hall.
        apply list_elem_of_In in Hin. specialize (Hall w Hin). cbv beta in Hall. lia.
      * intros _. exists w. split_and!; [done| |done]. by apply list_elem_of_In.
    + split_and!; [split; [intros _|done]|done|done].
      split; [done|]. apply Forall_forall. intros p Hp%list_elem_of_In.
      pose proof (find_none _ _ Hfind p Hp) as Hlow. cbv beta in Hlow.
      apply Nat.leb_gt in Hlow. done.
Qed.

Lemma checkGameEnd_verdict_witness :
  checkGameEnd (room_of [ann 3; bob 4] 2 drawing) = Returns (mkGameEnd false None None) /\
  (ended (mkGameEnd false None None) = false <->
     round (room_of [ann 3; bob 4] 2 drawing) < MAX_ROUNDS /\
     Forall (fun p => score p < WINNING_SCORE) (players (room_of [ann 3; bob 4] 2 drawing))).
Proof.
  split; [vm_compute; reflexivity|].
  apply (checkGameEnd_verdict (room_of [ann 3; bob 4] 2 drawing)
           (mkGameEnd false None None)).
  vm_compute; reflexivity.
Defined.

(** ** The payload of [room:state] *)

(** X5. The payload of [room:state] lists the connected players only; the
    turn player it names is one of them; the drawer is named only outside
    the lobby and is then the turn player; and no turn player is named
    exactly when nobody is connected or the turn index is [NaN]. *)
Theorem roomStatePayload_drawer now room :
  let p := roomStatePayload now room in
  rs_players p = map info (connectedPlayers room) /\
  Forall (fun q => connected q = true) (connectedPlayers room) /\
  (forall d, rs_turnPlayerId p = Some d -> d ∈ map pi_id (rs_players p)) /\
  (forall d, rs_drawerId p = Some d ->
     phase room <> lobby /\ rs_turnPlayerId p = Some d) /\
  (phase room <> lobby -> rs_drawerId p = rs_turnPlayerId p) /\
  (rs_turnPlayerId p = None <->
     connectedPlayers room = [] \/ turnIndex room = NaN).
Proof.
  intros p. subst p. unfold roomStatePayload. cbn [rs_players rs_turnPlayerId rs_drawerId].
  split_and!.
  - done.
  - unfold connectedPlayers. apply Forall_forall. intros q Hq.
    by apply list_elem_of_filter in Hq as [Hq _].
  - intros d. unfold displayedDrawer.
    destruct (0 <? length (connectedPlayers room)); [|done].
    destruct (Num.index _ _) as [q|] eqn:Hq; [|done]. intros [= <-].
    unfold Num.index in Hq. destruct (Num.rem _ _); [|done].
    apply list_elem_of_lookup_2 in Hq.
    rewrite <- list_fmap_compose. apply list_elem_of_fmap. by exists q.
  - intros d. destruct (phase room); simpl; done.
  - intros Hph. destruct (phase room); simpl; done.
  - unfold displayedDrawer.
    destruct (connectedPlayers room) as [|q qs] eqn:Hcs.
    + simpl. split; [by left|done].
    + change (0 <? length (q :: qs)) with true. cbv iota.
      destruct (turnIndex room) as [t|].
      * split; [|by intros [|]].
        assert (t mod length (q :: qs) < length (q :: qs)) as Hlt.
        { apply Nat.mod_upper_bound. done. }
        apply lookup_lt_is_Some_2 in Hlt as [x Hx].
        unfold Num.rem, Num.index. cbn [length] in *. by rewrite Hx.
      * split; [by right|done].
Qed.

Lemma roomStatePayload_drawer_witness :
  rs_drawerId (roomStatePayload 0 (room_of [ann 0; bob 0] 1 drawing)) = Some "a" /\
  phase (room_of [ann 0; bob 0] 1 drawing) <> lobby /\
  rs_turnPlayerId (roomStatePayload 0 (room_of [ann 0; bob 0] 1 drawing)) = Some "a".
Proof.
  split; [vm_compute; reflexivity|].
  apply (roomStatePayload_drawer 0 (room_of [ann 0; bob 0] 1 drawing)).
  vm_compute; reflexivity.
Defined.

(** X6. The time left in the payload of [room:state]: absent when no end
    of round is set (or it is 0), otherwise the number of seconds to the end
    of the round rounded up, never negative, and 0 exactly when the end has
    been reached. *)
Theorem roomStatePayload_timeLeft now room :
  match roundEndAt room with
  | None => rs_timeLeft (roomStatePayload now room) = None
  | Some e =>
      if (e =? 0)%Z then rs_timeLeft (roomStatePayload now room) = None
      else exists s,
        rs_timeLeft (roomStatePayload now room) = Some s /\
        (0 <= s)%Z /\
        (1000 * (s - 1) < Z.max 0 (e - now) <= 1000 * s)%Z /\
        (s = 0 <-> e <= now)%Z
  end.
Proof.
  unfold roomStatePayload, timeLeftMs. cbn [rs_timeLeft].
  destruct (roundEndAt room) as [e|]; [|done].
  destruct (e =? 0)%Z; [done|]. simpl. eexists. split; [done|].
  unfold ceil_seconds.
  pose proof (Z.div_mod (Z.max 0 (e - now) + 999) 1000 ltac:(lia)) as Hdm.
  pose proof (Z.mod_pos_bound (Z.max 0 (e - now) + 999) 1000 ltac:(lia)) as Hmod.
  split_and!; try lia.
Qed.

(** ** The final scores *)

Lemma filter_insert_desc s x l :
  filter (fun y => pi_score y = s) (insert_desc x l)
  = filter (fun y => pi_score y = s) (x :: l).
Proof.
  induction l as [|y l IH]; simpl; [done|].
  destruct (pi_score x <? pi_score y) eqn:Hxy; [|done].
  apply Nat.ltb_lt in Hxy.
  rewrite !filter_cons in *. rewrite IH.
  repeat case_decide; try done. lia.
Qed.

(** X7. The final scores of [endRound] are sorted by decreasing score,
    are a permutation of the list they are computed from, and entries with
    the same score keep the order they have in that list. *)
Theorem sort_desc_stable l :
  StronglySorted desc (sort_desc l) /\
  sort_desc l ≡ₚ l /\
  (forall s, filter (fun y => pi_score y = s) (sort_desc l)
             = filter (fun y => pi_score y = s) l).
Proof.
  split_and!; [apply sort_desc_sorted|apply sort_desc_perm|].
  intros s. induction l as [|x l IH]; simpl; [done|].
  rewrite filter_insert_desc, !filter_cons, IH. done.
Qed.

(** ** The drawer after a player has left *)

Lemma lookup_delete_drawer {A} (ps : list A) i t :
  t < length ps -> i < length ps -> i <> t ->
  Num.index (delete i ps)
    (Num.rem (turnAfterLeave i (Fin t)) (length (delete i ps)))
  = ps !! t.
Proof.
  intros Ht Hi Hne. unfold turnAfterLeave, Num.ltb, Num.pred0.
  rewrite length_delete by by apply lookup_lt_is_Some_2.
  destruct (length ps - 1) as [|m] eqn:Hm; [lia|].
  destruct (i <? t) eqn:Hit; unfold Num.rem, Num.index.
  - apply Nat.ltb_lt in Hit. rewrite Nat.mod_small by lia.
    rewrite list_lookup_delete_ge by lia. f_equal. lia.
  - apply Nat.ltb_ge in Hit. rewrite Nat.mod_small by lia.
    rewrite list_lookup_delete_lt by lia. done.
Qed.

(** ** The second invariant is kept by every write *)

Module JSMapKeys.
Import JSMap.

Lemma keys_set {V} k (v : V) m k' :
  k' ∈ keys (set k v m) -> k' = k \/ k' ∈ keys m.
Proof.
  unfold keys. induction m as [|[j w] m IH]; simpl.
  - intros ->%list_elem_of_singleton. by left.
  - destruct (String.eqb k j) eqn:Hkj; simpl.
    + apply String.eqb_eq in Hkj as ->. intros [->|H]%elem_of_cons; [by left|].
      right. by right.
    + intros [->|H]%elem_of_cons; [right; by left|].
      destruct (IH H) as [->|H']; [by left|right; by right].
Qed.

Lemma keys_delete {V} k (m : t V) k' :
  k' ∈ keys (delete k m) -> k' ∈ keys m.
Proof.
  unfold keys. induction m as [|[j w] m IH]; simpl; [done|].
  destruct (String.eqb k j); simpl.
  - intros H. right. by apply IH.
  - intros [->|H]%elem_of_cons; [by left|right; by apply IH].
Qed.

Lemma unique_set {V} k (v : V) m : unique_keys m -> unique_keys (set k v m).
Proof.
  unfold unique_keys. induction m as [|[j w] m IH]; simpl.
  - intros _. apply NoDup_singleton.
  - intros [Hj Hm]%NoDup_cons. destruct (String.eqb k j) eqn:Hkj; simpl.
    + apply String.eqb_eq in Hkj as ->. by apply NoDup_cons.
    + apply NoDup_cons. split; [|by apply IH].
      intros [->|H]%keys_set; [|done]. by rewrite String.eqb_refl in Hkj.
Qed.

Lemma unique_delete {V} k (m : t V) : unique_keys m -> unique_keys (delete k m).
Proof.
  unfold unique_keys. induction m as [|[j w] m IH]; simpl; [done|].
  intros [Hj Hm]%NoDup_cons. destruct (String.eqb k j); simpl; [by apply IH|].
  apply NoDup_cons. split; [|by apply IH]. by intros H%keys_delete.
Qed.

(** With unique keys, an entry of the map is what [get] finds. *)
Lemma get_entry {V} k (v : V) m :
  unique_keys m -> (k, v) ∈ m -> get k m = Some v.
Proof.
  unfold unique_keys, keys. induction m as [|[j w] m IH]; simpl.
  - by intros _ ?%elem_of_nil.
  - intros [Hj Hm]%NoDup_cons [[= <- <-]|Hin]%elem_of_cons.
    + by rewrite String.eqb_refl.
    + destruct (String.eqb k j) eqn:Hkj; [|by apply IH].
      apply String.eqb_eq in Hkj as ->. destruct Hj.
      apply list_elem_of_fmap. by exists (j, v).
Qed.

End JSMapKeys.

Lemma Forall_update_first {A} (P : A -> Prop) f g l :
  (forall x, P x -> P (g x)) -> Forall P l -> Forall P (update_first f g l).
Proof.
  intros Hg. induction 1 as [|x l Hx Hl IH]; simpl; [done|].
  destruct (f x); constructor; auto.
Qed.

Lemma Forall_filter_keep {A} (P : A -> Prop) (Q : A -> Prop)
    `{forall x, Decision (Q x)} l :
  Forall P l -> Forall P (filter Q l).
Proof.
  intros Hl. apply Forall_forall. intros x [_ Hx]%list_elem_of_filter.
  rewrite Forall_forall in Hl. by apply Hl.
Qed.

Section Inv2Writes.
Context (x : option nat) (st : State).
Implicit Types (f : Room -> Room).

Lemma inv2_sent g : inv2 x st -> inv2 x (with_sent g st).
Proof. done. Qed.

Lemma inv2_nextOid g : inv2 x st -> inv2 x (with_nextOid g st).
Proof. done. Qed.

Lemma inv2_timeouts g : inv2 x st -> inv2 x (with_timeouts g st).
Proof. done. Qed.

Lemma inv2_socketToRoom_set k v :
  inv2 x st -> inv2 x (with_socketToRoom (JSMap.set k v) st).
Proof. intros (H1 & H2 & H3 & H4). split_and!; try done. by apply JSMapKeys.unique_set. Qed.

Lemma inv2_socketToRoom_delete k :
  inv2 x st -> inv2 x (with_socketToRoom (JSMap.delete k) st).
Proof. intros (H1 & H2 & H3 & H4). split_and!; try done. by apply JSMapKeys.unique_delete. Qed.

Lemma inv2_rooms_set k v : inv2 x st -> inv2 x (with_rooms (JSMap.set k v) st).
Proof. intros (H1 & H2 & H3 & H4). split_and!; try done. by apply JSMapKeys.unique_set. Qed.

Lemma inv2_rooms_delete k : inv2 x st -> inv2 x (with_rooms (JSMap.delete k) st).
Proof. intros (H1 & H2 & H3 & H4). split_and!; try done. by apply JSMapKeys.unique_delete. Qed.

Lemma inv2_timers_set k v : inv2 x st -> inv2 x (with_roomTimers (JSMap.set k v) st).
Proof. intros (H1 & H2 & H3 & H4). split_and!; try done. by apply JSMapKeys.unique_set. Qed.

Lemma inv2_timers_delete k : inv2 x st -> inv2 x (with_roomTimers (JSMap.delete k) st).
Proof. intros (H1 & H2 & H3 & H4). split_and!; try done. by apply JSMapKeys.unique_delete. Qed.

Lemma inv2_heap_push r :
  inv2 x st -> steady r -> staged r -> inv2 x (with_heap (fun h => h ++ [r]) st).
Proof.
  intros (H1 & H2 & H3 & H4) Hr1 Hr2. split_and!; try done. simpl.
  intros b r' Hb. apply lookup_app_Some in Hb as [Hb|[_ Hb]]; [by apply H4|].
  apply list_lookup_singleton_Some in Hb as [_ <-]. done.
Qed.

Lemma inv2_modifyRoom b f :
  inv2 x st -> keeps2 f -> inv2 x (with_heap (alter f b) st).
Proof.
  intros (H1 & H2 & H3 & H4) Hf. split_and!; try done. simpl.
  intros a r'. destruct (decide (b = a)) as [->|Hne].
  - rewrite list_lookup_alter_eq. destruct (heap st !! a) as [r|] eqn:Ha; [|done].
    intros [= <-]. destruct (H4 a r Ha) as [Hs Hg], (Hf r) as [Hf1 Hf2]. auto.
  - rewrite list_lookup_alter_ne by done. apply H4.
Qed.

End Inv2Writes.

(** Between two writes to the room object at [a], a write to it has only to
    keep what every write keeps. *)
Lemma inv2_free a f st :
  inv2 (Some a) st -> (forall r, steady r -> steady (f r)) ->
  inv2 (Some a) (with_heap (alter f a) st).
Proof.
  intros (H1 & H2 & H3 & H4) Hf. split_and!; try done. simpl.
  intros b r'. destruct (decide (a = b)) as [->|Hne].
  - rewrite list_lookup_alter_eq. destruct (heap st !! b) as [r|] eqn:Hb; [|done].
    intros [= <-]. destruct (H4 b r Hb) as [Hs _]. split; [auto|done].
  - rewrite list_lookup_alter_ne by done. apply H4.
Qed.

(** The write that settles the room object at [a] again. *)
Lemma inv2_enter a f st :
  inv2 (Some a) st -> (forall r, steady r -> steady (f r) /\ staged (f r)) ->
  inv2 None (with_heap (alter f a) st).
Proof.
  intros (H1 & H2 & H3 & H4) Hf. split_and!; try done. simpl.
  intros b r'. destruct (decide (a = b)) as [->|Hne].
  - rewrite list_lookup_alter_eq. destruct (heap st !! b) as [r|] eqn:Hb; [|done].
    intros [= <-]. destruct (H4 b r Hb) as [Hs _], (Hf r Hs). done.
  - rewrite list_lookup_alter_ne by done. intros Hb.
    destruct (H4 b r' Hb) as [Hs Hg]. split; [done|]. intros _. apply Hg. congruence.
Qed.

(** Two writes in a row that settle it together. *)
Lemma inv2_enter2 a f g st :
  inv2 (Some a) st -> (forall r, steady r -> steady (g (f r)) /\ staged (g (f r))) ->
  inv2 None (with_heap (alter g a) (with_heap (alter f a) st)).
Proof.
  intros Hinv Hgf.
  replace (with_heap (alter g a) (with_heap (alter f a) st))
    with (with_heap (alter (g ∘ f) a) st).
  - by apply inv2_enter.
  - unfold with_heap. simpl. f_equal. symmetry. apply list_alter_alter_eq.
Qed.

Lemma inv2_weaken a st : inv2 None st -> inv2 (Some a) st.
Proof.
  intros (H1 & H2 & H3 & H4). split_and!; try done. intros b r Hb.
  destruct (H4 b r Hb) as [Hs Hg]. split; [done|]. intros _. by apply Hg.
Qed.

(** The room object at [a] is known to be settled. *)
Lemma inv2_known a r st :
  inv2 (Some a) st -> heap st !! a = Some r -> staged r -> inv2 None st.
Proof.
  intros (H1 & H2 & H3 & H4) Ha Hr. split_and!; try done. intros b r' Hb.
  destruct (H4 b r' Hb) as [Hs Hg]. split; [done|]. intros _.
  destruct (decide (a = b)) as [->|Hne]; [|apply Hg; congruence].
  rewrite Ha in Hb. by injection Hb as <-.
Qed.

Lemma inv2_initial : inv2 None initial.
Proof. split_and!; try apply NoDup_nil_2. done. Qed.

Lemma wp_getRoom_any a (Q : Room -> State -> Prop) st :
  (forall r, heap st !! a = Some r -> Q r st) -> wp any_error (getRoom a) Q st.
Proof. intros HQ. unfold wp, getRoom. destruct (heap st !! a); [auto|done]. Qed.

(** ** Tactics for the second invariant *)

Ltac players_solve :=
  first
    [ assumption
    | apply Forall_filter_keep; assumption
    | apply Forall_delete; assumption
    | apply Forall_update_first;
        [ intros ? ?; unfold player_ok in *; simpl; first [assumption | done | by eexists]
        | assumption ]
    | apply Forall_app; split;
        [ apply Forall_filter_keep; assumption
        | apply Forall_singleton; unfold player_ok; simpl; done ]
    | apply Forall_fmap; eapply Forall_impl; [eassumption|];
        intros ? ?; unfold player_ok in *; simpl; assumption ].

Ltac steady_solve :=
  unfold steady; simpl; intros [? ?]; split; [players_solve | lia].

Ltac staged_solve :=
  unfold staged; simpl; intros [? ?]; split; intros;
  first [ done | assumption | discriminate | eauto ].

Ltac keeps2_solve :=
  intros ?; split; [steady_solve | intros _; staged_solve].

Ltac inv2_solve :=
  repeat first
    [ eassumption
    | apply inv2_sent | apply inv2_nextOid | apply inv2_timeouts
    | apply inv2_socketToRoom_set | apply inv2_socketToRoom_delete
    | apply inv2_rooms_set | apply inv2_rooms_delete
    | apply inv2_timers_set | apply inv2_timers_delete
    | (apply inv2_modifyRoom; [|keeps2_solve]) ].

Ltac ws_prim :=
  lazymatch goal with
  | |- wp _ (mbind _ _) _ _ => apply wp_bind
  | |- wp _ (mret _) _ _ => apply wp_ret
  | |- wp _ (gets _) _ _ => apply wp_gets
  | |- wp _ (modify _) _ _ => apply wp_modify
  | |- wp _ (emit _ _) _ _ => apply wp_emit
  | |- wp _ (modifyRoom _ _) _ _ => apply wp_modifyRoom
  | |- wp _ (setTimeout _) _ _ => apply wp_setTimeout
  | |- wp _ (throw _) _ _ => apply wp_throw; exact I
  | |- wp _ (lift _) _ _ => apply wp_lift
  | |- wp _ (getRoom _) _ _ => apply wp_getRoom_any; intros ? ?
  | |- wp _ (when _ _) _ _ => unfold when
  | |- wp _ (clearTimer _) _ _ => unfold clearTimer
  | |- wp _ (broadcastRoomState _ _) _ _ => unfold broadcastRoomState
  | |- wp _ broadcastRoomsList _ _ => unfold broadcastRoomsList
  | |- wp _ (emitScoreUpdate _) _ _ => unfold emitScoreUpdate
  | |- wp _ (startTimer _ _ _ _) _ _ => unfold startTimer
  | |- wp _ (if ?b then _ else _) _ _ => destruct b eqn:?
  | |- wp _ (match ?x with _ => _ end) _ _ => destruct x eqn:?
  | |- match ?o with Returns _ => _ | Throws _ => _ end =>
      destruct o eqn:?; [|exact I]
  end; cbv beta.

(** ** The rounds keep the second invariant *)

Lemma startRound_inv2 x now rnd a st :
  x = None \/ x = Some a -> inv2 x st ->
  wp any_error (startRound now rnd a) (fun _ st' => inv2 None st') st.
Proof.
  intros Hx Hinv. unfold startRound.
  assert (inv2 (Some a) st) as Hinv'.
  { destruct Hx as [->| ->]; [by apply inv2_weaken|done]. }
  clear Hinv Hx. do 3 ws_prim.
  - do 2 ws_prim.
    assert (inv2 None (with_heap (alter (fun r => set_word None (set_phase lobby r)) a) st))
      as Hinv.
    { apply inv2_enter; [done|]. intros r0 Hs. split; [revert Hs; steady_solve|].
      unfold staged. simpl. split; [done|discriminate]. }
    repeat ws_prim; inv2_solve.
  - do 4 ws_prim.
    match goal with |- wp _ _ _ ?s => assert (inv2 None s) as Hinv end.
    { apply inv2_enter2; [done|]. intros r0 Hs. split; [revert Hs; steady_solve|].
      unfold staged. simpl. split; [discriminate|]. intros _. eexists. split; [done|].
      apply pickWord_in. }
    repeat ws_prim; inv2_solve.
Qed.

Lemma endRound_inv2 now a why st :
  inv2 None st ->
  wp any_error (endRound now a why) (fun _ st' => inv2 None st') st.
Proof. intros Hinv. unfold endRound. repeat ws_prim; inv2_solve. Qed.

Ltac ws_step :=
  lazymatch goal with
  | |- wp _ (startRound _ _ _) _ _ =>
      eapply wp_mono;
      [ eapply startRound_inv2; [left; reflexivity | inv2_solve] | intros [] ? ? ]
  | |- wp _ (endRound _ _ _) _ _ =>
      eapply wp_mono; [ apply endRound_inv2; inv2_solve | intros [] ? ? ]
  | _ => ws_prim
  end.

Ltac ws_run := repeat ws_step; try solve [ inv2_solve ].

Lemma rotate_inv2 now rnd a st :
  inv2 None st -> wp any_error (rotate now rnd a) (fun _ st' => inv2 None st') st.
Proof.
  intros Hinv. unfold rotate. do 2 ws_prim.
  eapply startRound_inv2; [right; reflexivity|].
  apply inv2_free; [by apply inv2_weaken|]. intros r. steady_solve.
Qed.

Lemma timerTick_inv2 roomId now rnd st :
  inv2 None st -> wp any_error (timerTick roomId now rnd) (fun _ st' => inv2 None st') st.
Proof.
  intros Hinv. unfold timerTick. do 4 ws_step; [|ws_run].
  repeat ws_prim; [|inv2_solve].
  unfold onComplete. destruct (t_kind t).
  - ws_run.
  - eapply wp_mono; [apply rotate_inv2; inv2_solve|done].
Qed.

Lemma getOrCreateRoom_inv2 k st :
  inv2 None st -> wp any_error (getOrCreateRoom k) (fun _ st' => inv2 None st') st.
Proof.
  intros Hinv. unfold getOrCreateRoom. do 3 ws_step; [ws_run|].
  repeat ws_step. apply inv2_rooms_set, inv2_heap_push; [done| |].
  - split; [constructor|simpl; lia].
  - split; [done|discriminate].
Qed.

Section Handlers2.
Context (st : State) (Hinv : inv2 None st).

Lemma leavePrevious_inv2 sid cleanRoomId now :
  wp any_error (leavePrevious sid cleanRoomId now) (fun _ st' => inv2 None st') st.
Proof. unfold leavePrevious. ws_run. Qed.

Lemma player_leave_inv2 sid roomId now :
  wp any_error (player_leave sid roomId now) (fun _ st' => inv2 None st') st.
Proof. unfold player_leave. cbv zeta. ws_run. Qed.

Lemma chat_inv2 sid roomId message :
  wp any_error (chat sid roomId message) (fun _ st' => inv2 None st') st.
Proof. unfold chat. cbv zeta. ws_run. Qed.

Lemma guess_submit_inv2 sid roomId guess now :
  wp any_error (guess_submit sid roomId guess now) (fun _ st' => inv2 None st') st.
Proof. unfold guess_submit. cbv zeta. ws_run. Qed.

Lemma draw_inv2 sid roomId points :
  wp any_error (draw sid roomId points) (fun _ st' => inv2 None st') st.
Proof. unfold draw. cbv zeta. ws_run. Qed.

Lemma round_clear_request_inv2 sid roomId :
  wp any_error (round_clear_request sid roomId) (fun _ st' => inv2 None st') st.
Proof. unfold round_clear_request. cbv zeta. ws_run. Qed.

Lemma round_start_inv2 roomId now rnd :
  wp any_error (round_start roomId now rnd) (fun _ st' => inv2 None st') st.
Proof. unfold round_start. ws_run. Qed.

Lemma room_close_inv2 sid roomId :
  wp any_error (room_close sid roomId) (fun _ st' => inv2 None st') st.
Proof. unfold room_close. cbv zeta. ws_run. Qed.

Lemma round_skip_inv2 sid roomId now :
  wp any_error (round_skip sid roomId now) (fun _ st' => inv2 None st') st.
Proof. unfold round_skip. ws_run. Qed.

Lemma disconnect_inv2 sid now :
  wp any_error (disconnect sid now) (fun _ st' => inv2 None st') st.
Proof. unfold disconnect. cbv zeta. ws_run. Qed.

Lemma rooms_request_inv2 sid :
  wp any_error (rooms_request sid) (fun _ st' => inv2 None st') st.
Proof. unfold rooms_request. ws_run. Qed.

Lemma fire_inv2 t :
  wp any_error (fire t) (fun _ st' => inv2 None st') st.
Proof. unfold fire. destruct t as [| |d a [[o s]|]]; ws_run. Qed.

Lemma timeoutFire_inv2 k now :
  wp any_error (timeoutFire k now) (fun _ st' => inv2 None st') st.
Proof.
  unfold timeoutFire. do 4 ws_step; [|ws_run|ws_run]. do 2 ws_step.
  unfold fire. destruct t as [| |d a [[o s]|]]; ws_run.
Qed.

End Handlers2.

Lemma arrive_inv2 sid cleanRoomId cleanName now rnd a st :
  inv2 None st ->
  wp any_error (arrive sid cleanRoomId cleanName now rnd a) (fun _ st' => inv2 None st') st.
Proof. intros Hinv. unfold arrive. ws_run. Qed.

Lemma settle_inv2 sid cleanRoomId cleanName now rnd a st :
  inv2 None st ->
  wp any_error (settle sid cleanRoomId cleanName now rnd a) (fun _ st' => inv2 None st') st.
Proof.
  intros Hinv. unfold settle. cbv zeta. do 3 ws_step.
  - do 4 ws_step. eapply wp_mono; [apply arrive_inv2; inv2_solve|done].
  - ws_step; [ws_run|]. ws_step.
    eapply wp_mono with (Q := fun _ st' => inv2 None st'); [ws_run|].
    intros [] st' ?. by apply arrive_inv2.
Qed.

Lemma player_join_inv2 sid roomId name' now rnd st :
  inv2 None st ->
  wp any_error (player_join sid roomId name' now rnd) (fun _ st' => inv2 None st') st.
Proof.
  intros Hinv. unfold player_join, enter. cbv zeta. ws_step; [ws_run|].
  ws_step. eapply wp_mono; [by apply leavePrevious_inv2|].
  intros [] st1 Hinv1. ws_step.
  eapply wp_mono; [by apply getOrCreateRoom_inv2|].
  intros a st2 Hinv2. by apply settle_inv2.
Qed.

Lemma game_restart_inv2 roomId now rnd st :
  inv2 None st ->
  wp any_error (game_restart roomId now rnd) (fun _ st' => inv2 None st') st.
Proof.
  intros Hinv. unfold game_restart. do 3 ws_step; [|ws_run].
  do 2 ws_step. ws_step; [ws_run|]. do 3 ws_step.
  match goal with |- wp _ _ _ ?s => assert (inv2 (Some n) s) as Hfree end.
  { apply inv2_free; [by apply inv2_weaken|]. intros r0. steady_solve. }
  ws_step.
  - eapply wp_mono; [eapply startRound_inv2; [right; reflexivity|done]|].
    intros [] st' ?. ws_run.
  - eapply wp_mono with (Q := fun _ st' => inv2 None st'); [|intros [] st' ?; ws_run].
    repeat ws_prim. apply inv2_sent.
    eapply inv2_known; [exact Hfree| |].
    + cbn [heap with_heap]. rewrite list_lookup_alter_eq.
      match goal with H : heap st !! n = Some _ |- _ => rewrite H end. reflexivity.
    + unfold staged. cbn [phase word set_phase set_guessed set_word players
        set_turnIndex set_round set_players].
      match goal with H : (2 <=? _) = false |- _ => rewrite H end.
      split; [done|discriminate].
Qed.

Lemma handle_inv2 i st :
  inv2 None st -> wp any_error (handle i) (fun _ st' => inv2 None st') st.
Proof.
  intros Hinv. destruct i; simpl.
  - by apply player_join_inv2.
  - by apply player_leave_inv2.
  - by apply chat_inv2.
  - by apply guess_submit_inv2.
  - by apply draw_inv2.
  - by apply round_clear_request_inv2.
  - by apply round_start_inv2.
  - by apply room_close_inv2.
  - by apply round_skip_inv2.
  - by apply game_restart_inv2.
  - by apply disconnect_inv2.
  - by apply rooms_request_inv2.
  - by apply rooms_request_inv2.
  - by apply rooms_request_inv2.
  - unfold bare. destruct ev, arg; first [by apply player_join_inv2 | by apply wp_throw].
  - by apply timerTick_inv2.
  - by apply timeoutFire_inv2.
Qed.

Lemma run_inv2_ok inputs st st' :
  inv2 None st -> run inputs st = Ok tt st' -> inv2 None st'.
Proof.
  revert st. induction inputs as [|i inputs IH]; intros st Hinv; simpl.
  - by intros [= <-].
  - pose proof (handle_inv2 i st Hinv) as Hi. unfold wp in Hi.
    destruct (handle i st) as [[] st1|]; [|done]. by apply IH.
Qed.

(** ** What holds of every state that the server reaches *)

(** X8. In every state the server reaches without an exception, every room
    object has a round number of at least 1, a connected player has no
    disconnection time and a disconnected player has one. *)
Theorem reachable_presence_and_rounds inputs st room :
  run inputs initial = Ok tt st -> room ∈ heap st ->
  1 <= round room /\
  forall p, p ∈ players room ->
    (connected p = true -> disconnectedAt p = None) /\
    (connected p = false -> is_Some (disconnectedAt p)).
Proof.
  intros Hrun [b Hb]%list_elem_of_lookup_1.
  pose proof (run_inv2_ok inputs initial st inv2_initial Hrun) as (_ & _ & _ & Hall).
  destruct (Hall b room Hb) as [[Hps Hround] _]. split; [done|].
  intros p Hp. rewrite Forall_forall in Hps. specialize (Hps p Hp).
  unfold player_ok in Hps. by destruct (connected p).
Qed.

Lemma reachable_presence_and_rounds_witness :
  exists room,
    heap (after drawer_dropped) !! 0 = Some room /\
    1 <= round room /\
    forall p, p ∈ players room ->
      (connected p = true -> disconnectedAt p = None) /\
      (connected p = false -> is_Some (disconnectedAt p)).
Proof.
  eexists. split; [vm_compute; reflexivity|].
  apply (reachable_presence_and_rounds drawer_dropped (after drawer_dropped)).
  - vm_compute; reflexivity.
  - vm_compute. left.
Defined.

(** X9. In every state the server reaches without an exception, a room in
    the lobby has no word, and a room in the drawing phase has a word, which
    is one of the prompts. *)
Theorem reachable_word_follows_phase inputs st room :
  run inputs initial = Ok tt st -> room ∈ heap st ->
  (phase room = lobby -> word room = None) /\
  (phase room = drawing -> exists w, word room = Some w /\ w ∈ prompts).
Proof.
  intros Hrun [b Hb]%list_elem_of_lookup_1.
  pose proof (run_inv2_ok inputs initial st inv2_initial Hrun) as (_ & _ & _ & Hall).
  destruct (Hall b room Hb) as [_ Hstaged]. by apply Hstaged.
Qed.

Lemma reachable_word_follows_phase_witness :
  exists room,
    heap (after two_joined) !! 0 = Some room /\
    (phase room = lobby -> word room = None) /\
    (phase room = drawing -> exists w, word room = Some w /\ w ∈ prompts).
Proof.
  eexists. split; [vm_compute; reflexivity|].
  apply (reachable_word_follows_phase two_joined (after two_joined)).
  - vm_compute; reflexivity.
  - vm_compute. left.
Defined.

Lemma getPublicRooms_entries (h : list Room) (m : JSMap.t nat) :
  (forall k a, (k, a) ∈ m -> exists r, h !! a = Some r /\ rid r = k) ->
  Forall2 (fun pr ka => exists r,
             h !! ka.2 = Some r /\ pr = publicRoom r /\ pr_id pr = ka.1)
    (omap (fun a => publicRoom <$> h !! a) (JSMap.values m)) m.
Proof.
  induction m as [|[k a] m IH]; intros Hm; simpl; [constructor|].
  destruct (Hm k a) as (r & Hr & Hk); [by left|]. rewrite Hr. simpl.
  constructor; [by exists r|]. apply IH. intros k' a' Hin. apply Hm. by right.
Qed.

(** X10. In every state the server reaches without an exception,
    [getPublicRooms] lists every registered room once, in the order of the
    map, with the capacity [MAX_PLAYERS_PER_ROOM] and the number of
    connected players of the room registered under that id. *)
Theorem reachable_rooms_list inputs st :
  run inputs initial = Ok tt st ->
  map pr_id (getPublicRooms st) = JSMap.keys (rooms st) /\
  NoDup (map pr_id (getPublicRooms st)) /\
  forall pr, pr ∈ getPublicRooms st ->
    pr_capacity pr = MAX_PLAYERS_PER_ROOM /\
    exists a r, JSMap.get (pr_id pr) (rooms st) = Some a /\ heap st !! a = Some r /\
                pr_count pr = length (filter (fun p => connected p = true) (players r)).
Proof.
  intros Hrun.
  pose proof (run_inv2_ok inputs initial st inv2_initial Hrun) as (Huniq & _).
  pose proof (run_inv_ok inputs initial st inv_initial Hrun) as [(Hreg & _) _].
  assert (Forall2 (fun pr ka => exists r,
             heap st !! ka.2 = Some r /\ pr = publicRoom r /\ pr_id pr = ka.1)
            (getPublicRooms st) (rooms st)) as Hall.
  { apply getPublicRooms_entries. intros k a Hin. apply Hreg.
    by apply JSMapKeys.get_entry. }
  assert (map pr_id (getPublicRooms st) = JSMap.keys (rooms st)) as Hkeys.
  { unfold JSMap.keys. clear -Hall. induction Hall as [|pr ka l m (r & _ & _ & Hid) _ IH]; simpl; [done|].
    by rewrite Hid, IH. }
  split_and!; [done|by rewrite Hkeys|].
  intros pr Hpr. apply list_elem_of_lookup_1 in Hpr as [i Hi].
  destruct (Forall2_lookup_l _ _ _ _ _ Hall Hi) as ([k a] & Hka & r & Hr & -> & Hid).
  simpl in *. split; [done|]. exists a, r. split_and!; [|done|done].
  rewrite Hid. apply JSMapKeys.get_entry; [done|].
  by eapply list_elem_of_lookup_2.
Qed.

Lemma reachable_rooms_list_witness :
  map pr_id (getPublicRooms (after two_joined)) = JSMap.keys (rooms (after two_joined)).
Proof.
  refine (proj1 (reachable_rooms_list two_joined (after two_joined) _)).
  vm_compute; reflexivity.
Defined.

(** ** What [startRound] and [endRound] do *)

Ltac written_solve :=
  unfold room_written; simpl; split_and!;
  first
    [ done
    | by rewrite ?length_alter
    | by intros ? ?; rewrite ?list_lookup_alter_ne by done
    | heap_known ].

Lemma startRound_spec E now rnd a st room (Q : unit -> State -> Prop) :
  heap st !! a = Some room ->
  2 <= length (players room) ->
  (forall st', startRound_post now rnd a st room st' -> Q tt st') ->
  wp E (startRound now rnd a) Q st.
Proof.
  intros Hroom Hlen HQ. unfold startRound. do 2 wp_known.
  assert ((length (players room) <? 2) = false) as -> by (apply Nat.ltb_ge; lia).
  repeat wp_known. apply HQ. unfold startRound_post. split_and!.
  - written_solve.
  - done.
  - done.
  - eexists. simpl. rewrite <- !app_assoc. simpl. reflexivity.
Qed.

Lemma startRound_lobby E now rnd a st room (Q : unit -> State -> Prop) :
  heap st !! a = Some room ->
  length (players room) < 2 ->
  (forall st',
     room_written a (set_word None (set_phase lobby room)) st st' ->
     roomTimers st' = roomTimers st -> timeouts st' = timeouts st ->
     sent st' = sent st ++
       [mkEmit (IoTo (rid room)) (round_ended (rid room) "timeout");
        mkEmit (IoTo (rid room))
          (room_state (roomStatePayload now (set_word None (set_phase lobby room))))] ->
     Q tt st') ->
  wp E (startRound now rnd a) Q st.
Proof.
  intros Hroom Hlen HQ. unfold startRound. do 2 wp_known.
  assert ((length (players room) <? 2) = true) as -> by (apply Nat.ltb_lt; lia).
  repeat wp_known. apply HQ; try done.
  - written_solve.
  - simpl. by rewrite <- !app_assoc.
Qed.

Lemma endRound_spec2 E now a why st room ge (Q : unit -> State -> Prop) :
  heap st !! a = Some room ->
  checkGameEnd room = Returns ge ->
  (forall st',
     room_written a (endOf now ge room) st st' ->
     roomTimers st' = timersAfterEnd a ge room (roomTimers st) ->
     timeouts st' = timeouts st ->
     (exists rest,
        sent st' = sent st ++
          mkEmit (IoTo (rid room)) (round_ended (rid room) why) :: rest /\
        (ended ge = true -> exists rest', rest = game_over_event room ge :: rest') /\
        (ended ge = false -> Forall (fun e => forall r w why' fs,
                                       payload e <> game_over r w why' fs) rest)) ->
     Q tt st') ->
  wp E (endRound now a why) Q st.
Proof.
  intros Hroom Hge HQ. unfold endRound.
  do 10 wp_known. apply wp_lift.
  change (checkGameEnd (set_phase intermission room)) with (checkGameEnd room).
  rewrite Hge.
  repeat wp_known; apply HQ; unfold endOf, timersAfterEnd;
    repeat match goal with
      | H : _ = true |- _ => cbn [players set_phase] in H; rewrite H; clear H
      | H : _ = false |- _ => cbn [players set_phase] in H; rewrite H; clear H
      end;
    try done.
  all: first
    [ written_solve
    | simpl; rewrite <- !app_assoc; simpl; eexists; split; [reflexivity|];
      split; [first [done | intros _; unfold game_over_event; eauto]|];
      first [done | intros _; repeat constructor; done] ].
Qed.

(** ** [round:start] *)

(** X11. [round:start] on a registered room: with at least two players and
    outside the drawing phase it starts a round (phase, word, empty set of
    guessers, end of round, round timer, pending delivery of the word, the
    four events); otherwise it does nothing. *)
Theorem round_start_begins_round roomId now rnd st a room :
  JSMap.get roomId (rooms st) = Some a ->
  heap st !! a = Some room ->
  if (2 <=? length (players room)) && negb (Phase_eqb (phase room) drawing)
  then exists st',
         round_start roomId now rnd st = Ok tt st' /\
         startRound_post now rnd a st room st'
  else round_start roomId now rnd st = Ok tt st.
Proof.
  intros Hget Hroom.
  destruct ((2 <=? length (players room)) && negb (Phase_eqb (phase room) drawing))
    eqn:Hgo.
  - destruct (wp_returns (round_start roomId now rnd)
      (fun _ st' => startRound_post now rnd a st room st') st)
      as ([] & st' & Hrun & Hpost); [|by exists st'].
    unfold round_start. do 2 wp_known. rewrite Hget. do 2 wp_known.
    rewrite Hgo. unfold when.
    apply andb_prop in Hgo as [Hlen%Nat.leb_le _].
    by eapply startRound_spec.
  - destruct (wp_returns (round_start roomId now rnd) (fun _ st' => st' = st) st)
      as ([] & st' & Hrun & ->); [|done].
    unfold round_start. do 2 wp_known. rewrite Hget. do 2 wp_known.
    rewrite Hgo. done.
Qed.

Lemma round_start_begins_round_witness :
  exists st',
    round_start "r" 100 3 (state_of (room_of [ann 0; bob 0] 1 lobby)) = Ok tt st' /\
    startRound_post 100 3 0 (state_of (room_of [ann 0; bob 0] 1 lobby))
      (room_of [ann 0; bob 0] 1 lobby) st'.
Proof.
  exact (round_start_begins_round "r" 100 3 (state_of (room_of [ann 0; bob 0] 1 lobby)) 0
           (room_of [ann 0; bob 0] 1 lobby) eq_refl eq_refl).
Defined.

(** ** The timers *)

(** X12. A tick of the interval of [startTimer]: with no timer registered
    for the room it does nothing; before the end of the round it only
    broadcasts the state of the room. *)
Theorem timerTick_before_deadline roomId now rnd st :
  match JSMap.get roomId (roomTimers st) with
  | None => timerTick roomId now rnd st = Ok tt st
  | Some t =>
      forall room e,
        heap st !! t_room t = Some room ->
        roundEndAt room = Some e -> (now < e)%Z ->
        timerTick roomId now rnd st =
          Ok tt (with_sent (fun l => l ++
                   [mkEmit (IoTo (rid room)) (room_state (roomStatePayload now room))]) st)
  end.
Proof.
  destruct (JSMap.get roomId (roomTimers st)) as [t|] eqn:Hget.
  - intros room e Hroom Hend Hlt.
    destruct (wp_returns (timerTick roomId now rnd)
      (fun _ st' => st' = with_sent (fun l => l ++
         [mkEmit (IoTo (rid room)) (room_state (roomStatePayload now room))]) st) st)
      as ([] & st' & Hrun & ->); [|done].
    unfold timerTick. do 2 wp_known. rewrite Hget. do 2 wp_known. rewrite Hend.
    assert ((e - now <=? 0)%Z = false) as -> by (apply Z.leb_gt; lia).
    by repeat wp_known.
  - destruct (wp_returns (timerTick roomId now rnd) (fun _ st' => st' = st) st)
      as ([] & st' & Hrun & ->); [|done].
    unfold timerTick. do 2 wp_known. by rewrite Hget.
Qed.

Lemma timerTick_before_deadline_witness :
  timerTick "r" 5000 0 (after two_joined) =
    Ok tt (with_sent (fun l => l ++
      [mkEmit (IoTo "r")
         (room_state (roomStatePayload 5000
            (mkRoom "r" [ann 0; bob 0] (Some "Cat") 1 (Fin 0) [] drawing (Some 60010%Z))))])
      (after two_joined)).
Proof.
  pose proof (timerTick_before_deadline "r" 5000 0 (after two_joined)) as H.
  change (JSMap.get "r" (roomTimers (after two_joined)))
    with (Some (mkTimer 0 RoundTimer)) in H.
  apply (H (mkRoom "r" [ann 0; bob 0] (Some "Cat") 1 (Fin 0) [] drawing (Some 60010%Z))
           60010%Z); [vm_compute; reflexivity|reflexivity|lia].
Defined.

Lemma rem_index_mod {A} (l : list A) t :
  0 < length l ->
  Num.index l (Num.rem (Fin (t mod length l)) (length l)) = l !! (t mod length l).
Proof.
  destruct l as [|x l]; [simpl; lia|]. intros _.
  unfold Num.rem, Num.index. cbn [length]. by rewrite Nat.Div0.mod_mod.
Qed.

(** X13. When the intermission of a room with at least two players runs
    out, the tick of its timer passes the turn to the next player in the
    list (wrapping around), adds one to the round number and starts a round
    with that player as drawer: a fresh word, no guesser, the round timer
    and the pending delivery of the word. *)
Theorem intermission_expiry_rotates roomId now rnd st a room t :
  JSMap.get roomId (roomTimers st) = Some (mkTimer a IntermissionTimer) ->
  heap st !! a = Some room ->
  (match roundEndAt room with Some e => e | None => 0 end <= now)%Z ->
  2 <= length (players room) ->
  turnIndex room = Fin t ->
  exists st' room',
    timerTick roomId now rnd st = Ok tt st' /\
    heap st' !! a = Some room' /\
    players room' = players room /\
    round room' = round room + 1 /\
    turnIndex room' = Fin ((t + 1) mod length (players room)) /\
    currentDrawer room' = players room !! ((t + 1) mod length (players room)) /\
    is_Some (currentDrawer room') /\
    phase room' = drawing /\
    guessedThisRound room' = [] /\
    word room' = Some (pickWord rnd) /\
    roundEndAt room' = Some (now + ROUND_MS)%Z /\
    JSMap.get (rid room) (roomTimers st') = Some (mkTimer a RoundTimer) /\
    timeouts st' = timeouts st ++ [wordDelivery now a room'].
Proof.
  intros Hget Hroom Hdue Hlen Hturn. replace (t + 1) with (S t) by lia.
  set (room1 := set_word None (set_guessed [] (set_round (round room + 1)
                  (set_turnIndex (Fin (S t mod length (players room)))
                     (set_roundEndAt None room))))).
  destruct (wp_returns (timerTick roomId now rnd)
    (fun _ st' => exists mid, startRound_post now rnd a mid room1 st' /\
                   timeouts mid = timeouts st) st)
    as ([] & st' & Hrun & mid & (Hw & Htimers & Htimeouts & _) & Hmid).
  { unfold timerTick. do 2 wp_known. rewrite Hget. do 2 wp_known.
    assert ((match roundEndAt room with Some e => e | None => 0 end - now <=? 0)%Z = true)
      as -> by (apply Z.leb_le; lia).
    do 8 wp_known. unfold onComplete. cbn [t_kind t_room]. unfold rotate.
    do 2 wp_known. apply (startRound_spec _ now rnd a _ room1).
    - cbn [heap with_heap with_sent with_roomTimers].
      rewrite !list_lookup_alter_eq, Hroom. cbn [fmap option_fmap option_map].
      cbn [turnIndex set_roundEndAt players]. rewrite Hturn.
      unfold Num.succ, Num.rem. subst room1.
      destruct (length (players room)) as [|K] eqn:HK; [lia|]. reflexivity.
    - done.
    - intros st' Hpost. eexists. split; [exact Hpost|]. done. }
  destruct Hw as (Hroom' & _).
  exists st', (roundOf now rnd room1). split_and!; try done.
  - unfold currentDrawer. cbn [players turnIndex roundOf room1 set_roundEndAt set_word
      set_guessed set_phase set_round set_turnIndex].
    apply rem_index_mod. lia.
  - unfold currentDrawer. cbn [players turnIndex roundOf room1 set_roundEndAt set_word
      set_guessed set_phase set_round set_turnIndex].
    rewrite rem_index_mod by lia. apply lookup_lt_is_Some_2.
    apply Nat.mod_upper_bound. lia.
  - rewrite Htimers. cbn [rid room1 set_word set_guessed set_round set_turnIndex
      set_roundEndAt]. by rewrite JSMapFacts.get_set, String.eqb_refl.
  - rewrite Htimeouts, Hmid. done.
Qed.

Lemma intermission_expiry_rotates_witness :
  exists st' room',
    timerTick "r" 63010 1
      (after (two_joined ++ [TimeoutFire 0 60; TimerTick "r" 60010 0])) = Ok tt st' /\
    heap st' !! 0 = Some room' /\
    round room' = 2 /\ turnIndex room' = Fin 1 /\ phase room' = drawing.
Proof.
  destruct (intermission_expiry_rotates "r" 63010 1
              (after (two_joined ++ [TimeoutFire 0 60; TimerTick "r" 60010 0])) 0
              (mkRoom "r" [ann 0; bob 0] (Some "Cat") 1 (Fin 0) [] intermission
                 (Some 63010%Z)) 0)
    as (st' & room' & H1 & H2 & _ & H3 & H4 & _ & _ & H5 & _);
    [vm_compute; reflexivity|vm_compute; reflexivity|simpl; lia|simpl; lia|reflexivity|].
  exists st', room'. split_and!; try done.
Defined.

(** ** [player:join] *)

Lemma arrive_spec E sid c cleanName now rnd a st room (Q : unit -> State -> Prop) :
  heap st !! a = Some room ->
  (forall st', arrive_post sid c cleanName now rnd a st room st' -> Q tt st') ->
  wp E (arrive sid c cleanName now rnd a) Q st.
Proof.
  intros Hroom HQ. unfold arrive. do 6 wp_known.
  fold (starts_on_arrival room).
  destruct (starts_on_arrival room) eqn:Hstart; apply wp_bind.
  - apply (startRound_spec _ now rnd a _ room); [done| |].
    { by apply andb_prop in Hstart as [?%Nat.leb_le _]. }
    intros st1 ((H1 & H2 & H3 & H4 & H5 & H6) & H7 & H8 & l & H9).
    repeat wp_known. apply HQ. unfold arrive_post, arrived. rewrite Hstart.
    simpl in *. split_and!; try done.
    rewrite H9, <- !app_assoc. simpl. eauto.
  - repeat wp_known. apply HQ. unfold arrive_post, arrived. rewrite Hstart.
    simpl. split_and!; try done.
    rewrite <- !app_assoc. simpl. eauto.
Qed.

Lemma leavePrevious_noop sid c now st :
  not_elsewhere sid c st -> leavePrevious sid c now st = Ok tt st.
Proof.
  unfold not_elsewhere. intros Hmap.
  destruct (wp_returns (leavePrevious sid c now) (fun _ st' => st' = st) st)
    as ([] & st' & Hrun & ->); [|done].
  unfold leavePrevious. do 2 wp_known.
  destruct (JSMap.get sid (socketToRoom st)) as [prev|]; [|done].
  destruct Hmap as [->| ->]; [|done].
  by rewrite String.eqb_refl, andb_false_r.
Qed.

Lemma player_join_unfold sid roomId name' now rnd st a :
  Str.truthy (Str.trim name') = true ->
  not_elsewhere sid (cleanRoomIdOf roomId) st ->
  JSMap.get (cleanRoomIdOf roomId) (rooms st) = Some a ->
  player_join sid roomId name' now rnd st =
    settle sid (cleanRoomIdOf roomId) (Str.trim name') now rnd a st.
Proof.
  intros Hname Hmap Hget. unfold player_join. cbv zeta. rewrite Hname.
  change (negb true) with false. cbv iota.
  rewrite bind_run, leavePrevious_noop by done.
  unfold enter. rewrite bind_run. unfold getOrCreateRoom. rewrite bind_run.
  unfold gets at 1. by rewrite Hget.
Qed.

Lemma player_join_after_leaving sid roomId name' now rnd st0 st :
  Str.truthy (Str.trim name') = true ->
  leavePrevious sid (cleanRoomIdOf roomId) now st0 = Ok tt st ->
  player_join sid roomId name' now rnd st0 =
    enter sid (cleanRoomIdOf roomId) (Str.trim name') now rnd st.
Proof.
  intros Hname Hleave. unfold player_join. cbv zeta. rewrite Hname.
  change (negb true) with false. cbv iota.
  by rewrite bind_run, Hleave.
Qed.

Lemma enter_registered sid c cleanName now rnd st a :
  JSMap.get c (rooms st) = Some a ->
  enter sid c cleanName now rnd st = settle sid c cleanName now rnd a st.
Proof.
  intros Hget. unfold enter. rewrite bind_run. unfold getOrCreateRoom.
  rewrite bind_run. unfold gets at 1. by rewrite Hget.
Qed.

Lemma map_update_first {A B} (h : A -> B) f g (l : list A) :
  (forall x, h (g x) = h x) -> map h (update_first f g l) = map h l.
Proof.
  intros Hg. induction l as [|x l IH]; simpl; [done|].
  destruct (f x); simpl; by rewrite ?Hg, ?IH.
Qed.

(** X14. Two cases in which [player:join] turns the request down. With a
    blank name it sends [join:error] (name required) to the socket and
    changes nothing else. With a name, the handler first takes the socket
    out of the room it was in, if that is another room; if the room to join
    then has [MAX_PLAYERS_PER_ROOM] connected players and the socket neither
    reclaims an entry nor is in the room, the handler sends [join:error]
    (room full) and the list of rooms to the socket, and changes nothing
    else after that first step. For a socket that is in no other room the
    first step changes nothing. *)
Theorem join_rejected sid roomId name' now rnd st0 :
  (Str.trim name' = "" ->
   player_join sid roomId name' now rnd st0 =
     Ok tt (with_sent (fun l => l ++
       [mkEmit (SocketEmit sid)
          (join_error "Name is required to join a room" None None)]) st0)) /\
  (forall st a room,
     Str.truthy (Str.trim name') = true ->
     leavePrevious sid (cleanRoomIdOf roomId) now st0 = Ok tt st ->
     JSMap.get (cleanRoomIdOf roomId) (rooms st) = Some a ->
     heap st !! a = Some room ->
     find (reclaimable now (Str.trim name')) (players room) = None ->
     find (has_id sid) (players room) = None ->
     MAX_PLAYERS_PER_ROOM <= length (connectedPlayers room) ->
     player_join sid roomId name' now rnd st0 =
       Ok tt (with_sent (fun l => l ++
         [mkEmit (SocketEmit sid)
            (join_error "Room is full" (Some (cleanRoomIdOf roomId))
               (Some MAX_PLAYERS_PER_ROOM));
          mkEmit (SocketEmit sid) (rooms_list (getPublicRooms st))]) st)) /\
  (not_elsewhere sid (cleanRoomIdOf roomId) st0 ->
   leavePrevious sid (cleanRoomIdOf roomId) now st0 = Ok tt st0).
Proof.
  split_and!.
  - intros Hname. unfold player_join. cbv zeta. by rewrite Hname.
  - intros st a room Hname Hleave Hget Hroom Hnone Hnew Hfull.
    rewrite (player_join_after_leaving _ _ _ _ _ _ st) by done.
    rewrite (enter_registered _ _ _ _ _ _ a) by done.
    match goal with |- _ = Ok tt ?s =>
      destruct (wp_returns (settle sid (cleanRoomIdOf roomId) (Str.trim name') now rnd a)
        (fun _ st' => st' = s) st) as ([] & st' & Hrun & ->); [|done] end.
    unfold settle. cbv zeta. do 2 wp_known. rewrite Hnone, Hnew.
    apply Nat.leb_le in Hfull. rewrite Hfull.
    rewrite bool_decide_eq_false_2 by by inversion 1.
    simpl negb. simpl andb. cbv iota. repeat wp_known.
    unfold with_sent. simpl. by rewrite <- app_assoc.
  - apply leavePrevious_noop.
Qed.

Lemma join_rejected_witness :
  player_join "a" "r" "   " 0 0 initial =
    Ok tt (with_sent (fun l => l ++
      [mkEmit (SocketEmit "a")
         (join_error "Name is required to join a room" None None)]) initial) /\
  exists st,
    leavePrevious "z" "r" 100 (after (full_house ++ [PlayerJoin "z" "s" "Zed" 50 0]))
      = Ok tt st /\
    timeouts st = [SendWord 51 0 (Some (0, "p1")); DeletePrevRoom 2100 "s"] /\
    player_join "z" "r" "Zed" 100 0 (after (full_house ++ [PlayerJoin "z" "s" "Zed" 50 0])) =
      Ok tt (with_sent (fun l => l ++
        [mkEmit (SocketEmit "z") (join_error "Room is full" (Some "r") (Some 8));
         mkEmit (SocketEmit "z") (rooms_list (getPublicRooms st))]) st).
Proof.
  split.
  - apply (join_rejected "a" "r" "   " 0 0 initial). vm_compute; reflexivity.
  - set (st0 := after (full_house ++ [PlayerJoin "z" "s" "Zed" 50 0])).
    exists (final (leavePrevious "z" "r" 100 st0)).
    split; [vm_compute; reflexivity|]. split; [vm_compute; reflexivity|].
    destruct (heap (final (leavePrevious "z" "r" 100 st0)) !! 0) as [room|] eqn:Hroom;
      [|vm_compute in Hroom; discriminate].
    apply (proj1 (proj2 (join_rejected "z" "r" "Zed" 100 0 st0))
             (final (leavePrevious "z" "r" 100 st0)) 0 room);
      try (vm_compute; reflexivity);
      vm_compute in Hroom; injection Hroom as <-; vm_compute; first [reflexivity | lia].
Defined.

(** X15. [player:join] with the name of a player who disconnected less than
    30 seconds before takes over that player's entry: the entry gets the new
    socket id and is connected again, names and scores stay, no entry is
    added, and the socket is mapped to the room. *)
Theorem join_reclaims_entry sid roomId name' now rnd st a room d :
  Str.truthy (Str.trim name') = true ->
  not_elsewhere sid (cleanRoomIdOf roomId) st ->
  JSMap.get (cleanRoomIdOf roomId) (rooms st) = Some a ->
  heap st !! a = Some room ->
  find (reclaimable now (Str.trim name')) (players room) = Some d ->
  exists st' room',
    player_join sid roomId name' now rnd st = Ok tt st' /\
    heap st' !! a = Some room' /\
    players room' =
      update_first (reclaimable now (Str.trim name')) (reclaim sid) (players room) /\
    map score (players room') = map score (players room) /\
    map name (players room') = map name (players room) /\
    reclaim sid d ∈ players room' /\
    name d = Str.trim name' /\ connected d = false /\
    (exists t, disconnectedAt d = Some t /\ (now - t < 30000)%Z) /\
    JSMap.get sid (socketToRoom st') = Some (cleanRoomIdOf roomId) /\
    rooms st' = rooms st.
Proof.
  intros Hname Hmap Hget Hroom Hfind.
  set (c := cleanRoomIdOf roomId) in *. set (cleanName := Str.trim name') in *.
  set (room1 := set_players
                  (update_first (reclaimable now cleanName) (reclaim sid) (players room))
                  room).
  rewrite (player_join_unfold _ _ _ _ _ _ a) by done. fold c cleanName.
  destruct (wp_returns (settle sid c cleanName now rnd a)
    (fun _ st' => exists mid, arrive_post sid c cleanName now rnd a mid room1 st' /\
                   rooms mid = rooms st) st)
    as ([] & st' & Hrun & mid & (H1 & _ & _ & H4 & _ & H6 & _) & Hmid).
  { unfold settle. cbv zeta. do 2 wp_known. rewrite Hfind. do 4 wp_known.
    apply (arrive_spec _ _ _ _ _ _ _ _ room1); [heap_known|].
    intros st' Hpost. by exists (with_timeouts (map (retarget (oid d) sid))
      (with_heap (alter (fun r => set_players
         (update_first (reclaimable now cleanName) (reclaim sid) (players r)) r) a) st)). }
  exists st', (arrived now rnd room1).
  assert (players (arrived now rnd room1) = players room1) as Hps.
  { unfold arrived. by destruct (starts_on_arrival room1). }
  pose proof (find_some _ _ Hfind) as [Hin Hre].
  unfold reclaimable in Hre.
  apply andb_prop in Hre as [[Hn%String.eqb_eq Hg]%andb_prop Ht].
  split_and!; try done.
  - rewrite Hps. simpl. by apply map_update_first.
  - rewrite Hps. simpl. by apply map_update_first.
  - rewrite Hps. simpl. clear -Hfind. induction (players room) as [|p ps IH]; [done|].
    simpl in *. destruct (reclaimable now cleanName p).
    + injection Hfind as ->. by left.
    + right. by apply IH.
  - unfold is_gone in Hg. by apply negb_true_iff in Hg.
  - destruct (disconnectedAt d) as [t|]; [|done]. exists t. split; [done|].
    apply andb_prop in Ht as [_ Ht%Z.ltb_lt]. done.
  - rewrite H6. by rewrite JSMapFacts.get_set, String.eqb_refl.
  - by rewrite H4.
Qed.

(** X16. [player:join] to an existing room with a free place, by a socket
    that reclaims no entry and is not in the room, appends one connected
    player with score 0: the number of connected players grows by one, the
    socket is mapped to the room, and no room is registered. *)
Theorem join_adds_newcomer sid roomId name' now rnd st a room :
  Str.truthy (Str.trim name') = true ->
  not_elsewhere sid (cleanRoomIdOf roomId) st ->
  JSMap.get (cleanRoomIdOf roomId) (rooms st) = Some a ->
  heap st !! a = Some room ->
  find (reclaimable now (Str.trim name')) (players room) = None ->
  find (has_id sid) (players room) = None ->
  length (connectedPlayers room) < MAX_PLAYERS_PER_ROOM ->
  exists st',
    player_join sid roomId name' now rnd st = Ok tt st' /\
    heap st' !! a =
      Some (arrived now rnd
              (set_players (with_newcomer st sid (Str.trim name') (players room)) room)) /\
    length (connectedPlayers
              (set_players (with_newcomer st sid (Str.trim name') (players room)) room))
      = S (length (connectedPlayers room)) /\
    JSMap.get sid (socketToRoom st') = Some (cleanRoomIdOf roomId) /\
    rooms st' = rooms st /\
    nextOid st' = S (nextOid st).
Proof.
  intros Hname Hmap Hget Hroom Hnone Hnew Hfree.
  set (c := cleanRoomIdOf roomId) in *. set (cleanName := Str.trim name') in *.
  set (room1 := set_players (with_newcomer st sid cleanName (players room)) room).
  rewrite (player_join_unfold _ _ _ _ _ _ a) by done. fold c cleanName.
  destruct (wp_returns (settle sid c cleanName now rnd a)
    (fun _ st' => exists mid, arrive_post sid c cleanName now rnd a mid room1 st' /\
                   rooms mid = rooms st /\ nextOid mid = S (nextOid st)) st)
    as ([] & st' & Hrun & mid & (H1 & _ & _ & H4 & H5 & H6 & _) & Hmid & Hoid).
  { unfold settle. cbv zeta. do 2 wp_known. rewrite Hnone, Hnew.
    assert ((MAX_PLAYERS_PER_ROOM <=? length (connectedPlayers room)) = false) as ->
      by (apply Nat.leb_gt; lia).
    rewrite andb_false_r. cbv iota. repeat wp_known.
    apply (arrive_spec _ _ _ _ _ _ _ _ room1); [heap_known|].
    intros st' Hpost. eexists. split; [exact Hpost|]. done. }
  exists st'. split_and!; try done.
  - subst room1. unfold connectedPlayers, with_newcomer. cbn [players set_players].
    rewrite filter_app, length_app, list_filter_filter_l.
    + rewrite filter_cons_True by done. simpl. lia.
    + intros p Hp. unfold is_gone. rewrite Hp. apply andb_false_r.
  - rewrite H6. by rewrite JSMapFacts.get_set, String.eqb_refl.
  - by rewrite H4.
  - by rewrite H5.
Qed.

Lemma join_reclaims_entry_witness :
  exists st' room',
    player_join "a2" "r" " Ann " 40000 0 (after drawer_dropped) = Ok tt st' /\
    heap st' !! 0 = Some room' /\
    map score (players room') = [0; 0; 0] /\
    map name (players room') = ["Ann"; "Bob"; "Cy"] /\
    JSMap.get "a2" (socketToRoom st') = Some "r".
Proof.
  destruct (join_reclaims_entry "a2" "r" " Ann " 40000 0 (after drawer_dropped) 0
              (mkRoom "r" [mkPlayer 0 "a" "Ann" 0 false (Some 30000%Z); bob 0;
                           mkPlayer 2 "c" "Cy" 0 true None]
                 (Some "Car") 2 (Fin 1) [] drawing (Some 93000%Z))
              (mkPlayer 0 "a" "Ann" 0 false (Some 30000%Z)))
    as (st' & room' & H1 & H2 & _ & H3 & H4 & _ & _ & _ & _ & H5 & _);
    [vm_compute; reflexivity|vm_compute; exact I|vm_compute; reflexivity
    |vm_compute; reflexivity|vm_compute; reflexivity|].
  by exists st', room'.
Defined.

Lemma join_adds_newcomer_witness :
  exists st',
    player_join "b" "r" "Bob" 10 0 (after [PlayerJoin "a" "r" "Ann" 0 0]) = Ok tt st' /\
    heap st' !! 0 =
      Some (mkRoom "r" [ann 0; bob 0] (Some "Cat") 1 (Fin 0) [] drawing (Some 60010%Z)).
Proof.
  destruct (join_adds_newcomer "b" "r" "Bob" 10 0 (after [PlayerJoin "a" "r" "Ann" 0 0]) 0
              (mkRoom "r" [ann 0] None 1 (Fin 0) [] lobby None))
    as (st' & H1 & H2 & _);
    [vm_compute; reflexivity|vm_compute; exact I|vm_compute; reflexivity
    |vm_compute; reflexivity|vm_compute; reflexivity|vm_compute; reflexivity
    |vm_compute; lia|].
  exists st'. split; [done|]. rewrite H2. vm_compute. reflexivity.
Defined.

(** X17. [player:join] first takes the socket out of the room it was in, if
    that is another room (for a socket that is in no other room this changes
    nothing). If the room id, trimmed, is not registered after that, the
    handler creates the room with the joining player as its only player and
    registers it under that id; from the state after the first step on, the
    other rooms, the timers and the pending timeouts are untouched. *)
Theorem join_creates_room sid roomId name' now rnd st0 :
  (forall st,
     Str.truthy (Str.trim name') = true ->
     leavePrevious sid (cleanRoomIdOf roomId) now st0 = Ok tt st ->
     JSMap.get (cleanRoomIdOf roomId) (rooms st) = None ->
     exists st',
       player_join sid roomId name' now rnd st0 = Ok tt st' /\
       JSMap.get (cleanRoomIdOf roomId) (rooms st') = Some (length (heap st)) /\
       heap st' =
         heap st ++ [set_players [newcomer st sid (Str.trim name')]
                       (newRoom (cleanRoomIdOf roomId))] /\
       (forall k, k <> cleanRoomIdOf roomId ->
          JSMap.get k (rooms st') = JSMap.get k (rooms st)) /\
       JSMap.get sid (socketToRoom st') = Some (cleanRoomIdOf roomId) /\
       roomTimers st' = roomTimers st /\
       timeouts st' = timeouts st) /\
  (not_elsewhere sid (cleanRoomIdOf roomId) st0 ->
   leavePrevious sid (cleanRoomIdOf roomId) now st0 = Ok tt st0).
Proof.
  split; [|apply leavePrevious_noop].
  intros st Hname Hleave Hget.
  set (c := cleanRoomIdOf roomId) in *. set (cleanName := Str.trim name') in *.
  set (a := length (heap st)).
  set (room1 := set_players [newcomer st sid cleanName] (newRoom c)).
  set (st1 := with_rooms (JSMap.set c a) (with_heap (fun h => h ++ [newRoom c]) st)).
  assert (player_join sid roomId name' now rnd st0 = settle sid c cleanName now rnd a st1)
    as ->.
  { rewrite (player_join_after_leaving _ _ _ _ _ _ st) by done. fold c cleanName.
    unfold enter. rewrite bind_run. unfold getOrCreateRoom. rewrite bind_run.
    unfold gets at 1. by rewrite Hget. }
  assert (heap st1 = heap st ++ [newRoom c]) as Hheap by done.
  assert (rooms st1 = JSMap.set c a (rooms st)) as Hrooms by done.
  assert (roomTimers st1 = roomTimers st) as Htimers by done.
  assert (timeouts st1 = timeouts st) as Htimeouts by done.
  assert (nextOid st1 = nextOid st) as Hoid by done.
  assert (socketToRoom st1 = socketToRoom st) as Hsock by done.
  assert (heap st1 !! a = Some (newRoom c)) as Hroom.
  { rewrite Hheap. subst a. by rewrite lookup_app_r, Nat.sub_diag. }
  clearbody st1.
  destruct (wp_returns (settle sid c cleanName now rnd a)
    (fun _ st' => exists mid, arrive_post sid c cleanName now rnd a mid room1 st' /\
       rooms mid = rooms st1 /\ roomTimers mid = roomTimers st1 /\
       timeouts mid = timeouts st1 /\ socketToRoom mid = socketToRoom st1 /\
       heap mid = alter (set_players [newcomer st sid cleanName]) a (heap st1)) st1)
    as ([] & st' & Hrun & mid & (H1 & H2 & H3 & H4 & H5 & H6 & H7 & H8 & _)
        & Hm1 & Hm2 & Hm3 & Hm5 & Hm4).
  { unfold settle. cbv zeta. do 2 wp_known.
    cbn [players newRoom find].
    cbn [connectedPlayers players newRoom filter list_filter length].
    rewrite bool_decide_eq_false_2 by by inversion 1.
    change (MAX_PLAYERS_PER_ROOM <=? 0) with false. rewrite andb_false_r. cbv iota.
    repeat wp_known.
    apply (arrive_spec _ _ _ _ _ _ _ _ room1).
    - cbn [heap with_heap with_nextOid]. rewrite list_lookup_alter_eq, Hroom.
      subst room1. unfold newcomer. by rewrite Hoid.
    - intros st' Hpost. eexists. split; [exact Hpost|]. split_and!; try done.
      cbn [heap with_heap with_nextOid]. unfold newcomer. rewrite Hoid.
      apply list_eq. intros b. destruct (decide (b = a)) as [->|Hne].
      + by rewrite !list_lookup_alter_eq, Hroom.
      + by rewrite !list_lookup_alter_ne. }
  assert (starts_on_arrival room1 = false) as Hno by done.
  unfold arrived in H1. rewrite Hno in *.
  exists st'. split_and!; try done.
  - rewrite H4, Hm1, Hrooms. by rewrite JSMapFacts.get_set, String.eqb_refl.
  - apply list_eq. intros b. destruct (decide (b = a)) as [->|Hne].
    + rewrite H1. subst a. by rewrite lookup_app_r, Nat.sub_diag.
    + rewrite H3, Hm4, list_lookup_alter_ne, Hheap by done.
      destruct (decide (b < a)) as [Hlt|Hge].
      * by rewrite !lookup_app_l.
      * assert (length (heap st) < b) as Hb by (subst a; lia).
        rewrite (lookup_ge_None_2 (heap st ++ [room1])),
          (lookup_ge_None_2 (heap st ++ [newRoom c])); [done|..];
          rewrite length_app; simpl; lia.
  - intros k Hk. rewrite H4, Hm1, Hrooms. rewrite JSMapFacts.get_set.
    by apply String.eqb_neq in Hk as ->.
  - rewrite H6. by rewrite JSMapFacts.get_set, String.eqb_refl.
  - by rewrite H7, Hm2.
  - by rewrite H8, Hm3.
Qed.

Lemma join_creates_room_witness :
  (exists st',
     player_join "a" "r" "Ann" 0 0 initial = Ok tt st' /\
     heap st' = [mkRoom "r" [ann 0] None 1 (Fin 0) [] lobby None] /\
     roomTimers st' = []) /\
  exists st st',
    leavePrevious "b" "s" 5000 (after two_joined) = Ok tt st /\
    player_join "b" "s" "Bob" 5000 0 (after two_joined) = Ok tt st' /\
    map (map name) (map players (heap st')) = [["Ann"]; ["Bob"]] /\
    roomTimers st' = roomTimers st.
Proof.
  split.
  - destruct (proj1 (join_creates_room "a" "r" "Ann" 0 0 initial) initial)
      as (st' & H1 & _ & H2 & _ & _ & H3 & _);
      [vm_compute; reflexivity..|].
    by exists st'.
  - set (st0 := after two_joined).
    destruct (proj1 (join_creates_room "b" "s" "Bob" 5000 0 st0)
                (final (leavePrevious "b" "s" 5000 st0)))
      as (st' & H1 & _ & H2 & _ & _ & H3 & _);
      [vm_compute; reflexivity..|].
    exists (final (leavePrevious "b" "s" 5000 st0)), st'.
    split; [vm_compute; reflexivity|]. split; [exact H1|]. split; [|exact H3].
    rewrite H2. vm_compute. reflexivity.
Defined.

(** ** [disconnect] *)

(** X18. [disconnect] of a socket that is a player of its room keeps the
    entry (id, name, score) and marks it disconnected at the current time,
    and forgets the socket.  With no connected player left it schedules the
    deletion of the room in 35 seconds and sends nothing; with one left the
    room goes back to the lobby; with more, the round ends if the drawer
    left while drawing, and nothing else changes otherwise. *)
Theorem disconnect_marks_player sid now st roomId a room p :
  JSMap.get sid (socketToRoom st) = Some roomId ->
  Str.truthy roomId = true ->
  JSMap.get roomId (rooms st) = Some a ->
  heap st !! a = Some room ->
  find (has_id sid) (players room) = Some p ->
  let room1 := without_connection sid now room in
  exists st' room',
    disconnect sid now st = Ok tt st' /\
    heap st' !! a = Some room' /\
    players room' = players room1 /\
    map (fun q => (id q, name q, score q)) (players room')
      = map (fun q => (id q, name q, score q)) (players room) /\
    mark_gone now p ∈ players room' /\
    JSMap.get sid (socketToRoom st') = None /\
    rooms st' = rooms st /\
    match length (connectedPlayers room1) with
    | 0 =>
        room' = room1 /\
        timeouts st' = timeouts st ++ [DeleteAbandoned (now + 35000) roomId] /\
        roomTimers st' = roomTimers st /\
        sent st' = sent st
    | 1 =>
        room' = set_word None (set_phase lobby room1) /\
        timeouts st' = timeouts st /\ roomTimers st' = roomTimers st
    | _ =>
        timeouts st' = timeouts st /\
        if is_drawer sid room && Phase_eqb (phase room) drawing
        then exists ge, checkGameEnd room1 = Returns ge /\ room' = endOf now ge room1 /\
               roomTimers st' = timersAfterEnd a ge room1 (roomTimers st)
        else room' = room1 /\ roomTimers st' = roomTimers st
    end.
Proof.
  intros Hmap Htruthy Hget Hroom Hfind room1.
  assert (players room1 <> []) as Hne.
  { subst room1. simpl. intros Hnil%(f_equal length).
    rewrite update_first_length in Hnil. apply find_some in Hfind as [Hin _].
    by destruct (players room). }
  destruct (checkGameEnd_returns room1 Hne) as [ge Hge].
  assert (mark_gone now p ∈ players room1) as Hin.
  { subst room1. simpl. clear -Hfind. induction (players room) as [|q ps IH]; [done|].
    simpl in *. destruct (has_id sid q).
    - injection Hfind as ->. by left.
    - right. by apply IH. }
  assert (map (fun q => (id q, name q, score q)) (players room1)
          = map (fun q => (id q, name q, score q)) (players room)) as Hsame.
  { subst room1. simpl. by apply map_update_first. }
  destruct (wp_returns (disconnect sid now)
    (fun _ st' => exists room',
       heap st' !! a = Some room' /\
       players room' = players room1 /\
       JSMap.get sid (socketToRoom st') = None /\
       rooms st' = rooms st /\
       match length (connectedPlayers room1) with
       | 0 =>
           room' = room1 /\
           timeouts st' = timeouts st ++ [DeleteAbandoned (now + 35000) roomId] /\
           roomTimers st' = roomTimers st /\
           sent st' = sent st
       | 1 =>
           room' = set_word None (set_phase lobby room1) /\
           timeouts st' = timeouts st /\ roomTimers st' = roomTimers st
       | _ =>
           timeouts st' = timeouts st /\
           if is_drawer sid room && Phase_eqb (phase room) drawing
           then exists ge, checkGameEnd room1 = Returns ge /\ room' = endOf now ge room1 /\
                  roomTimers st' = timersAfterEnd a ge room1 (roomTimers st)
           else room' = room1 /\ roomTimers st' = roomTimers st
       end) st)
    as ([] & st' & Hrun & room' & H1 & H2 & H3 & H4 & H5).
  { unfold disconnect. cbv zeta. do 2 wp_known. rewrite Hmap, Htruthy.
    change (negb true) with false. cbv iota. do 2 wp_known. rewrite Hget.
    do 4 wp_known. rewrite Hfind. do 4 wp_known.
    fold (mark_gone now). fold (without_connection sid now room). fold room1.
    assert (forall s : State, JSMap.get sid
              (socketToRoom (with_socketToRoom (JSMap.delete sid) s)) = None) as Hdel.
    { intros s. simpl. by rewrite JSMapFacts.get_delete, String.eqb_refl. }
    destruct (length (connectedPlayers room1)) as [|[|n]] eqn:Hn.
    - change (0 =? 0) with true. cbv iota. wp_known.
      exists room1. split_and!; [heap_known|done|apply Hdel|done..].
    - change (1 =? 0) with false. change (1 <? 2) with true. cbv iota.
      repeat wp_known. eexists. split_and!; [heap_known|done|apply Hdel|done..].
    - change (S (S n) =? 0) with false. change (S (S n) <? 2) with false. cbv iota.
      do 2 wp_known.
      assert (phase room1 = phase room) as -> by done.
      destruct (is_drawer sid room && Phase_eqb (phase room) drawing) eqn:Hd.
      + apply (endRound_spec2 _ now a "timeout" _ room1 ge); [heap_known|done|].
        intros st' (Hw1 & _ & _ & Hw4 & Hw5 & _) Ht1 Ht2 _.
        eexists. split_and!; [exact Hw1| | | |done|];
          [unfold endOf; by repeat case_match
          |rewrite Hw5; apply Hdel|by rewrite Hw4|].
        exists ge. by rewrite Ht1.
      + repeat wp_known. exists room1.
        split_and!; [heap_known|done|apply Hdel|done..]. }
  exists st', room'. split_and!; try done.
  - by rewrite H2.
  - by rewrite H2.
Qed.

Lemma disconnect_marks_player_witness :
  exists st' room',
    disconnect "a" 30000
      (after [PlayerJoin "a" "r" "Ann" 0 0; PlayerJoin "b" "r" "Bob" 10 0;
              PlayerJoin "c" "r" "Cy" 20 0]) = Ok tt st' /\
    heap st' !! 0 = Some room' /\
    map (fun q => (id q, name q, score q)) (players room')
      = [("a", "Ann", 0); ("b", "Bob", 0); ("c", "Cy", 0)] /\
    JSMap.get "a" (socketToRoom st') = None.
Proof.
  destruct (disconnect_marks_player "a" 30000
              (after [PlayerJoin "a" "r" "Ann" 0 0; PlayerJoin "b" "r" "Bob" 10 0;
                      PlayerJoin "c" "r" "Cy" 20 0]) "r" 0
              (mkRoom "r" [ann 0; bob 0; mkPlayer 2 "c" "Cy" 0 true None]
                 (Some "Cat") 1 (Fin 0) [] drawing (Some 60010%Z)) (ann 0))
    as (st' & room' & H1 & H2 & _ & H3 & _ & H4 & _);
    [vm_compute; reflexivity..|].
  by exists st', room'.
Defined.

(** ** [player:leave] *)

(** X19. [player:leave] of a player removes the entry, moves the turn index
    back by one when the entry was before it (so that the drawer stays the
    same player), and forgets the socket.  A room left empty is
    unregistered; with one player left it goes back to the lobby; with more,
    the round ends if the drawer left while drawing. *)
Theorem player_leave_removes_player sid roomId now st a room i :
  Str.truthy (actualRoomId sid roomId st) = true ->
  JSMap.get (actualRoomId sid roomId st) (rooms st) = Some a ->
  heap st !! a = Some room ->
  findIndex (has_id sid) (players room) = Some i ->
  let room1 := without_player i room in
  exists st' room',
    player_leave sid roomId now st = Ok tt st' /\
    heap st' !! a = Some room' /\
    players room' = delete i (players room) /\
    turnIndex room' = turnAfterLeave i (turnIndex room) /\
    JSMap.get sid (socketToRoom st') = None /\
    (forall t, turnIndex room = Fin t -> t < length (players room) -> i <> t ->
       currentDrawer room' = currentDrawer room) /\
    match length (players room1) with
    | 0 =>
        room' = room1 /\
        rooms st' = JSMap.delete (actualRoomId sid roomId st) (rooms st) /\
        roomTimers st' = roomTimers st
    | 1 =>
        room' = set_word None (set_phase lobby room1) /\
        rooms st' = rooms st /\ roomTimers st' = roomTimers st
    | _ =>
        rooms st' = rooms st /\
        if leftAsDrawer i room && Phase_eqb (phase room) drawing
        then exists ge, checkGameEnd room1 = Returns ge /\ room' = endOf now ge room1 /\
               roomTimers st' = timersAfterEnd a ge room1 (roomTimers st)
        else room' = room1 /\ roomTimers st' = roomTimers st
    end.
Proof.
  intros Htruthy Hget Hroom Hindex room1.
  set (R := actualRoomId sid roomId st) in *.
  assert (forall s : State, JSMap.get sid
            (socketToRoom (with_socketToRoom (JSMap.delete sid) s)) = None) as Hdel.
  { intros s. simpl. by rewrite JSMapFacts.get_delete, String.eqb_refl. }
  assert (forall s, heap s !! a = Some room ->
            heap (with_heap (alter (set_turnIndex (turnAfterLeave i (turnIndex room))) a)
                    (with_heap (alter (fun r => set_players (delete i (players r)) r) a) s))
              !! a = Some room1) as Hboth.
  { intros s Hs. simpl. by rewrite !list_lookup_alter_eq, Hs. }
  destruct (wp_returns (player_leave sid roomId now)
    (fun _ st' => exists room',
       heap st' !! a = Some room' /\
       players room' = players room1 /\ turnIndex room' = turnIndex room1 /\
       JSMap.get sid (socketToRoom st') = None /\
       match length (players room1) with
       | 0 =>
           room' = room1 /\
           rooms st' = JSMap.delete R (rooms st) /\
           roomTimers st' = roomTimers st
       | 1 =>
           room' = set_word None (set_phase lobby room1) /\
           rooms st' = rooms st /\ roomTimers st' = roomTimers st
       | _ =>
           rooms st' = rooms st /\
           if leftAsDrawer i room && Phase_eqb (phase room) drawing
           then exists ge, checkGameEnd room1 = Returns ge /\ room' = endOf now ge room1 /\
                  roomTimers st' = timersAfterEnd a ge room1 (roomTimers st)
           else room' = room1 /\ roomTimers st' = roomTimers st
       end) st)
    as ([] & st' & Hrun & room' & H1 & H2 & H3 & H4 & H5).
  { unfold player_leave. cbv zeta. do 2 wp_known.
    fold (actualRoomId sid roomId st). fold R. rewrite Htruthy.
    change (negb true) with false. cbv iota.
    do 2 wp_known. rewrite Hget. do 4 wp_known. rewrite Hindex.
    fold (leftAsDrawer i room).
    eapply wp_bind, wp_mono with
      (Q := fun _ s => heap s !! a = Some room1 /\ rooms s = rooms st /\
              roomTimers s = roomTimers st /\
              JSMap.get sid (socketToRoom s) = None).
    { unfold without_player, turnAfterLeave in *.
      repeat wp_known; split_and!; try done; try apply Hdel; subst room1; heap_known. }
    intros [] s (Hs & Hs1 & Hs2 & Hs3). cbv beta. do 4 wp_known.
    destruct (length (players room1)) as [|[|n]] eqn:Hn.
    - change (0 =? 0) with true. cbv iota. repeat wp_known.
      exists room1. split_and!; try done. simpl. by rewrite Hs1.
    - change (1 =? 0) with false. change (1 <? 2) with true. cbv iota.
      repeat wp_known. eexists. split_and!; [heap_known|done..].
    - change (S (S n) =? 0) with false. change (S (S n) <? 2) with false. cbv iota.
      assert (phase room1 = phase room) as -> by done.
      destruct (leftAsDrawer i room && Phase_eqb (phase room) drawing) eqn:Hd.
      + assert (players room1 <> []) as Hne by (intros Hnil; by rewrite Hnil in Hn).
        destruct (checkGameEnd_returns room1 Hne) as [ge Hge].
        apply (endRound_spec2 _ now a "timeout" _ room1 ge); [heap_known|done|].
        intros st' (Hw1 & _ & _ & Hw4 & Hw5 & _) Ht1 Ht2 _.
        eexists. split_and!; [exact Hw1| | | | |];
          [unfold endOf; by repeat case_match
          |unfold endOf; by repeat case_match
          |by rewrite Hw5
          |by rewrite Hw4|].
        exists ge. rewrite Ht1. cbn [roomTimers with_sent]. by rewrite Hs2.
      + repeat wp_known. exists room1. by split_and!. }
  exists st', room'. split_and!; try done.
  intros t Ht Hlt Hne. unfold currentDrawer. rewrite H2, H3. subst room1.
  cbn [players turnIndex without_player set_turnIndex set_players].
  rewrite Ht. unfold Num.rem at 2.
  destruct (length (players room)) as [|K] eqn:HK; [lia|]. rewrite <- HK.
  rewrite Nat.mod_small by lia. unfold Num.index at 2.
  apply lookup_delete_drawer; [lia| |done].
  clear -Hindex. revert i Hindex.
  induction (players room) as [|q ps IH]; intros i; simpl; [done|].
  destruct (has_id sid q); [intros [= <-]; lia|].
  destruct (findIndex (has_id sid) ps) as [j|]; [|done].
  intros [= <-]. specialize (IH j eq_refl). lia.
Qed.

Lemma player_leave_removes_player_witness :
  exists st' room',
    player_leave "b" "r" 1000
      (after [PlayerJoin "a" "r" "Ann" 0 0; PlayerJoin "b" "r" "Bob" 10 0;
              PlayerJoin "c" "r" "Cy" 20 0]) = Ok tt st' /\
    heap st' !! 0 = Some room' /\
    players room' = [ann 0; mkPlayer 2 "c" "Cy" 0 true None] /\
    currentDrawer room' = Some (ann 0).
Proof.
  destruct (player_leave_removes_player "b" "r" 1000
              (after [PlayerJoin "a" "r" "Ann" 0 0; PlayerJoin "b" "r" "Bob" 10 0;
                      PlayerJoin "c" "r" "Cy" 20 0]) 0
              (mkRoom "r" [ann 0; bob 0; mkPlayer 2 "c" "Cy" 0 true None]
                 (Some "Cat") 1 (Fin 0) [] drawing (Some 60010%Z)) 1)
    as (st' & room' & H1 & H2 & H3 & _ & _ & H4 & _);
    [vm_compute; reflexivity..|].
  exists st', room'. split_and!; try done.
  rewrite (H4 0); [reflexivity|reflexivity|simpl; lia|lia].
Defined.

(** ** [game:restart] *)

(** X20. [game:restart] does nothing unless the game is over.  Then every
    score is 0, the round is 1, the first player has the turn, nobody has
    guessed; with at least two players a round starts at once, with fewer
    the room waits in the lobby without a word. *)
Theorem game_restart_resets roomId now rnd st a room :
  JSMap.get roomId (rooms st) = Some a ->
  heap st !! a = Some room ->
  if Phase_eqb (phase room) gameover then
    exists st' room',
      game_restart roomId now rnd st = Ok tt st' /\
      heap st' !! a = Some room' /\
      room' = (if 2 <=? length (players room)
               then roundOf now rnd (restarted room) else restarted room) /\
      players room' = map (set_score 0) (players room) /\
      Forall (fun p => score p = 0) (players room') /\
      round room' = 1 /\ turnIndex room' = Fin 0 /\ guessedThisRound room' = [] /\
      currentDrawer room' = head (players room') /\
      (2 <= length (players room) ->
         phase room' = drawing /\
         JSMap.get (rid room) (roomTimers st') = Some (mkTimer a RoundTimer) /\
         timeouts st' = timeouts st ++ [wordDelivery now a room']) /\
      (length (players room) < 2 ->
         phase room' = lobby /\ word room' = None /\
         roomTimers st' = roomTimers st /\ timeouts st' = timeouts st)
  else game_restart roomId now rnd st = Ok tt st.
Proof.
  intros Hget Hroom. destruct (Phase_eqb (phase room) gameover) eqn:Hover.
  - set (room' := if 2 <=? length (players room)
                  then roundOf now rnd (restarted room) else restarted room).
    assert (players room' = map (set_score 0) (players room)) as Hps.
    { subst room'. by destruct (2 <=? _). }
    destruct (wp_returns (game_restart roomId now rnd)
      (fun _ st' =>
         heap st' !! a = Some room' /\
         (2 <= length (players room) ->
            JSMap.get (rid room) (roomTimers st') = Some (mkTimer a RoundTimer) /\
            timeouts st' = timeouts st ++ [wordDelivery now a room']) /\
         (length (players room) < 2 ->
            roomTimers st' = roomTimers st /\ timeouts st' = timeouts st)) st)
      as ([] & st' & Hrun & H1 & H2 & H3).
    { unfold game_restart. do 2 wp_known. rewrite Hget. do 2 wp_known.
      rewrite Hover. change (negb true) with false. cbv iota. do 3 wp_known.
      fold restarted. subst room'.
      destruct (2 <=? length (players room)) eqn:Hlen.
      - apply Nat.leb_le in Hlen.
        apply (startRound_spec _ now rnd a _ (restarted room)); [heap_known| |].
        { simpl. by rewrite length_map. }
        intros st' ((Hw1 & _) & Ht & Hto & _). wp_known.
        split_and!; [done| |intros; lia]. intros _. simpl. split.
        + rewrite Ht. by rewrite JSMapFacts.get_set, String.eqb_refl.
        + exact Hto.
      - apply Nat.leb_gt in Hlen. repeat wp_known.
        split_and!; [heap_known|intros; lia|done]. }
    exists st', room'. split_and!; try done.
    + rewrite Hps. apply Forall_forall. by intros p (q & -> & _)%list_elem_of_fmap.
    + subst room'. by destruct (2 <=? _).
    + subst room'. by destruct (2 <=? _).
    + subst room'. by destruct (2 <=? _).
    + unfold currentDrawer. rewrite Hps.
      assert (turnIndex room' = Fin 0) as -> by (subst room'; by destruct (2 <=? _)).
      destruct (map (set_score 0) (players room)) as [|q qs]; [done|].
      unfold Num.rem, Num.index. cbn [length]. by rewrite Nat.Div0.mod_0_l.
    + intros Hlen. split; [|by apply H2]. subst room'.
      apply Nat.leb_le in Hlen. by rewrite Hlen.
    + intros Hlen. destruct (H3 Hlen) as [? ?]. subst room'.
      apply Nat.leb_gt in Hlen. rewrite Hlen. unfold restarted. by rewrite Hlen.
  - destruct (wp_returns (game_restart roomId now rnd) (fun _ st' => st' = st) st)
      as ([] & st' & Hrun & ->); [|done].
    unfold game_restart. do 2 wp_known. rewrite Hget. do 2 wp_known.
    by rewrite Hover.
Qed.

Lemma game_restart_resets_witness :
  exists st' room',
    game_restart "r" 100 2 (state_of (room_of [ann 10; bob 4] 3 gameover)) = Ok tt st' /\
    heap st' !! 0 = Some room' /\
    players room' = [ann 0; bob 0] /\ round room' = 1 /\ phase room' = drawing.
Proof.
  pose proof (game_restart_resets "r" 100 2 (state_of (room_of [ann 10; bob 4] 3 gameover)) 0
                (room_of [ann 10; bob 4] 3 gameover) eq_refl eq_refl) as H.
  cbn [Phase_eqb phase room_of] in H.
  destruct H as (st' & room' & H1 & H2 & _ & H3 & _ & H4 & _ & _ & _ & H5 & _).
  exists st', room'. split_and!; try done. apply H5. simpl. lia.
Defined.

(** ** The events of the drawer *)

(** X21. [draw:stroke], [round:clear], [room:close] and [round:skip] from a
    socket that is not the drawer of the room do nothing at all. *)
Theorem only_the_drawer_acts sid roomId st a room :
  heap st !! a = Some room ->
  is_drawer sid room = false ->
  (JSMap.get (Str.trim roomId) (rooms st) = Some a ->
   (forall points, draw sid roomId points st = Ok tt st) /\
   round_clear_request sid roomId st = Ok tt st /\
   room_close sid roomId st = Ok tt st) /\
  (JSMap.get roomId (rooms st) = Some a ->
   forall now, round_skip sid roomId now st = Ok tt st).
Proof.
  intros Hroom Hno. split.
  - intros Hget. split_and!; [intros points| |].
    + destruct (wp_returns (draw sid roomId points) (fun _ st' => st' = st) st)
        as ([] & st' & Hrun & ->); [|done].
      unfold draw. cbv zeta. do 2 wp_known. rewrite Hget. do 2 wp_known.
      by rewrite Hno.
    + destruct (wp_returns (round_clear_request sid roomId) (fun _ st' => st' = st) st)
        as ([] & st' & Hrun & ->); [|done].
      unfold round_clear_request. cbv zeta. do 2 wp_known. rewrite Hget. do 2 wp_known.
      by rewrite Hno.
    + destruct (wp_returns (room_close sid roomId) (fun _ st' => st' = st) st)
        as ([] & st' & Hrun & ->); [|done].
      unfold room_close. cbv zeta. do 2 wp_known. rewrite Hget. do 2 wp_known.
      by rewrite Hno.
  - intros Hget now.
    destruct (wp_returns (round_skip sid roomId now) (fun _ st' => st' = st) st)
      as ([] & st' & Hrun & ->); [|done].
    unfold round_skip. do 2 wp_known. rewrite Hget. do 2 wp_known.
    by rewrite Hno.
Qed.

Lemma only_the_drawer_acts_witness :
  (forall points, draw "b" "r" points (after two_joined) = Ok tt (after two_joined)) /\
  round_skip "b" "r" 1000 (after two_joined) = Ok tt (after two_joined).
Proof.
  destruct (only_the_drawer_acts "b" "r" (after two_joined) 0
              (mkRoom "r" [ann 0; bob 0] (Some "Cat") 1 (Fin 0) [] drawing (Some 60010%Z)))
    as [H1 H2]; [vm_compute; reflexivity..|].
  split.
  - apply H1. vm_compute; reflexivity.
  - apply H2. vm_compute; reflexivity.
Defined.

(** X22. From the drawer: [draw:stroke] relays a non-empty list of points
    to the other sockets of the room and drops an empty one; [round:clear]
    is broadcast to the room; [room:close] announces the closing,
    unregisters the room and broadcasts the new list of rooms, and leaves
    the room object, the timers, the pending timeouts and the sockets' rooms
    as they are. *)
Theorem drawer_relays_and_closes sid roomId st a room :
  JSMap.get (Str.trim roomId) (rooms st) = Some a ->
  heap st !! a = Some room ->
  is_drawer sid room = true ->
  (forall points,
     draw sid roomId points st =
       Ok tt (if length points =? 0 then st
              else with_sent (fun l => l ++
                     [mkEmit (SocketTo sid (Str.trim roomId))
                        (draw_stroke (Str.trim roomId) points)]) st)) /\
  round_clear_request sid roomId st =
    Ok tt (with_sent (fun l => l ++
             [mkEmit (IoTo (Str.trim roomId)) (round_clear (Str.trim roomId))]) st) /\
  exists st',
    room_close sid roomId st = Ok tt st' /\
    rooms st' = JSMap.delete (Str.trim roomId) (rooms st) /\
    JSMap.get (Str.trim roomId) (rooms st') = None /\
    heap st' = heap st /\
    roomTimers st' = roomTimers st /\
    timeouts st' = timeouts st /\
    socketToRoom st' = socketToRoom st /\
    sent st' = sent st ++
      [mkEmit (IoTo (Str.trim roomId))
         (chat_message (Str.trim roomId) "System" "Room was closed by the drawer." true);
       mkEmit IoAll (rooms_list (getPublicRooms st'));
       mkEmit (IoTo "__rooms__") (rooms_list (getPublicRooms st'))].
Proof.
  intros Hget Hroom Hyes. split_and!; [intros points| |].
  - match goal with |- _ = Ok tt ?s =>
      destruct (wp_returns (draw sid roomId points) (fun _ st' => st' = s) st)
        as ([] & st' & Hrun & ->); [|done] end.
    unfold draw. cbv zeta. do 2 wp_known. rewrite Hget. do 2 wp_known.
    rewrite Hyes. change (negb true) with false. cbv iota.
    destruct (length points =? 0); by repeat wp_known.
  - match goal with |- _ = Ok tt ?s =>
      destruct (wp_returns (round_clear_request sid roomId) (fun _ st' => st' = s) st)
        as ([] & st' & Hrun & ->); [|done] end.
    unfold round_clear_request. cbv zeta. do 2 wp_known. rewrite Hget. do 2 wp_known.
    rewrite Hyes. change (negb true) with false. cbv iota. by repeat wp_known.
  - destruct (wp_returns (room_close sid roomId)
      (fun _ st' =>
         rooms st' = JSMap.delete (Str.trim roomId) (rooms st) /\
         heap st' = heap st /\ roomTimers st' = roomTimers st /\
         timeouts st' = timeouts st /\ socketToRoom st' = socketToRoom st /\
         sent st' = sent st ++
           [mkEmit (IoTo (Str.trim roomId))
              (chat_message (Str.trim roomId) "System" "Room was closed by the drawer." true);
            mkEmit IoAll (rooms_list (getPublicRooms st'));
            mkEmit (IoTo "__rooms__") (rooms_list (getPublicRooms st'))]) st)
      as ([] & st' & Hrun & H1 & H2 & H3 & H4 & H5 & H6).
    { unfold room_close. cbv zeta. do 2 wp_known. rewrite Hget. do 2 wp_known.
      rewrite Hyes. change (negb true) with false. cbv iota. repeat wp_known.
      split_and!; try done. simpl. by rewrite <- !app_assoc. }
    exists st'. split_and!; try done.
    rewrite H1. by rewrite JSMapFacts.get_delete, String.eqb_refl.
Qed.

Lemma drawer_relays_and_closes_witness :
  exists st',
    room_close "a" " r " (after two_joined) = Ok tt st' /\
    JSMap.get "r" (rooms st') = None /\
    roomTimers st' = [("r", mkTimer 0 RoundTimer)].
Proof.
  destruct (drawer_relays_and_closes "a" " r " (after two_joined) 0
              (mkRoom "r" [ann 0; bob 0] (Some "Cat") 1 (Fin 0) [] drawing (Some 60010%Z)))
    as (_ & _ & st' & H1 & _ & H2 & _ & H3 & _); [vm_compute; reflexivity..|].
  exists st'. split_and!; [done|exact H2|]. rewrite H3. vm_compute. reflexivity.
Defined.

(** X23. [round:skip] from the drawer ends the round with the reason
    [skipped]: players, round number and turn stay, the room leaves the
    drawing phase, and the timers are those [endRound] leaves. *)
Theorem round_skip_ends_round sid roomId now st a room :
  JSMap.get roomId (rooms st) = Some a ->
  heap st !! a = Some room ->
  is_drawer sid room = true ->
  exists st' ge,
    round_skip sid roomId now st = Ok tt st' /\
    checkGameEnd room = Returns ge /\
    heap st' !! a = Some (endOf now ge room) /\
    players (endOf now ge room) = players room /\
    round (endOf now ge room) = round room /\
    turnIndex (endOf now ge room) = turnIndex room /\
    phase (endOf now ge room) <> drawing /\
    roomTimers st' = timersAfterEnd a ge room (roomTimers st) /\
    exists rest,
      sent st' = sent st ++
        mkEmit (IoTo (rid room)) (round_ended (rid room) "skipped") :: rest.
Proof.
  intros Hget Hroom Hyes.
  assert (players room <> []) as Hne.
  { unfold is_drawer in Hyes. destruct (currentDrawer room) as [d|] eqn:Hd; [|done].
    apply currentDrawer_in in Hd. intros Hnil. rewrite Hnil in Hd.
    by apply elem_of_nil in Hd. }
  destruct (checkGameEnd_returns room Hne) as [ge Hge].
  destruct (wp_returns (round_skip sid roomId now)
    (fun _ st' =>
       heap st' !! a = Some (endOf now ge room) /\
       roomTimers st' = timersAfterEnd a ge room (roomTimers st) /\
       exists rest,
         sent st' = sent st ++
           mkEmit (IoTo (rid room)) (round_ended (rid room) "skipped") :: rest) st)
    as ([] & st' & Hrun & H1 & H2 & H3).
  { unfold round_skip. do 2 wp_known. rewrite Hget. do 2 wp_known.
    rewrite Hyes. change (negb true) with false. cbv iota.
    apply (endRound_spec2 _ now a "skipped" _ room ge); [done|done|].
    intros st' (Hw1 & _) Ht _ (rest & Hs & _). split_and!; [done|done|by exists rest]. }
  exists st', ge. split_and!; try done; unfold endOf; by repeat case_match.
Qed.

Lemma round_skip_ends_round_witness :
  exists st' ge,
    round_skip "a" "r" 1000 (after two_joined) = Ok tt st' /\
    ended ge = false /\
    heap st' !! 0 =
      Some (mkRoom "r" [ann 0; bob 0] (Some "Cat") 1 (Fin 0) [] intermission
              (Some 4000%Z)).
Proof.
  destruct (round_skip_ends_round "a" "r" 1000 (after two_joined) 0
              (mkRoom "r" [ann 0; bob 0] (Some "Cat") 1 (Fin 0) [] drawing (Some 60010%Z)))
    as (st' & ge & H1 & H2 & H3 & _); [vm_compute; reflexivity..|].
  vm_compute in H2. injection H2 as <-.
  exists st', (mkGameEnd false None None). split_and!; [done|done|].
  rewrite H3. vm_compute. reflexivity.
Defined.

(** ** Which event can throw what *)

Section Safe.
Context (E : string -> Prop).




End Safe.




Section SocketEvents.
Context (st : State) (Hinv : inv None st).











End SocketEvents.












(** ** [chat:message] *)

(** X25. [chat:message] to a registered room changes nothing but the events
    sent, and sends at most one: the trimmed text under the name of the
    sender, to the room.  Nothing is sent exactly when the sender is not a
    player of the room, the text is blank, or the text is the word up to
    normalisation. *)
Theorem chat_relays sid roomId message st a room :
  JSMap.get (Str.trim roomId) (rooms st) = Some a ->
  heap st !! a = Some room ->
  exists st' new,
    chat sid roomId message st = Ok tt st' /\
    only_sent new st st' /\
    length new <= 1 /\
    (forall e, e ∈ new ->
       exists player,
         find (has_id sid) (players room) = Some player /\
         Str.trim message <> "" /\
         e = mkEmit (IoTo (Str.trim roomId))
               (chat_message (Str.trim roomId) (name player) (Str.trim message) false) /\
         (forall w, word room = Some w -> w <> "" ->
            normalize (Str.trim message) <> normalize w)) /\
    (new = [] <->
       find (has_id sid) (players room) = None \/
       Str.trim message = "" \/
       exists w, word room = Some w /\ w <> "" /\
                 normalize (Str.trim message) = normalize w).
Proof.
  intros Hget Hroom.
  assert (forall s : State, only_sent [] s s) as Hsame.
  { intros s. unfold only_sent. by rewrite app_nil_r. }
  assert (forall (s : State) e,
            only_sent [e] s (with_sent (fun l => l ++ [e]) s)) as Hone by done.
  assert (forall target,
            wp (fun _ => False) (chat sid roomId message) (fun _ s => s = target) st ->
            chat sid roomId message st = Ok tt target) as Hret.
  { intros target Hwp. by destruct (wp_returns _ _ st Hwp) as ([] & st' & ? & ->). }
  destruct (find (has_id sid) (players room)) as [player|] eqn:Hfind; last first.
  { assert (chat sid roomId message st = Ok tt st) as Hrun.
    { apply Hret. unfold chat. cbv zeta.
      do 2 wp_known. rewrite Hget. do 2 wp_known. rewrite Hfind. reflexivity. }
    exists st, []. split_and!; try done; [simpl; lia|by intros ? ?%elem_of_nil|].
    split; [by left|done]. }
  destruct (Str.truthy (Str.trim message)) eqn:Htext; last first.
  { assert (chat sid roomId message st = Ok tt st) as Hrun.
    { apply Hret. unfold chat. cbv zeta.
      do 2 wp_known. rewrite Hget. do 2 wp_known. rewrite Hfind, Htext. reflexivity. }
    exists st, []. split_and!; try done; [simpl; lia|by intros ? ?%elem_of_nil|].
    split; [|done]. intros _. right; left. by destruct (Str.trim message). }
  assert (Str.trim message <> "") as Hne by (intros Hb; by rewrite Hb in Htext).
  destruct (word_truthy (word room)
            && String.eqb (normalize (Str.trim message)) (normalize (default "" (word room))))
    eqn:Hword.
  - assert (chat sid roomId message st = Ok tt st) as Hrun.
    { apply Hret. unfold chat. cbv zeta.
      do 2 wp_known. rewrite Hget. do 2 wp_known. rewrite Hfind, Htext.
      change (negb true) with false. cbv iota. rewrite Hword. reflexivity. }
    exists st, []. split_and!; try done; [simpl; lia|by intros ? ?%elem_of_nil|].
    split; [|done]. intros _. right; right.
    apply andb_prop in Hword as [Hw Heq%String.eqb_eq].
    destruct (word room) as [w|]; [|done]. exists w. split_and!; [done| |done].
    intros ->. done.
  - eexists _, [_]. split_and!; [|apply Hone|simpl; lia| |].
    { apply Hret. unfold chat. cbv zeta.
      do 2 wp_known. rewrite Hget. do 2 wp_known. rewrite Hfind, Htext.
      change (negb true) with false. cbv iota. rewrite Hword. wp_known. reflexivity. }
    + intros e ->%list_elem_of_singleton. exists player. split_and!; try done.
      intros w Hw Hwne Heq. rewrite Hw in Hword. simpl in Hword.
      rewrite Heq, String.eqb_refl, andb_true_r in Hword. by destruct w.
    + split; [done|]. intros [H|[H|(w & Hw & Hwne & Heq)]]; try done.
      rewrite Hw in Hword. simpl in Hword.
      rewrite Heq, String.eqb_refl, andb_true_r in Hword. by destruct w.
Qed.

Lemma chat_relays_witness :
  exists st' new,
    chat "b" "r" " hello " (after two_joined) = Ok tt st' /\
    only_sent new (after two_joined) st' /\
    (forall e, e ∈ new ->
       e = mkEmit (IoTo "r") (chat_message "r" "Bob" "hello" false)).
Proof.
  destruct (chat_relays "b" "r" " hello " (after two_joined) 0
              (mkRoom "r" [ann 0; bob 0] (Some "Cat") 1 (Fin 0) [] drawing (Some 60010%Z)))
    as (st' & new & H1 & H2 & _ & H3 & _); [vm_compute; reflexivity..|].
  exists st', new. split_and!; [done|done|].
  intros e He. destruct (H3 e He) as (player & Hp & _ & -> & _).
  vm_compute in Hp. by injection Hp as <-.
Defined.

(** ** The callbacks of [setTimeout] *)

(** X26. The timeout that [disconnect] schedules for an abandoned room does
    nothing before it is due.  When it runs it leaves the pending list, and
    it unregisters the room only if still no player is connected; otherwise
    the room stays and nothing is sent. *)
Theorem abandoned_room_deletion k now st d roomId a room :
  timeouts st !! k = Some (DeleteAbandoned d roomId) ->
  JSMap.get roomId (rooms st) = Some a ->
  heap st !! a = Some room ->
  if (d <=? now)%Z then
    exists st',
      timeoutFire k now st = Ok tt st' /\
      timeouts st' = delete k (timeouts st) /\
      heap st' = heap st /\ roomTimers st' = roomTimers st /\
      rooms st' =
        (if length (filter (fun p => connected p = true) (players room)) =? 0
         then JSMap.delete roomId (rooms st) else rooms st) /\
      ((length (filter (fun p => connected p = true) (players room)) =? 0) = true ->
         JSMap.get roomId (rooms st') = None) /\
      ((length (filter (fun p => connected p = true) (players room)) =? 0) = false ->
         sent st' = sent st)
  else timeoutFire k now st = Ok tt st.
Proof.
  intros Hk Hget Hroom. fold (connectedPlayers room).
  destruct (d <=? now)%Z eqn:Hdue.
  - destruct (wp_returns (timeoutFire k now)
      (fun _ st' =>
         timeouts st' = delete k (timeouts st) /\
         heap st' = heap st /\ roomTimers st' = roomTimers st /\
         rooms st' = (if length (connectedPlayers room) =? 0
                      then JSMap.delete roomId (rooms st) else rooms st) /\
         ((length (connectedPlayers room) =? 0) = false -> sent st' = sent st)) st)
      as ([] & st' & Hrun & H1 & H2 & H3 & H4 & H5).
    { unfold timeoutFire. do 2 wp_known. rewrite Hk. cbn [due_of]. rewrite Hdue.
      cbv iota. do 2 wp_known. unfold fire. do 2 wp_known.
      cbn [rooms with_timeouts]. rewrite Hget. do 2 wp_known.
      destruct (length (connectedPlayers room) =? 0) eqn:Hn; by repeat wp_known. }
    exists st'. split_and!; try done.
    intros Hn. rewrite H4, Hn. by rewrite JSMapFacts.get_delete, String.eqb_refl.
  - destruct (wp_returns (timeoutFire k now) (fun _ st' => st' = st) st)
      as ([] & st' & Hrun & ->); [|done].
    unfold timeoutFire. do 2 wp_known. rewrite Hk. cbn [due_of]. by rewrite Hdue.
Qed.

Lemma abandoned_room_deletion_witness :
  exists st',
    timeoutFire 1 70000
      (after (two_joined ++ [Disconnect "a" 30000; Disconnect "b" 31000])) = Ok tt st' /\
    JSMap.get "r" (rooms st') = None.
Proof.
  pose proof (abandoned_room_deletion 1 70000
    (after (two_joined ++ [Disconnect "a" 30000; Disconnect "b" 31000])) 66000 "r" 0
    (mkRoom "r" [mkPlayer 0 "a" "Ann" 0 false (Some 30000%Z);
                 mkPlayer 1 "b" "Bob" 0 false (Some 31000%Z)]
       None 1 (Fin 0) [] lobby (Some 60010%Z))
    ltac:(vm_compute; reflexivity) ltac:(vm_compute; reflexivity)
    ltac:(vm_compute; reflexivity)) as H.
  change (66000 <=? 70000)%Z with true in H. cbv iota in H.
  destruct H as (st' & H1 & _ & _ & _ & _ & H2 & _).
  exists st'. split; [done|]. apply H2. vm_compute. reflexivity.
Defined.

(** ** [getOrCreateRoom] *)

(** X27. [getOrCreateRoom] always returns a room registered under the id,
    and asking again changes nothing.  A registered room is returned as it
    is; otherwise a new empty room is allocated and registered.  The other
    rooms, the room objects already there, the timers, the pending timeouts
    and the events sent are untouched. *)
Theorem getOrCreateRoom_registers k st :
  exists a st',
    getOrCreateRoom k st = Ok a st' /\
    JSMap.get k (rooms st') = Some a /\
    getOrCreateRoom k st' = Ok a st' /\
    (forall k', k' <> k -> JSMap.get k' (rooms st') = JSMap.get k' (rooms st)) /\
    (forall b r, heap st !! b = Some r -> heap st' !! b = Some r) /\
    roomTimers st' = roomTimers st /\ timeouts st' = timeouts st /\ sent st' = sent st /\
    match JSMap.get k (rooms st) with
    | Some a0 => a = a0 /\ st' = st
    | None => a = length (heap st) /\ heap st' = heap st ++ [newRoom k]
    end.
Proof.
  assert (forall s, getOrCreateRoom k s =
            match JSMap.get k (rooms s) with
            | Some a0 => Ok a0 s
            | None => Ok (length (heap s))
                        (with_rooms (JSMap.set k (length (heap s)))
                           (with_heap (fun h => h ++ [newRoom k]) s))
            end) as Hrun.
  { intros s. unfold getOrCreateRoom. rewrite bind_run. unfold gets at 1. cbv beta.
    by destruct (JSMap.get k (rooms s)). }
  rewrite Hrun.
  destruct (JSMap.get k (rooms st)) as [a0|] eqn:Hget.
  - exists a0, st. split_and!; try done. by rewrite Hrun, Hget.
  - eexists _, _. split; [reflexivity|]. simpl.
    assert (JSMap.get k (JSMap.set k (length (heap st)) (rooms st))
            = Some (length (heap st))) as Hnew.
    { by rewrite JSMapFacts.get_set, String.eqb_refl. }
    split_and!; try done.
    + rewrite Hrun. simpl. by rewrite Hnew.
    + intros k' Hk. rewrite JSMapFacts.get_set. by apply String.eqb_neq in Hk as ->.
    + intros b r Hb. rewrite lookup_app_l; [done|by eapply lookup_lt_Some].
Qed.

Lemma getOrCreateRoom_registers_witness :
  exists st',
    getOrCreateRoom "s" (after two_joined) = Ok 1 st' /\
    heap st' !! 0 = heap (after two_joined) !! 0.
Proof.
  destruct (getOrCreateRoom_registers "s" (after two_joined))
    as (a & st' & H1 & _ & _ & _ & H2 & _ & _ & _ & H3).
  change (JSMap.get "s" (rooms (after two_joined))) with (@None nat) in H3.
  destruct H3 as [-> _]. exists st'. split; [exact H1|].
  destruct (heap (after two_joined) !! 0) as [r|] eqn:Hr; [|vm_compute in Hr; discriminate].
  by apply H2.
Defined.

(** ** The timer of a round *)

(** X28. When the time of a round of a room with players runs out, the tick
    of its timer ends the round with the reason [timeout]: the players stay,
    the room goes to the intermission (with its timer, ending
    [INTERMISSION_MS] later) if the game goes on with at least two players,
    to the lobby with fewer, and to game over (no timer) if the game has
    ended. *)
Theorem round_timer_expiry_ends_round roomId now rnd st a room :
  JSMap.get roomId (roomTimers st) = Some (mkTimer a RoundTimer) ->
  heap st !! a = Some room ->
  (match roundEndAt room with Some e => e | None => 0 end <= now)%Z ->
  players room <> [] ->
  exists st' ge,
    timerTick roomId now rnd st = Ok tt st' /\
    checkGameEnd room = Returns ge /\
    heap st' !! a = Some (endOf now ge (set_roundEndAt None room)) /\
    players (endOf now ge (set_roundEndAt None room)) = players room /\
    phase (endOf now ge (set_roundEndAt None room)) =
      (if ended ge then gameover
       else if 2 <=? length (players room) then intermission else lobby) /\
    JSMap.get (rid room) (roomTimers st') =
      (if ended ge then None
       else if 2 <=? length (players room)
            then Some (mkTimer a IntermissionTimer) else None) /\
    (ended ge = false -> 2 <= length (players room) ->
       roundEndAt (endOf now ge (set_roundEndAt None room))
         = Some (now + INTERMISSION_MS)%Z) /\
    timeouts st' = timeouts st /\
    mkEmit (IoTo (rid room)) (round_ended (rid room) "timeout") ∈ sent_since st st'.
Proof.
  intros Hget Hroom Hdue Hne.
  destruct (checkGameEnd_returns room Hne) as [ge Hge].
  set (room1 := set_roundEndAt None room).
  destruct (wp_returns (timerTick roomId now rnd)
    (fun _ st' =>
       heap st' !! a = Some (endOf now ge room1) /\
       roomTimers st' = timersAfterEnd a ge room1 (JSMap.delete (rid room) (roomTimers st)) /\
       timeouts st' = timeouts st /\
       exists pre rest,
         sent st' = (sent st ++ pre) ++
           mkEmit (IoTo (rid room)) (round_ended (rid room) "timeout") :: rest) st)
    as ([] & st' & Hrun & H1 & H2 & H3 & pre & rest & H4).
  { unfold timerTick. do 2 wp_known. rewrite Hget. do 2 wp_known.
    assert ((match roundEndAt room with Some e => e | None => 0 end - now <=? 0)%Z = true)
      as -> by (apply Z.leb_le; lia).
    repeat wp_known. unfold onComplete. cbn [t_kind t_room].
    apply (endRound_spec2 _ now a "timeout" _ room1 ge); [heap_known|done|].
    intros st' (Hw1 & _) Ht Hto (rest & Hs & _). split_and!; try done.
    eexists [_], rest. exact Hs. }
  exists st', ge. split_and!; try done.
  - unfold endOf. by repeat case_match.
  - unfold endOf. destruct (ended ge); [done|].
    cbn [players room1 set_roundEndAt]. by destruct (2 <=? length (players room)).
  - rewrite H2. unfold timersAfterEnd. cbn [rid room1 set_roundEndAt players].
    destruct (ended ge); [|destruct (2 <=? length (players room))];
      rewrite ?JSMapFacts.get_set, ?JSMapFacts.get_delete, ?String.eqb_refl; done.
  - intros Hno Hlen. unfold endOf. rewrite Hno.
    apply Nat.leb_le in Hlen. cbn [players room1 set_roundEndAt]. by rewrite Hlen.
  - unfold sent_since. rewrite H4, <- app_assoc, drop_app_length.
    apply elem_of_app. right. by left.
Qed.

Lemma round_timer_expiry_ends_round_witness :
  exists st' ge,
    timerTick "r" 60010 0 (after two_joined) = Ok tt st' /\
    ended ge = false /\
    JSMap.get "r" (roomTimers st') = Some (mkTimer 0 IntermissionTimer).
Proof.
  destruct (round_timer_expiry_ends_round "r" 60010 0 (after two_joined) 0
              (mkRoom "r" [ann 0; bob 0] (Some "Cat") 1 (Fin 0) [] drawing (Some 60010%Z)))
    as (st' & ge & H1 & H2 & _ & _ & _ & H3 & _);
    [vm_compute; reflexivity|vm_compute; reflexivity|simpl; lia|done|].
  vm_compute in H2. injection H2 as <-.
  exists st', (mkGameEnd false None None). by split_and!.
Defined.

(** ** [guess:submit], when the guess does not count *)

(** X29. [guess:submit] to a registered room does nothing at all when the
    room is not in the drawing phase, the sender is not a player, there is
    no drawer, the sender is the drawer, the guess is blank, somebody
    guessed already, or the guess differs from the word up to
    normalisation. *)
Theorem guess_rejected sid roomId guess now st a room :
  JSMap.get (Str.trim roomId) (rooms st) = Some a ->
  heap st !! a = Some room ->
  phase room <> drawing \/
  find (has_id sid) (players room) = None \/
  currentDrawer room = None \/
  is_drawer sid room = true \/
  normalize guess = "" \/
  guessedThisRound room <> [] \/
  normalize guess <> normalize (default "" (word room)) ->
  guess_submit sid roomId guess now st = Ok tt st.
Proof.
  intros Hget Hroom Hwhy.
  destruct (wp_returns (guess_submit sid roomId guess now) (fun _ st' => st' = st) st)
    as ([] & st' & Hrun & ->); [|done].
  unfold guess_submit. cbv zeta. do 2 wp_known. rewrite Hget. do 2 wp_known.
  destruct (Phase_eqb (phase room) drawing) eqn:Hphase; [|done].
  change (negb true) with false. cbv iota.
  destruct (find (has_id sid) (players room)) as [player|] eqn:Hplayer; [|done].
  unfold is_drawer in Hwhy.
  destruct (currentDrawer room) as [drawer|] eqn:Hdrawer; [|done].
  destruct (String.eqb (id drawer) sid) eqn:Hsame; [done|].
  destruct (Str.truthy (normalize guess)) eqn:Hempty; [|done].
  change (negb true) with false. cbv iota.
  destruct (0 <? length (guessedThisRound room)) eqn:Hguessed; [done|].
  destruct (String.eqb (normalize guess) (normalize (default "" (word room)))) eqn:Heq;
    [|done].
  exfalso. apply String.eqb_eq in Heq.
  destruct Hwhy as [H|[H|[H|[H|[H|[H|H]]]]]]; try done.
  - destruct (phase room); done.
  - by rewrite H in Hempty.
  - destruct (guessedThisRound room); [done|]. simpl in Hguessed. done.
Qed.

Lemma guess_rejected_witness :
  guess_submit "b" "r" "dog" 5000 (after two_joined) = Ok tt (after two_joined).
Proof.
  apply (guess_rejected "b" "r" "dog" 5000 (after two_joined) 0
           (mkRoom "r" [ann 0; bob 0] (Some "Cat") 1 (Fin 0) [] drawing (Some 60010%Z)));
    [vm_compute; reflexivity|vm_compute; reflexivity|].
  do 6 right. vm_compute. discriminate.
Defined.

(** White space of Unicode around the word counts as little as blanks do: a
    chat message that is the word followed by a no-break space is dropped,
    and a guess written that way is the correct guess. *)
Example unicode_padding_is_ignored :
  chat "b" "r" (Unicode.utf8 [67; 97; 116; 160]%N) (after two_joined)
    = Ok tt (after two_joined) /\
  exists st' room',
    guess_submit "b" "r" (Unicode.utf8 [99; 97; 116; 160]%N) 5000 (after two_joined)
      = Ok tt st' /\
    heap st' !! 0 = Some room' /\
    map score (players room') = [1; 2].
Proof.
  split; [vm_compute; reflexivity|]. eexists _, _.
  repeat (split; [vm_compute; reflexivity|]). vm_compute; reflexivity.
Qed.

(** ** A round that runs is counted down *)

Lemma quiet_timed st k a r : quiet_phase r -> timed st k a r.
Proof. intros [H1 H2] [] Hk; simpl in Hk; done. Qed.

Section Inv3Writes.
Context (x : option nat) (st : State).
Implicit Types (f : Room -> Room).

Lemma inv3_sent g : inv3 x st -> inv3 x (with_sent g st).
Proof. done. Qed.

Lemma inv3_nextOid g : inv3 x st -> inv3 x (with_nextOid g st).
Proof. done. Qed.

Lemma inv3_timeouts g : inv3 x st -> inv3 x (with_timeouts g st).
Proof. done. Qed.

Lemma inv3_socketToRoom g : inv3 x st -> inv3 x (with_socketToRoom g st).
Proof. done. Qed.

Lemma inv3_rooms_delete k : inv3 x st -> inv3 x (with_rooms (JSMap.delete k) st).
Proof.
  intros (HR & HT & HN & HQ). split_and!; simpl.
  - intros k' a Hk'. apply JSMapFacts.get_delete_Some in Hk'. by apply HR.
  - done.
  - intros k' a r Hk' Hr Hx. apply JSMapFacts.get_delete_Some in Hk'. by apply HN.
  - intros b rb a r Hx Hb Hk' Hne Hr. apply JSMapFacts.get_delete_Some in Hk'.
    by eapply HQ.
Qed.

Lemma inv3_modifyRoom b f : inv3 x st -> keeps3 f -> inv3 x (with_heap (alter f b) st).
Proof.
  intros (HR & HT & HN & HQ) Hf.
  assert (forall c r', alter f b (heap st) !! c = Some r' ->
            exists r, heap st !! c = Some r /\ rid r' = rid r /\
                      (phase r' = phase r \/ quiet_phase r')) as Hlook.
  { intros c r'. destruct (decide (b = c)) as [->|Hne].
    - rewrite list_lookup_alter_eq. intros (r & Hr & ->)%fmap_Some.
      exists r. destruct (Hf r) as [? ?]. done.
    - rewrite list_lookup_alter_ne by done. intros Hr. exists r'. auto. }
  split_and!; simpl.
  - intros k a Hk. destruct (HR k a Hk) as (r & Hr & Hid).
    destruct (decide (b = a)) as [->|Hne].
    + exists (f r). rewrite list_lookup_alter_eq, Hr. split; [done|].
      by rewrite (proj1 (Hf r)).
    + exists r. by rewrite list_lookup_alter_ne.
  - intros k t Hk. destruct (HT k t Hk) as (r & Hr & Hid).
    destruct (decide (b = t_room t)) as [->|Hne].
    + exists (f r). rewrite list_lookup_alter_eq, Hr. split; [done|].
      by rewrite (proj1 (Hf r)).
    + exists r. by rewrite list_lookup_alter_ne.
  - intros k a r' Hk Hr' Hx. destruct (Hlook a r' Hr') as (r & Hr & _ & [Hp|Hq]).
    + intros kind Hkind. rewrite Hp in Hkind. by apply (HN k a r).
    + by apply quiet_timed.
  - intros c rc a r' Hx Hc Hk Hne Hr'.
    destruct (Hlook c rc Hc) as (rc0 & Hrc0 & Hid & _).
    destruct (Hlook a r' Hr') as (r & Hr & _ & [Hp|Hq]); [|done].
    rewrite Hid in Hk. destruct (HQ c rc0 a r Hx Hrc0 Hk Hne Hr) as [? ?].
    split; by rewrite Hp.
Qed.

End Inv3Writes.

(** The room object at [a], on which the handler works, may change its phase. *)
Lemma inv3_free a f st :
  inv3 (Some a) st -> (forall r, rid (f r) = rid r) ->
  inv3 (Some a) (with_heap (alter f a) st).
Proof.
  intros (HR & HT & HN & HQ) Hf. split_and!; simpl.
  - intros k b Hk. destruct (HR k b Hk) as (r & Hr & Hid).
    destruct (decide (a = b)) as [->|Hne].
    + exists (f r). rewrite list_lookup_alter_eq, Hr. split; [done|]. by rewrite Hf.
    + exists r. by rewrite list_lookup_alter_ne.
  - intros k t Hk. destruct (HT k t Hk) as (r & Hr & Hid).
    destruct (decide (a = t_room t)) as [->|Hne].
    + exists (f r). rewrite list_lookup_alter_eq, Hr. split; [done|]. by rewrite Hf.
    + exists r. by rewrite list_lookup_alter_ne.
  - intros k b r Hk Hr Hx. assert (a <> b) as Hne by congruence.
    rewrite list_lookup_alter_ne in Hr by done. by apply (HN k b r).
  - intros b rb c r [= <-] Hb Hk Hne Hr.
    rewrite list_lookup_alter_eq in Hb. apply fmap_Some in Hb as (rb0 & Hrb0 & ->).
    rewrite list_lookup_alter_ne in Hr by done. rewrite Hf in Hk.
    by eapply (HQ a rb0 c r).
Qed.

(** The timer of the room object at [a] is stopped. *)
Lemma inv3_timers_delete_at a rb st :
  inv3 (Some a) st -> heap st !! a = Some rb ->
  inv3 (Some a) (with_roomTimers (JSMap.delete (rid rb)) st).
Proof.
  intros (HR & HT & HN & HQ) Ha. split_and!; simpl; [done| | |done].
  - intros k t Hk. apply JSMapFacts.get_delete_Some in Hk. by apply HT.
  - intros k b r Hk Hr Hx. assert (b <> a) as Hne by congruence.
    destruct (String.eqb k (rid rb)) eqn:Hkey.
    + apply String.eqb_eq in Hkey as ->. apply quiet_timed.
      by eapply (HQ a rb b r).
    + intros kind Hkind. simpl. rewrite JSMapFacts.get_delete, Hkey.
      by apply (HN k b r).
Qed.

(** The timer of the room object at [a] is started. *)
Lemma inv3_timers_set_at a rb kind st :
  inv3 (Some a) st -> heap st !! a = Some rb ->
  inv3 (Some a) (with_roomTimers (JSMap.set (rid rb) (mkTimer a kind)) st).
Proof.
  intros (HR & HT & HN & HQ) Ha. split_and!; simpl; [done| | |done].
  - intros k t. rewrite JSMapFacts.get_set.
    destruct (String.eqb k (rid rb)) eqn:Hkey; [|by apply HT].
    apply String.eqb_eq in Hkey as ->. intros [= <-]. by exists rb.
  - intros k b r Hk Hr Hx. assert (b <> a) as Hne by congruence.
    destruct (String.eqb k (rid rb)) eqn:Hkey.
    + apply String.eqb_eq in Hkey as ->. apply quiet_timed.
      by eapply (HQ a rb b r).
    + intros kind' Hkind. simpl. rewrite JSMapFacts.get_set, Hkey.
      by apply (HN k b r).
Qed.

(** A handler starts to work on a registered room. *)
Lemma inv3_open_registered k a st :
  inv3 None st -> JSMap.get k (rooms st) = Some a -> inv3 (Some a) st.
Proof.
  intros (HR & HT & HN & HQ) Hk. split_and!; [done|done| |].
  - intros k' b r Hk' Hr _. by apply HN.
  - intros b rb c r [= <-] Hb Hc Hne Hr.
    destruct (HR k a Hk) as (r' & Hr' & Hid).
    assert (rb = r') as -> by congruence. rewrite Hid in Hc. congruence.
Qed.

(** The callback of a timer starts to work on the room object of the timer. *)
Lemma inv3_open_timer k a kind st :
  inv3 None st -> JSMap.get k (roomTimers st) = Some (mkTimer a kind) ->
  inv3 (Some a) st.
Proof.
  intros (HR & HT & HN & HQ) Hk. split_and!; [done|done| |].
  - intros k' b r Hk' Hr _. by apply HN.
  - intros b rb c r [= <-] Hb Hc Hne Hr.
    destruct (HT k _ Hk) as (r' & Hr' & Hid). simpl in Hr'.
    assert (rb = r') as -> by congruence. rewrite Hid in Hc.
    assert (timed st k c r) as Ht by by apply HN.
    split; intros Hp.
    + specialize (Ht RoundTimer Hp). congruence.
    + specialize (Ht IntermissionTimer Hp). congruence.
Qed.

(** The handler leaves the room object at [a] in a phase that needs no timer. *)
Lemma inv3_close_write a f st :
  inv3 (Some a) st -> (forall r, rid (f r) = rid r /\ quiet_phase (f r)) ->
  inv3 None (with_heap (alter f a) st).
Proof.
  intros Hinv Hf.
  destruct (inv3_free a f st Hinv (fun r => proj1 (Hf r))) as (HR & HT & HN & HQ).
  split_and!; [done|done| |done].
  intros k b r Hk Hr _. destruct (decide (b = a)) as [->|Hne].
  - simpl in Hr. rewrite list_lookup_alter_eq in Hr.
    apply fmap_Some in Hr as (r0 & _ & ->). apply quiet_timed, Hf.
  - apply HN; [done|done|congruence].
Qed.

Lemma inv3_close_quiet a r st :
  inv3 (Some a) st -> heap st !! a = Some r -> quiet_phase r -> inv3 None st.
Proof.
  intros (HR & HT & HN & HQ) Ha Hq. split_and!; [done|done| |done].
  intros k b r' Hk Hr _. destruct (decide (b = a)) as [->|Hne].
  - assert (r' = r) as -> by congruence. by apply quiet_timed.
  - apply HN; [done|done|congruence].
Qed.

(** The handler starts the timer that the phase of the room object at [a]
    calls for. *)
Lemma inv3_set_close a rb kind st :
  inv3 (Some a) st -> heap st !! a = Some rb -> phase rb = kind_phase kind ->
  inv3 None (with_roomTimers (JSMap.set (rid rb) (mkTimer a kind)) st).
Proof.
  intros Hinv Ha Hphase.
  destruct (inv3_timers_set_at a rb kind st Hinv Ha) as (HR & HT & HN & HQ).
  split_and!; [done|done| |done].
  intros k b r Hk Hr _. destruct (decide (b = a)) as [->|Hne].
  - simpl in Hr. assert (r = rb) as -> by congruence.
    destruct (HR k a Hk) as (r' & Hr' & Hid). simpl in Hr'.
    assert (r' = rb) as -> by congruence.
    intros kind' Hkind. simpl. rewrite JSMapFacts.get_set, <- Hid, String.eqb_refl.
    rewrite Hphase in Hkind. by destruct kind, kind'.
  - apply HN; [done|done|congruence].
Qed.

Lemma inv3_create k st :
  inv3 None st ->
  inv3 None (with_rooms (JSMap.set k (length (heap st)))
               (with_heap (fun h => h ++ [newRoom k]) st)).
Proof.
  intros (HR & HT & HN & HQ).
  assert (forall a r, (heap st ++ [newRoom k]) !! a = Some r ->
            heap st !! a = Some r \/ (a = length (heap st) /\ r = newRoom k)) as Hlook.
  { intros a r [Hr|[Hlen Hr]]%lookup_app_Some; [by left|right].
    apply list_lookup_singleton_Some in Hr as [Hz <-]. split; [lia|done]. }
  split_and!; simpl; [| | |done].
  - intros k' a. rewrite JSMapFacts.get_set.
    destruct (String.eqb k' k) eqn:Hkey.
    + apply String.eqb_eq in Hkey as ->. intros [= <-]. exists (newRoom k).
      by rewrite lookup_app_r, Nat.sub_diag.
    + intros Hk'. destruct (HR k' a Hk') as (r & Hr & Hid). exists r.
      split; [|done]. rewrite lookup_app_l; [done|by eapply lookup_lt_Some].
  - intros k' t Hk'. destruct (HT k' t Hk') as (r & Hr & Hid). exists r.
    split; [|done]. rewrite lookup_app_l; [done|by eapply lookup_lt_Some].
  - intros k' a r. rewrite JSMapFacts.get_set.
    destruct (String.eqb k' k) eqn:Hkey.
    + intros [= <-] Hr _. rewrite lookup_app_r, Nat.sub_diag in Hr by done.
      injection Hr as <-. by apply quiet_timed.
    + intros Hk' Hr _. destruct (Hlook a r Hr) as [Hr'|[-> _]].
      * by apply (HN k' a r).
      * destruct (HR k' _ Hk') as (r' & Hr' & _).
        apply lookup_lt_Some in Hr'. lia.
Qed.

Lemma inv3_initial : inv3 None initial.
Proof. by split_and!. Qed.

(** ** Tactics for the third invariant *)

Ltac keeps3_solve :=
  intros ?; split; [reflexivity | first [left; reflexivity | right; by split]].

Ltac inv3_solve :=
  repeat first
    [ eassumption
    | apply inv3_sent | apply inv3_nextOid | apply inv3_timeouts
    | apply inv3_socketToRoom | apply inv3_rooms_delete
    | (apply inv3_modifyRoom; [|keeps3_solve]) ].

Ltac free_solve :=
  repeat first
    [ eassumption
    | apply inv3_sent | apply inv3_nextOid | apply inv3_timeouts
    | apply inv3_socketToRoom | apply inv3_rooms_delete
    | (apply inv3_free; [|intros ?; reflexivity])
    | (eapply inv3_timers_delete_at; [|eassumption]) ].

(** ** The rounds keep the third invariant *)

Lemma startRound_inv3 now rnd a st :
  inv3 (Some a) st ->
  wp any_error (startRound now rnd a) (fun _ st' => inv3 None st') st.
Proof.
  intros Hinv. unfold startRound. do 3 ws_prim.
  - do 2 ws_prim.
    match goal with |- wp _ _ _ ?s => assert (inv3 None s) as Hclosed end.
    { apply inv3_close_write; [done|]. intros r0. by split. }
    repeat ws_prim; inv3_solve.
  - do 4 ws_prim. unfold startTimer. do 3 ws_prim.
    match goal with H : heap (with_heap _ (with_heap _ st)) !! a = Some ?r1 |- _ =>
      rename H into Hr1; rename r1 into room1 end.
    simpl in Hr1.
    assert (phase room1 = drawing) as Hphase.
    { rewrite !list_lookup_alter_eq in Hr1.
      apply fmap_Some in Hr1 as (r1 & (r0 & _ & ->)%fmap_Some & ->). done. }
    do 6 ws_prim.
    match goal with |- wp _ _ _ ?s => assert (inv3 None s) as Hclosed end.
    { apply (inv3_set_close a (set_roundEndAt (Some (now + ROUND_MS)%Z) room1) RoundTimer);
        [|by simpl; rewrite list_lookup_alter_eq, Hr1|done].
      eapply inv3_free; [|intros ?; reflexivity].
      eapply inv3_timers_delete_at; [|exact Hr1].
      free_solve. }
    repeat ws_prim; inv3_solve.
Qed.

Lemma endRound_inv3 now a why st :
  inv3 (Some a) st ->
  wp any_error (endRound now a why) (fun _ st' => inv3 None st') st.
Proof.
  intros Hinv. unfold endRound. do 4 ws_prim.
  match goal with H : heap (with_heap _ st) !! a = Some ?r1 |- _ =>
    rename H into Hr1; rename r1 into room1 end.
  simpl in Hr1.
  assert (phase room1 = intermission) as Hphase.
  { rewrite list_lookup_alter_eq in Hr1.
    by apply fmap_Some in Hr1 as (r0 & _ & ->). }
  do 8 ws_prim.
  match goal with |- wp _ _ _ ?s => assert (inv3 (Some a) s) as Hopen end.
  { apply inv3_sent. eapply inv3_timers_delete_at; [|exact Hr1].
    apply inv3_free; [done|]. by intros ?. }
  ws_prim.
  - do 2 ws_prim.
    match goal with |- wp _ _ _ ?s => assert (inv3 None s) as Hclosed end.
    { apply inv3_close_write; [done|]. intros r0. by split. }
    repeat ws_prim; inv3_solve.
  - do 12 ws_prim. ws_prim.
    + unfold startTimer. do 2 ws_prim.
      match goal with H : heap _ !! a = Some ?r2 |- _ =>
        assert (r2 = room1) as -> by (simpl in H; congruence) end.
      do 6 ws_prim.
      apply (inv3_set_close a (set_roundEndAt (Some (now + INTERMISSION_MS)%Z) room1)
               IntermissionTimer);
        [|by simpl; rewrite list_lookup_alter_eq, Hr1|done].
      eapply inv3_free; [|intros ?; reflexivity].
      eapply inv3_timers_delete_at; [|exact Hr1].
      free_solve.
    + do 2 ws_prim.
      match goal with |- wp _ _ _ ?s => assert (inv3 None s) as Hclosed end.
      { apply inv3_close_write; [free_solve|]. intros r0. by split. }
      repeat ws_prim; inv3_solve.
Qed.

Ltac registered_solve := simpl; eassumption.

Ltac w3_step :=
  lazymatch goal with
  | |- wp _ (startRound _ _ _) _ _ =>
      eapply wp_mono;
      [ eapply startRound_inv3, inv3_open_registered; [inv3_solve | registered_solve]
      | intros [] ? ? ]
  | |- wp _ (endRound _ _ _) _ _ =>
      eapply wp_mono;
      [ eapply endRound_inv3, inv3_open_registered; [inv3_solve | registered_solve]
      | intros [] ? ? ]
  | _ => ws_prim
  end.

Ltac w3_run := repeat w3_step; try solve [ inv3_solve ].

Lemma timerTick_inv3 roomId now rnd st :
  inv3 None st -> wp any_error (timerTick roomId now rnd) (fun _ st' => inv3 None st') st.
Proof.
  intros Hinv. unfold timerTick. do 3 ws_prim; [|w3_run].
  destruct t as [a kind]. cbn [t_room t_kind].
  assert (inv3 (Some a) st) as Hopen by by eapply inv3_open_timer.
  do 3 ws_prim; [|w3_run].
  match goal with H : heap st !! a = Some ?r |- _ => rename H into Hr; rename r into room end.
  repeat ws_prim.
  match goal with |- wp _ _ _ ?s => assert (inv3 (Some a) s) as Hopen' end.
  { apply inv3_sent, inv3_free; [|by intros ?].
    by eapply inv3_timers_delete_at. }
  unfold onComplete. cbn [t_kind t_room]. destruct kind.
  - by apply endRound_inv3.
  - unfold rotate. do 2 ws_prim. apply startRound_inv3.
    apply inv3_free; [done|by intros ?].
Qed.

Lemma getOrCreateRoom_inv3 k st :
  inv3 None st ->
  wp any_error (getOrCreateRoom k)
    (fun a st' => inv3 None st' /\ JSMap.get k (rooms st') = Some a) st.
Proof.
  intros Hinv. unfold getOrCreateRoom. do 3 ws_prim; [by ws_prim|].
  repeat ws_prim. split; [by apply inv3_create|].
  simpl. by rewrite JSMapFacts.get_set, String.eqb_refl.
Qed.

Section Handlers3.
Context (st : State) (Hinv : inv3 None st).

Lemma leavePrevious_inv3 sid cleanRoomId now :
  wp any_error (leavePrevious sid cleanRoomId now) (fun _ st' => inv3 None st') st.
Proof. unfold leavePrevious. w3_run. Qed.

Lemma player_leave_inv3 sid roomId now :
  wp any_error (player_leave sid roomId now) (fun _ st' => inv3 None st') st.
Proof. unfold player_leave. cbv zeta. w3_run. Qed.

Lemma chat_inv3 sid roomId message :
  wp any_error (chat sid roomId message) (fun _ st' => inv3 None st') st.
Proof. unfold chat. cbv zeta. w3_run. Qed.

Lemma guess_submit_inv3 sid roomId guess now :
  wp any_error (guess_submit sid roomId guess now) (fun _ st' => inv3 None st') st.
Proof. unfold guess_submit. cbv zeta. w3_run. Qed.

Lemma draw_inv3 sid roomId points :
  wp any_error (draw sid roomId points) (fun _ st' => inv3 None st') st.
Proof. unfold draw. cbv zeta. w3_run. Qed.

Lemma round_clear_request_inv3 sid roomId :
  wp any_error (round_clear_request sid roomId) (fun _ st' => inv3 None st') st.
Proof. unfold round_clear_request. cbv zeta. w3_run. Qed.

Lemma round_start_inv3 roomId now rnd :
  wp any_error (round_start roomId now rnd) (fun _ st' => inv3 None st') st.
Proof. unfold round_start. w3_run. Qed.

Lemma room_close_inv3 sid roomId :
  wp any_error (room_close sid roomId) (fun _ st' => inv3 None st') st.
Proof. unfold room_close. cbv zeta. w3_run. Qed.

Lemma round_skip_inv3 sid roomId now :
  wp any_error (round_skip sid roomId now) (fun _ st' => inv3 None st') st.
Proof. unfold round_skip. w3_run. Qed.

Lemma disconnect_inv3 sid now :
  wp any_error (disconnect sid now) (fun _ st' => inv3 None st') st.
Proof. unfold disconnect. cbv zeta. w3_run. Qed.

Lemma rooms_request_inv3 sid :
  wp any_error (rooms_request sid) (fun _ st' => inv3 None st') st.
Proof. unfold rooms_request. w3_run. Qed.

Lemma timeoutFire_inv3 k now :
  wp any_error (timeoutFire k now) (fun _ st' => inv3 None st') st.
Proof.
  unfold timeoutFire. do 4 ws_prim; [|w3_run|w3_run]. do 2 ws_prim.
  unfold fire. destruct t as [| |d a [[o s]|]]; w3_run.
Qed.

Lemma game_restart_inv3 roomId now rnd :
  wp any_error (game_restart roomId now rnd) (fun _ st' => inv3 None st') st.
Proof.
  unfold game_restart. do 3 ws_prim; [|w3_run].
  do 2 ws_prim. ws_prim; [w3_run|]. do 3 ws_prim.
  match goal with |- wp _ _ _ ?s => assert (inv3 (Some n) s) as Hfree end.
  { apply inv3_free; [by eapply inv3_open_registered|by intros ?]. }
  ws_prim.
  - eapply wp_mono; [by apply startRound_inv3|]. intros [] st' ?. w3_run.
  - eapply wp_mono with (Q := fun _ st' => inv3 None st'); [|intros [] st' ?; w3_run].
    repeat ws_prim. apply inv3_sent.
    eapply inv3_close_quiet; [exact Hfree| |].
    + cbn [heap with_heap]. rewrite list_lookup_alter_eq.
      match goal with H : heap st !! n = Some _ |- _ => rewrite H end. reflexivity.
    + unfold quiet_phase. cbn [phase set_phase].
      match goal with H : (2 <=? _) = false |- _ => rewrite H end. done.
Qed.

End Handlers3.

Lemma player_join_inv3 sid roomId name' now rnd st :
  inv3 None st ->
  wp any_error (player_join sid roomId name' now rnd) (fun _ st' => inv3 None st') st.
Proof.
  intros Hinv. unfold player_join, enter. cbv zeta. ws_prim; [w3_run|].
  ws_prim. eapply wp_mono; [by apply leavePrevious_inv3|].
  intros [] st1 Hinv1. ws_prim.
  eapply wp_mono; [by apply getOrCreateRoom_inv3|].
  intros a st2 [Hinv2 Hreg]. unfold settle, arrive. cbv zeta. clear Hinv Hinv1.
  w3_run.
Qed.

Lemma handle_inv3 i st :
  inv3 None st -> wp any_error (handle i) (fun _ st' => inv3 None st') st.
Proof.
  intros Hinv. destruct i; simpl.
  - by apply player_join_inv3.
  - by apply player_leave_inv3.
  - by apply chat_inv3.
  - by apply guess_submit_inv3.
  - by apply draw_inv3.
  - by apply round_clear_request_inv3.
  - by apply round_start_inv3.
  - by apply room_close_inv3.
  - by apply round_skip_inv3.
  - by apply game_restart_inv3.
  - by apply disconnect_inv3.
  - by apply rooms_request_inv3.
  - by apply rooms_request_inv3.
  - by apply rooms_request_inv3.
  - unfold bare. destruct ev, arg; first [by apply player_join_inv3 | by apply wp_throw].
  - by apply timerTick_inv3.
  - by apply timeoutFire_inv3.
Qed.

Lemma run_inv3_ok inputs st st' :
  inv3 None st -> run inputs st = Ok tt st' -> inv3 None st'.
Proof.
  revert st. induction inputs as [|i inputs IH]; intros st Hinv; simpl.
  - by intros [= <-].
  - pose proof (handle_inv3 i st Hinv) as Hi. unfold wp in Hi.
    destruct (handle i st) as [[] st1|]; [|done]. by apply IH.
Qed.

(** X30. In every state the server reaches without an exception, a room is
    registered under its own id; a registered room in the drawing phase has
    its round timer and one in the intermission its intermission timer; and
    every timer is registered under the id of its room. *)
Theorem reachable_rounds_are_timed inputs st k a room :
  run inputs initial = Ok tt st ->
  JSMap.get k (rooms st) = Some a ->
  heap st !! a = Some room ->
  rid room = k /\
  (phase room = drawing ->
     JSMap.get k (roomTimers st) = Some (mkTimer a RoundTimer)) /\
  (phase room = intermission ->
     JSMap.get k (roomTimers st) = Some (mkTimer a IntermissionTimer)) /\
  (forall k' t, JSMap.get k' (roomTimers st) = Some t ->
     exists r, heap st !! t_room t = Some r /\ rid r = k').
Proof.
  intros Hrun Hk Hroom.
  pose proof (run_inv3_ok inputs initial st inv3_initial Hrun) as (HR & HT & HN & _).
  destruct (HR k a Hk) as (r & Hr & Hid).
  assert (r = room) as -> by congruence.
  split_and!; [done| | |done].
  - intros Hp. by apply (HN k a room Hk Hroom ltac:(done) RoundTimer).
  - intros Hp. by apply (HN k a room Hk Hroom ltac:(done) IntermissionTimer).
Qed.

Lemma reachable_rounds_are_timed_witness :
  JSMap.get "r" (roomTimers (after two_joined)) = Some (mkTimer 0 RoundTimer).
Proof.
  apply (reachable_rounds_are_timed two_joined (after two_joined) "r" 0
           (mkRoom "r" [ann 0; bob 0] (Some "Cat") 1 (Fin 0) [] drawing (Some 60010%Z)));
    vm_compute; reflexivity.
Defined.
